(** * pypage2: a shallow embedding of the lexer, the tree builder and the
    execution engine of [pypage2.py], with the properties of its
    specification stated and settled against the code.

    Python 2 [str] values are modelled as [string] (byte strings), the
    environment dictionary as a [gmap string value], exceptions as an
    explicit outcome type, and loops that Python runs unboundedly as
    fuel-indexed fixpoints with a distinguished [Diverge] outcome. *)

From Stdlib Require Import Ascii String ZArith Lia.
From stdpp Require Import base gmap strings list pretty sorting.

Set Warnings "-register-all".

Local Open Scope nat_scope.

(* ===================================================================== *)
(** ** Python string methods used by the program *)
(* ===================================================================== *)

Module Py.

Definition chars (s : string) : list ascii := list_ascii_of_string s.
Definition of_chars (l : list ascii) : string := string_of_list_ascii l.

(** [c.isspace()] in the C locale. *)
Definition isspace (c : ascii) : bool := Ascii.is_space c.

Definition isdigit (c : ascii) : bool :=
  let n := nat_of_ascii c in (48 <=? n) && (n <=? 57).

Definition isalpha (c : ascii) : bool :=
  let n := nat_of_ascii c in
  ((65 <=? n) && (n <=? 90)) || ((97 <=? n) && (n <=? 122)).

Definition isalnum (c : ascii) : bool := isalpha c || isdigit c.

Fixpoint lstrip_chars (l : list ascii) : list ascii :=
  match l with
  | c :: l' => if isspace c then lstrip_chars l' else l
  | [] => []
  end.

Definition strip_chars (l : list ascii) : list ascii :=
  rev (lstrip_chars (rev (lstrip_chars l))).

(** [s.strip()] *)
Definition strip (s : string) : string := of_chars (strip_chars (chars s)).

(** [s.startswith(p)] *)
Definition startswith (s p : string) : bool := String.prefix p s.

(** [s.endswith(p)] *)
Definition endswith (s p : string) : bool :=
  String.prefix (of_chars (rev (chars p))) (of_chars (rev (chars s))).

(** [s[n:]] for [0 <= n] *)
Definition drop_prefix (n : nat) (s : string) : string :=
  of_chars (drop n (chars s)).

(** [s[:-n]] for [0 < n] *)
Definition drop_suffix (n : nat) (s : string) : string :=
  of_chars (take (String.length s - n) (chars s)).

(** [c in s] for a character [c] *)
Definition contains (c : ascii) (s : string) : bool :=
  existsb (Ascii.eqb c) (chars s).

(** [s.split()]: maximal runs of non-whitespace characters. *)
Fixpoint split_ws_aux (cur l : list ascii) : list string :=
  match l with
  | [] => match cur with [] => [] | _ => [of_chars (rev cur)] end
  | c :: l' =>
      if isspace c
      then match cur with
           | [] => split_ws_aux [] l'
           | _ => of_chars (rev cur) :: split_ws_aux [] l'
           end
      else split_ws_aux (c :: cur) l'
  end.

Definition split_ws (s : string) : list string := split_ws_aux [] (chars s).

(** [s.split(sep)] for a one-character separator: never empty. *)
Fixpoint split_on_aux (sep : ascii) (cur l : list ascii) : list string :=
  match l with
  | [] => [of_chars (rev cur)]
  | c :: l' =>
      if Ascii.eqb c sep
      then of_chars (rev cur) :: split_on_aux sep [] l'
      else split_on_aux sep (c :: cur) l'
  end.

Definition split_on (sep : ascii) (s : string) : list string :=
  split_on_aux sep [] (chars s).

(** [sep.join(l)] *)
Fixpoint join (sep : string) (l : list string) : string :=
  match l with
  | [] => ""
  | [x] => x
  | x :: l' => x +:+ sep +:+ join sep l'
  end.

(** [l.index(x)]; [None] stands for [ValueError]. *)
Fixpoint index (x : string) (l : list string) : option nat :=
  match l with
  | [] => None
  | y :: l' => if String.eqb y x then Some 0 else S <$> index x l'
  end.

(** [l[a:b]] for non-negative [a], [b] *)
Definition slice {A} (a b : nat) (l : list A) : list A :=
  take (b - a) (drop a l).

(** [sorted(set(l))]: strictly increasing in the byte order of [str]. *)
Fixpoint sorted_insert (x : string) (l : list string) : list string :=
  match l with
  | [] => [x]
  | y :: l' =>
      match String.compare x y with
      | Lt => x :: l
      | Eq => l
      | Gt => y :: sorted_insert x l'
      end
  end.

Definition sorted_set (l : list string) : list string :=
  foldr sorted_insert [] l.

End Py.

(* ===================================================================== *)
(** ** Nodes of the syntax tree *)
(* ===================================================================== *)

(** [loc]: (line, column) of the opening delimiter. *)
Definition loc_t : Type := nat * nat.

(** The subclasses of [TagNode]. [RawTag] is the class [TagNode] itself,
    which the lexer instantiates before the tag body is classified. *)
Inductive tag_kind : Type :=
  | RawTag
  | ForTag (targets : list string) (genexpr : string)
  | WhileTag (expr : string) (dofirst slow : bool)
  | CommentTag
  | CloseTag.

Inductive node : Type :=
  | TextNode (src : string)
  | CodeNode (src : string) (loc : loc_t)
  | TagNode (kind : tag_kind) (src : string) (loc : loc_t) (children : list node).

(** [RootNode]: only a list of children. *)
Record RootNode : Type := Root { root_children : list node }.

Definition node_src (n : node) : string :=
  match n with
  | TextNode s => s
  | CodeNode s _ => s
  | TagNode _ s _ _ => s
  end.

Definition node_loc (n : node) : option loc_t :=
  match n with
  | TextNode _ => None
  | CodeNode _ l => Some l
  | TagNode _ _ l _ => Some l
  end.

(** [node.src += s] *)
Definition append_src (n : node) (s : string) : node :=
  match n with
  | TextNode src => TextNode (src +:+ s)
  | CodeNode src l => CodeNode (src +:+ s) l
  | TagNode k src l ch => TagNode k (src +:+ s) l ch
  end.

Definition isTextNode (n : node) : bool :=
  match n with TextNode _ => true | _ => false end.

Definition isDelimitedNode (n : node) : bool :=
  match n with TextNode _ => false | _ => true end.

Definition isTagNode (n : node) : bool :=
  match n with TagNode _ _ _ _ => true | _ => false end.

Definition isCloseTag (n : node) : bool :=
  match n with TagNode CloseTag _ _ _ => true | _ => false end.

Definition open_delim (n : node) : string :=
  match n with
  | TextNode _ => ""
  | CodeNode _ _ => "{{"
  | TagNode _ _ _ _ => "{%"
  end.

Definition close_delim (n : node) : string :=
  match n with
  | TextNode _ => ""
  | CodeNode _ _ => "}}"
  | TagNode _ _ _ _ => "%}"
  end.

(* ===================================================================== *)
(** ** Exceptions and outcomes *)
(* ===================================================================== *)

(** The subclasses of [PypageSyntaxError], each built from a node. *)
Inductive syntax_error : Type :=
  | IncompleteDelimitedNode (n : node)
  | MultiLineTag (n : node)
  | UnboundCloseTag (n : node)
  | UnclosedTag (n : node)
  | IncorrectForTag (n : node)
  | UnknownTag (n : node).

(** Python exceptions that the program raises or lets through.
    [OtherError] stands for any other exception class. *)
Inductive pyexn : Type :=
  | SyntaxError (e : syntax_error)
  | TypeError (msg : string)
  | KeyError (key : string)
  | AssertionError
  | StopIteration
  | OtherError (name : string).

(** Result of running a piece of the program: a value, a raised
    exception, or no result within the fuel given. *)
Inductive outcome (A : Type) : Type :=
  | Ok (a : A)
  | Raise (e : pyexn)
  | Diverge.

Arguments Ok {A} a.
Arguments Raise {A} e.
Arguments Diverge {A}.

Definition obind {A B} (m : outcome A) (f : A → outcome B) : outcome B :=
  match m with
  | Ok a => f a
  | Raise e => Raise e
  | Diverge => Diverge
  end.

Definition fmt_loc (l : option loc_t) : string :=
  match l with
  | Some (ln, col) => "line " +:+ pretty ln +:+ ", column " +:+ pretty col +:+ "."
  | None => ""
  end.

(** [error.description], as the constructor of each class formats it. *)
Definition description (e : syntax_error) : string :=
  match e with
  | IncompleteDelimitedNode n =>
      "Missing closing '" +:+ close_delim n +:+ "' for opening '" +:+
      open_delim n +:+ "' at " +:+ fmt_loc (node_loc n)
  | MultiLineTag n =>
      "The tag starting at " +:+
      match node_loc n with
      | Some (ln, col) => "line " +:+ pretty ln +:+ ", column " +:+ pretty col
      | None => ""
      end +:+
      " spans multiple lines. This is not permitted. All tags ('" +:+
      open_delim n +:+ " ... " +:+ close_delim n +:+ "') must be on one line."
  | UnboundCloseTag n =>
      "Unbound closing tag '" +:+ open_delim n +:+ node_src n +:+
      close_delim n +:+ "' at " +:+ fmt_loc (node_loc n)
  | UnclosedTag n =>
      "Missing closing '" +:+ open_delim n +:+ " " +:+ close_delim n +:+
      "' tag for opening '" +:+ open_delim n +:+ node_src n +:+
      close_delim n +:+ "' at " +:+ fmt_loc (node_loc n)
  | IncorrectForTag n =>
      "Incorrect pypage for tag syntax: '" +:+ node_src n +:+ "'"
  | UnknownTag n =>
      "Unkown/unrecognized tag: '" +:+ open_delim n +:+ node_src n +:+
      close_delim n +:+ "'"
  end.

(** [str(error)] *)
Definition error_str (e : syntax_error) : string :=
  "Syntax Error: " +:+ description e.

(* ===================================================================== *)
(** ** Tag classes: identification and construction *)
(* ===================================================================== *)

Definition newline : ascii := "010"%char.
Definition underscore : ascii := "_"%char.
Definition comma : ascii := ","%char.

(** [isidentifier(s)] *)
Definition isidentifier (s : string) : bool :=
  forallb (λ b : bool, b)
    ((match s with
      | EmptyString => false
      | String c _ => Py.isalpha c || Ascii.eqb c underscore
      end)
     :: map (λ c, Py.isalnum c || Ascii.eqb c underscore) (Py.chars s)).

(** [first_true(function, sequence)]; [None] is Python's [None]. *)
Fixpoint first_true {A} (function : A → bool) (sequence : list A) : option A :=
  match sequence with
  | [] => None
  | item :: rest => if function item then Some item else first_true function rest
  end.

(** The four classes the lexer chooses from. *)
Inductive tag_class : Type := ForCls | CloseCls | WhileCls | CommentCls.

Definition tagNodeTypes : list tag_class := [ForCls; CloseCls; WhileCls; CommentCls].

Module ForTagM.
Definition tag_startswith : string := "for ".

Definition identify (src : string) : bool :=
  Py.startswith (Py.strip src) tag_startswith.

(** One target list: the pieces between commas, reduced to their
    alphanumeric and underscore characters, identifiers only. *)
Definition target_set (target_list_str : string) : list string :=
  filter (λ s, isidentifier s = true)
    (map (λ s, Py.of_chars
                 (filter (λ c, (Py.isalnum c || Ascii.eqb c underscore) = true)
                         (Py.chars s)))
         (Py.split_on comma target_list_str)).

(** The [while tokens:] loop of [_find_targets]. Each round drops at
    least one token, so [length tokens] rounds are enough. *)
Fixpoint find_targets_loop (fuel : nat) (tokens targets : list string) : list string :=
  match fuel, tokens with
  | S fuel', _ :: _ =>
      match Py.index "for" tokens, Py.index "in" tokens with
      | Some for_index, Some in_index =>
          let target_list_str := Py.join "" (Py.slice (for_index + 1) in_index tokens) in
          let tokens' := drop (in_index + 1) tokens in
          find_targets_loop fuel' tokens' (targets ++ target_set target_list_str)
      | _, _ => targets
      end
  | _, _ => targets
  end.

(** [_find_targets]. The statement [raise IncorrectForTag] gives the
    class no argument, while [IncorrectForTag.__init__] requires [node]:
    instantiating the exception fails, and what is raised is the
    [TypeError] of that call. *)
Definition _find_targets (src : string) : outcome (list string) :=
  let tokens := Py.split_ws src in
  let targets := find_targets_loop (length tokens) tokens [] in
  match targets with
  | [] => Raise (TypeError "__init__() takes exactly 2 arguments (1 given)")
  | _ => Ok (Py.sorted_set targets)
  end.

Definition _construct_generator_expression (targets : list string) (src : string) : string :=
  "((" +:+ Py.join ", " targets +:+ ") " +:+ src +:+ ")".

(** [ForTag(node)] *)
Definition init (nd : node) : outcome node :=
  match nd with
  | TagNode _ nsrc loc _ =>
      let src := Py.strip nsrc in
      if negb (identify src) then Raise AssertionError
      else obind (_find_targets src) (λ targets,
             Ok (TagNode (ForTag targets (_construct_generator_expression targets src))
                         src loc []))
  | _ => Raise (OtherError "AttributeError")
  end.
End ForTagM.

Module WhileTagM.
Definition tag_startswith : string := "while ".
Definition dofirst_startswith : string := "dofirst ".
Definition slow_endswith : string := "slow".

Definition identify (src : string) : bool :=
  Py.startswith (Py.strip src) tag_startswith.

(** [WhileTag(node)] *)
Definition init (nd : node) : outcome node :=
  match nd with
  | TagNode _ nsrc loc _ =>
      let src := Py.strip nsrc in
      if negb (identify src) then Raise AssertionError
      else
        let expr := Py.strip (Py.drop_prefix (String.length tag_startswith) src) in
        let '(expr, dofirst) :=
          if Py.startswith expr dofirst_startswith
          then (Py.strip (Py.drop_prefix (String.length dofirst_startswith) expr), true)
          else (expr, false) in
        let '(expr, slow) :=
          if Py.endswith expr slow_endswith
          then (Py.strip (Py.drop_suffix (String.length slow_endswith) expr), true)
          else (expr, false) in
        Ok (TagNode (WhileTag expr dofirst slow) src loc [])
  | _ => Raise (OtherError "AttributeError")
  end.
End WhileTagM.

Module CommentTagM.
Definition tag_startswith : string := "comment".

Definition identify (src : string) : bool :=
  Py.startswith (Py.strip src) tag_startswith.

(** [CommentTag(node)] *)
Definition init (nd : node) : outcome node :=
  match nd with
  | TagNode _ nsrc loc _ =>
      let src := Py.strip nsrc in
      if negb (identify src) then Raise AssertionError
      else Ok (TagNode CommentTag src loc [])
  | _ => Raise (OtherError "AttributeError")
  end.
End CommentTagM.

Module CloseTagM.
(** [not src.strip()] *)
Definition identify (src : string) : bool :=
  match Py.strip src with EmptyString => true | _ => false end.

(** [CloseTag(node)]: the body is kept as it is, not stripped. *)
Definition init (nd : node) : outcome node :=
  match nd with
  | TagNode _ nsrc loc _ => Ok (TagNode CloseTag nsrc loc [])
  | _ => Raise (OtherError "AttributeError")
  end.
End CloseTagM.

(** [t.identify(src)] *)
Definition identify (t : tag_class) (src : string) : bool :=
  match t with
  | ForCls => ForTagM.identify src
  | CloseCls => CloseTagM.identify src
  | WhileCls => WhileTagM.identify src
  | CommentCls => CommentTagM.identify src
  end.

(** [nodeType(node)] *)
Definition construct (t : tag_class) (nd : node) : outcome node :=
  match t with
  | ForCls => ForTagM.init nd
  | CloseCls => CloseTagM.init nd
  | WhileCls => WhileTagM.init nd
  | CommentCls => CommentTagM.init nd
  end.

(** The class chosen for a tag body, as the lexer computes it. *)
Definition classify (src : string) : option tag_class :=
  first_true (λ t, identify t src) tagNodeTypes.

(* ===================================================================== *)
(** ** The lexer *)
(* ===================================================================== *)

(** The variables of the scanning loop of [lex]. *)
Record lex_state : Type := LexState {
  lx_tokens : list node;
  lx_node : option node;
  lx_i : nat;
  lx_line : nat;
  lx_line_i : nat
}.

Inductive lex_step_result : Type :=
  | Next (st : lex_state)
  | Fail (e : pyexn).

(** [open_delims]: from an opening delimiter to the node class it opens. *)
Definition open_delims (c2 : string) : option (loc_t → node) :=
  if String.eqb c2 "{{" then Some (λ loc, CodeNode "" loc)
  else if String.eqb c2 "{%" then Some (λ loc, TagNode RawTag "" loc [])
  else None.

Definition is_escape (c2 : string) : bool :=
  String.eqb c2 "\{" || String.eqb c2 "\}".

(** What happens to a delimited node when its closing delimiter is met. *)
Definition close_node (nd : node) : outcome node :=
  match nd with
  | TagNode _ src _ _ =>
      if Py.contains newline src then Raise (SyntaxError (MultiLineTag nd))
      else match first_true (λ t, identify t src) tagNodeTypes with
           | None => Raise (SyntaxError (UnknownTag nd))
           | Some nodeType => construct nodeType nd
           end
  | _ => Ok nd
  end.

(** The part of the loop body that runs once [node] is not [None]. *)
Definition lex_in_node (len : nat) (tokens : list node) (nd : node)
    (c c' : ascii) (i line line_i : nat) : lex_step_result :=
  let c2 := String c (String c' "") in
  let c_pos_in_line := i - line_i in
  match (if isTextNode nd then open_delims c2 else None) with
  | Some mk =>
      Next (LexState (tokens ++ [nd]) (Some (mk (line, c_pos_in_line))) (i + 2) line line_i)
  | None =>
      if isDelimitedNode nd && String.eqb c2 (close_delim nd) then
        match close_node nd with
        | Ok nd' => Next (LexState (tokens ++ [nd']) None (i + 2) line line_i)
        | Raise e => Fail e
        | Diverge => Fail (OtherError "unreachable")
        end
      else if is_escape c2 then
        Next (LexState tokens (Some (append_src nd (String c' ""))) (i + 2) line line_i)
      else if i <? len - 2 then
        Next (LexState tokens (Some (append_src nd (String c ""))) (i + 1) line line_i)
      else
        Next (LexState tokens (Some (append_src nd c2)) (i + 2) line line_i)
  end.

(** One round of [while i < len(src) - 1]. *)
Definition lex_step (src : list ascii) (st : lex_state) : lex_step_result :=
  let i := lx_i st in
  match src !! i, src !! (i + 1) with
  | Some c, Some c' =>
      let c2 := String c (String c' "") in
      let line := if Ascii.eqb c newline then lx_line st + 1 else lx_line st in
      let line_i := if Ascii.eqb c newline then i else lx_line_i st in
      let c_pos_in_line := i - line_i in
      match lx_node st with
      | None =>
          match open_delims c2 with
          | Some mk =>
              Next (LexState (lx_tokens st) (Some (mk (line, c_pos_in_line))) (i + 2) line line_i)
          | None =>
              lex_in_node (length src) (lx_tokens st) (TextNode "") c c' i line line_i
          end
      | Some nd =>
          lex_in_node (length src) (lx_tokens st) nd c c' i line line_i
      end
  | _, _ => Fail (OtherError "IndexError")
  end.

(** The loop, with one unit of fuel per round. *)
Fixpoint lex_loop (fuel : nat) (src : list ascii) (st : lex_state) : outcome lex_state :=
  if lx_i st <? length src - 1 then
    match fuel with
    | 0 => Diverge
    | S fuel' =>
        match lex_step src st with
        | Next st' => lex_loop fuel' src st'
        | Fail e => Raise e
        end
    end
  else Ok st.

Definition lex_init : lex_state := LexState [] None 0 1 0.

(** What follows the loop: a pending text node is kept, a pending
    delimited node is an error. *)
Definition lex_finish (st : lex_state) : outcome (list node) :=
  match lx_node st with
  | Some nd =>
      if isTextNode nd then Ok (lx_tokens st ++ [nd])
      else Raise (SyntaxError (IncompleteDelimitedNode nd))
  | None => Ok (lx_tokens st)
  end.

(** [lex(src)] *)
Definition lex (src : string) : outcome (list node) :=
  obind (lex_loop (String.length src) (Py.chars src) lex_init) lex_finish.

(* ===================================================================== *)
(** ** The tree builder *)
(* ===================================================================== *)

Definition node_children (n : node) : list node :=
  match n with
  | TagNode _ _ _ ch => ch
  | _ => []
  end.

Definition with_children (n : node) (ch : list node) : node :=
  match n with
  | TagNode k s l _ => TagNode k s l ch
  | _ => n
  end.

(** The [node] argument of [build_tree]: the root or an opened tag. *)
Inductive tree_parent : Type :=
  | PRoot
  | PTag (nd : node).

(** [build_tree(node, tokens)]. [children] is [node.children] as built so
    far; the result is the final [node.children] and what is left of the
    token iterator. An exhausted iterator is [StopIteration]. *)
Fixpoint build_tree (fuel : nat) (parent : tree_parent) (children tokens : list node)
    : outcome (list node * list node) :=
  match fuel with
  | 0 => Diverge
  | S fuel' =>
      match tokens with
      | [] =>
          match parent with
          | PRoot => Ok (children, [])
          | PTag nd => Raise (SyntaxError (UnclosedTag (with_children nd children)))
          end
      | tok :: rest =>
          if isCloseTag tok then
            match parent with
            | PTag _ => Ok (children, rest)
            | PRoot => Raise (SyntaxError (UnboundCloseTag tok))
            end
          else if isTagNode tok then
            obind (build_tree fuel' (PTag tok) (node_children tok) rest)
              (λ '(kids, rest'),
                 build_tree fuel' parent (children ++ [with_children tok kids]) rest')
          else build_tree fuel' parent (children ++ [tok]) rest
      end
  end.

(** The tree built from a whole token list. *)
Definition build_root (tokens : list node) : outcome RootNode :=
  obind (build_tree (S (length tokens)) PRoot [] tokens) (λ '(kids, _), Ok (Root kids)).

(** [parse(src)] *)
Definition parse (src : string) : outcome RootNode :=
  obind (lex src) build_root.

(* ===================================================================== *)
(** ** The execution engine *)
(* ===================================================================== *)

Section Engine.

(** The objects of the embedded language that the engine never looks
    into. *)
Variable V : Type.

(** Python values the engine handles: the ones [PypageExec.__init__]
    puts into the environment, and the evaluator's own. *)
Inductive value : Type :=
  | VNone
  | VStr (s : string)
  | VModule (name : string)
  | VWrite
  | VObj (v : V).

(** The environment dictionary [pe.env]. *)
Abbreviation dict := (gmap string value).

(** What the engine takes from the Python runtime. Each operation runs
    code of the embedded language: it may raise, and it may change the
    environment whether it raises or not.
    - [py_exec code]: [exec code in env], giving the text passed to
      [write] during the run ([self.output]);
    - [py_eval code]: [eval(code, env)];
    - [py_str v]: [str(v)];
    - [py_truth v]: the truth value a [while] tests;
    - [py_next gen]: [next(gen)], giving the item and the iterator
      after it;
    - [py_take n v]: the items [zip] draws from [v] next to [n] names;
    - [time_time k]: what the [k]-th call of [time.time()] returns, in
      milliseconds. *)
Record Evaluator : Type := {
  py_exec : string → dict → outcome string * dict;
  py_eval : string → dict → outcome value * dict;
  py_str : value → dict → outcome string * dict;
  py_truth : value → dict → outcome bool * dict;
  py_next : value → dict → outcome (value * value) * dict;
  py_take : nat → value → dict → outcome (list value) * dict;
  time_time : nat → Z
}.

Variable ev : Evaluator.

(** State of a run: the dictionary [pe.env] refers to, the number of
    clock readings made, and what was printed. *)
Record state : Type := State {
  env : dict;
  ticks : nat;
  stdout : list string
}.

(** Computations of the engine: the state survives an exception. *)
Definition M (A : Type) : Type := state → outcome A * state.

Definition ret {A} (a : A) : M A := λ st, (Ok a, st).
Definition raise {A} (e : pyexn) : M A := λ st, (Raise e, st).
Definition diverge {A} : M A := λ st, (Diverge, st).

Definition bind {A B} (m : M A) (k : A → M B) : M B :=
  λ st,
    match m st with
    | (Ok a, st') => k a st'
    | (Raise e, st') => (Raise e, st')
    | (Diverge, st') => (Diverge, st')
    end.

Notation "'let!' x ':=' m 'in' k" := (bind m (λ x, k))
  (at level 10, x pattern, m at level 100, k at level 200).

Definition lift_env {A} (f : dict → outcome A * dict) : M A :=
  λ st, let '(r, e) := f (env st) in (r, State e (ticks st) (stdout st)).

Definition get_env : M dict := λ st, (Ok (env st), st).

Definition modify_env (f : dict → dict) : M unit :=
  λ st, (Ok tt, State (f (env st)) (ticks st) (stdout st)).

(** [time.time()] *)
Definition time_now : M Z :=
  λ st, (Ok (time_time ev (ticks st)), State (env st) (S (ticks st)) (stdout st)).

(** [print text] *)
Definition print (text : string) : M unit :=
  λ st, (Ok tt, State (env st) (ticks st) (stdout st ++ [text])).

(** [PypageExec.__init__]: the five names written into [env]. *)
Definition PypageExec_init (e : dict) (name : string) : dict :=
  <["write" := VWrite]>
    (<["__doc__" := VNone]>
       (<["__name__" := VStr name]>
          (<["__package__" := VNone]>
             (<["__builtins__" := VModule "__builtin__"]> e)))).

(** [pe.run(code)] *)
Definition pe_run (code : string) : M string :=
  if Py.contains newline code || Py.contains ";"%char code
  then lift_env (py_exec ev code)
  else let! v := lift_env (py_eval ev code) in lift_env (py_str ev v).

(** [pe.raw_eval(code)] *)
Definition raw_eval (code : string) : M value :=
  if Py.contains newline code then raise AssertionError
  else lift_env (py_eval ev code).

(** [{ k : v for k, v in pairs }]: a later pair wins. *)
Definition dict_of (pairs : list (string * value)) : dict :=
  foldl (λ d kv, <[kv.1 := kv.2]> d) ∅ pairs.

(** [d.update(other)] *)
Definition update (other d : dict) : dict := other ∪ d.

(** *** [ForTag.run] *)

(** The body of the [try] block: one round of the loop. *)
Definition for_round (body : M string) (targets : list string)
    (gen : value) (output : string) : M (value * string) :=
  let! (item, gen') := lift_env (py_next ev gen) in
  let! vals := lift_env (py_take ev (length targets) item) in
  let for_targets := dict_of (zip targets vals) in
  let! _ := modify_env (update for_targets) in
  let! out := body in
  ret (gen', output +:+ out).

(** [while True: try: ... except StopIteration: break] *)
Fixpoint for_loop (n : nat) (body : M string) (targets : list string)
    (gen : value) (output : string) : M string :=
  match n with
  | 0 => diverge
  | S n' =>
      λ st,
        match for_round body targets gen output st with
        | (Ok (gen', output'), st') => for_loop n' body targets gen' output' st'
        | (Raise StopIteration, st') => (Ok output, st')
        | (Raise e, st') => (Raise e, st')
        | (Diverge, st') => (Diverge, st')
        end
  end.

(** [for target in self.targets: del pe.env[target]] *)
Fixpoint del_targets (targets : list string) : M unit :=
  match targets with
  | [] => ret tt
  | target :: rest =>
      λ st,
        match env st !! target with
        | Some _ => del_targets rest (State (delete target (env st)) (ticks st) (stdout st))
        | None => (Raise (KeyError target), st)
        end
  end.

(** [backup = { x : pe.env[x] for x in conflicting }] *)
Definition backup_of (targets : list string) (e : dict) : dict :=
  filter (λ kv, kv.1 ∈ targets) e.

Definition ForTag_run (body : M string) (loop_fuel : nat)
    (targets : list string) (genexpr : string) : M string :=
  let! e := get_env in
  let backup := backup_of targets e in
  let! gen := raw_eval genexpr in
  let! output := for_loop loop_fuel body targets gen "" in
  let! _ := del_targets targets in
  let! _ := modify_env (update backup) in
  ret output.

(** *** [WhileTag.run] *)

Fixpoint while_loop (n : nat) (body : M string) (expr : string) (slow : bool)
    (loop_start_time : Z) (output : string) : M string :=
  match n with
  | 0 => diverge
  | S n' =>
      let! v := raw_eval expr in
      let! b := lift_env (py_truth ev v) in
      if b : bool then
        let! out := body in
        let output := output +:+ out in
        if negb slow then
          let! now := time_now in
          if (2000 <? now - loop_start_time)%Z then
            let! _ := print ("Loop '" +:+ expr +:+ "' terminated.") in
            ret output
          else while_loop n' body expr slow loop_start_time output
        else while_loop n' body expr slow loop_start_time output
      else ret output
  end.

Definition WhileTag_run (body : M string) (loop_fuel : nat)
    (expr : string) (dofirst slow : bool) : M string :=
  let! output := (if dofirst then body else ret "") in
  let! loop_start_time := time_now in
  while_loop loop_fuel body expr slow loop_start_time output.

(** *** Dispatch and tree walk *)

(** [node.run(pe)] for a tag of the given class and children.
    [exec_children] is [exec_tree] one level down. *)
Definition tag_run (exec_children : list node → M string) (loop_fuel : nat)
    (kind : tag_kind) (children : list node) : M string :=
  match kind with
  | ForTag targets genexpr =>
      ForTag_run (exec_children children) loop_fuel targets genexpr
  | WhileTag expr dofirst slow =>
      WhileTag_run (exec_children children) loop_fuel expr dofirst slow
  | CommentTag => ret ""
  | RawTag | CloseTag => raise (OtherError "Exception")
  end.

(** The [for node in parent_node.children] loop of [exec_tree]. *)
Fixpoint exec_nodes (run : tag_kind → list node → M string)
    (nodes : list node) (output : string) : M string :=
  match nodes with
  | [] => ret output
  | TextNode src :: rest => exec_nodes run rest (output +:+ src)
  | CodeNode src _ :: rest =>
      let! out := pe_run src in exec_nodes run rest (output +:+ out)
  | TagNode kind _ _ children :: rest =>
      let! out := run kind children in exec_nodes run rest (output +:+ out)
  end.

(** [exec_tree(parent_node, pe)] on [parent_node.children]. One unit of
    fuel per level of nesting and per round of a loop. *)
Fixpoint exec_tree (fuel : nat) (children : list node) : M string :=
  match fuel with
  | 0 => diverge
  | S fuel' => exec_nodes (tag_run (exec_tree fuel') fuel') children ""
  end.

(** *** [execute] and the default environment *)

(** What outlives a call of [execute]: the dictionary that
    [def __init__(self, env=dict(), ...)] created when the class body
    ran, the clock and the standard output. *)
Record process : Type := Process {
  default_env : dict;
  proc_ticks : nat;
  proc_stdout : list string
}.

(** [pe = PypageExec()]: [pe.env] is the default dictionary itself, with
    the five names of [__init__] written into it. *)
Definition PypageExec_new (p : process) : state :=
  State (PypageExec_init (default_env p) "pypage_transient") (proc_ticks p) (proc_stdout p).

(** The process after a run: what the run left in [pe.env] is what the
    default dictionary holds, since they are one object. *)
Definition process_of (st : state) : process :=
  Process (env st) (ticks st) (stdout st).

(** [execute(src)] *)
Definition execute (fuel : nat) (src : string) (p : process) : outcome unit * process :=
  match parse src with
  | Ok tree =>
      let '(r, st) :=
        (let! output := exec_tree fuel (root_children tree) in print output)
          (PypageExec_new p) in
      (r, process_of st)
  | Raise e => (Raise e, p)
  | Diverge => (Diverge, p)
  end.

End Engine.

Arguments VNone {V}.
Arguments VStr {V} s.
Arguments VModule {V} name.
Arguments VWrite {V}.
Arguments VObj {V} v.
Arguments State {V} env ticks stdout.
Arguments env {V} s.
Arguments ticks {V} s.
Arguments stdout {V} s.
Arguments Process {V} default_env proc_ticks proc_stdout.
Arguments default_env {V} p.
Arguments proc_ticks {V} p.
Arguments proc_stdout {V} p.
Arguments py_exec {V} e.
Arguments py_eval {V} e.
Arguments py_str {V} e.
Arguments py_truth {V} e.
Arguments py_next {V} e.
Arguments py_take {V} e.
Arguments time_time {V} e.
Arguments ret {V A} a.
Arguments raise {V A} e.
Arguments diverge {V A}.
Arguments bind {V A B} m k.
Arguments lift_env {V A} f.
Arguments get_env {V}.
Arguments modify_env {V} f.
Arguments time_now {V} ev.
Arguments print {V} text.
Arguments PypageExec_init {V} e name.
Arguments pe_run {V} ev code.
Arguments raw_eval {V} ev code.
Arguments dict_of {V} pairs.
Arguments update {V} other d.
Arguments for_round {V} ev body targets gen output.
Arguments for_loop {V} ev n body targets gen output.
Arguments del_targets {V} targets.
Arguments backup_of {V} targets e.
Arguments ForTag_run {V} ev body loop_fuel targets genexpr.
Arguments while_loop {V} ev n body expr slow loop_start_time output.
Arguments WhileTag_run {V} ev body loop_fuel expr dofirst slow.
Arguments tag_run {V} ev exec_children loop_fuel kind children.
Arguments exec_nodes {V} ev run nodes output.
Arguments exec_tree {V} ev fuel children.
Arguments PypageExec_new {V} p.
Arguments process_of {V} st.
Arguments execute {V} ev fuel src p.

(* ===================================================================== *)
(** ** A small evaluator to run templates with *)
(* ===================================================================== *)

(** Enough of Python to run the templates of the examples below: integer
    objects, tuples of integers, iterators over a list of tuples, names
    looked up in the environment, one assignment statement and three
    expressions with their Python results. *)
Module Toy.

Inductive obj : Type :=
  | Int (n : Z)
  | Tuple (items : list Z)
  | Iter (pending : list (list Z)).

Abbreviation dict := (gmap string (value obj)).

Definition eval (code : string) (e : dict) : outcome (value obj) * dict :=
  let code := Py.strip code in
  if String.eqb code "1/0" then (Raise (OtherError "ZeroDivisionError"), e)
  else if String.eqb code "next(iter([]))" then (Raise StopIteration, e)
  else if String.eqb code "((a, b) for a, b in [])" then (Ok (VObj (Iter [])), e)
  else if String.eqb code "((a, b) for a, b in [(1, 2), (3, 4)])"
  then (Ok (VObj (Iter [[1; 2]; [3; 4]]%Z)), e)
  else match e !! code with
       | Some v => (Ok v, e)
       | None => (Raise (OtherError "NameError"), e)
       end.

(** [exec code in env] for the statements of the examples. A statement
    that begins with a blank is an [IndentationError]; blanks after it
    are of no account. *)
Definition exec (code : string) (e : dict) : outcome string * dict :=
  match code with
  | String c _ =>
      if Ascii.eqb c " " || Ascii.eqb c "009"
      then (Raise (OtherError "IndentationError"), e)
      else if String.eqb (Py.strip code) "x = 1;"
      then (Ok "", <["x" := VObj (Int 1)]> e)
      else if String.eqb (Py.strip code) "__doc__ = 7;"
      then (Ok "", <["__doc__" := VObj (Int 7)]> e)
      else (Raise (OtherError "SyntaxError"), e)
  | EmptyString => (Ok "", e)
  end.

Definition str (v : value obj) (e : dict) : outcome string * dict :=
  match v with
  | VNone => (Ok "None", e)
  | VStr s => (Ok s, e)
  | VObj (Int n) => (Ok (pretty n), e)
  | _ => (Ok "<object>", e)
  end.

Definition truth (v : value obj) (e : dict) : outcome bool * dict :=
  match v with
  | VNone => (Ok false, e)
  | VStr s => (Ok (negb (String.eqb s "")), e)
  | VObj (Int n) => (Ok (negb (n =? 0)%Z), e)
  | VObj (Tuple l) => (Ok (negb (length l =? 0)), e)
  | _ => (Ok true, e)
  end.

Definition next (gen : value obj) (e : dict) : outcome (value obj * value obj) * dict :=
  match gen with
  | VObj (Iter []) => (Raise StopIteration, e)
  | VObj (Iter (t :: rest)) => (Ok (VObj (Tuple t), VObj (Iter rest)), e)
  | _ => (Raise (TypeError "object is not an iterator"), e)
  end.

Definition take_items (n : nat) (v : value obj) (e : dict) : outcome (list (value obj)) * dict :=
  match v with
  | VObj (Tuple l) => (Ok (map (λ z, VObj (Int z)) (take n l)), e)
  | VStr s => (Ok (map (λ c, VStr (String c "")) (take n (Py.chars s))), e)
  | _ => (Raise (TypeError "zip argument #2 must support iteration"), e)
  end.

Definition evaluator : Evaluator obj :=
  {| py_exec := exec; py_eval := eval; py_str := str; py_truth := truth;
     py_next := next; py_take := take_items; time_time := λ _, 0%Z |}.

(** A process in which nothing has run yet. *)
Definition fresh : process obj := Process ∅ 0 [].

End Toy.

(* ===================================================================== *)
(** ** Notions used to state the properties *)
(* ===================================================================== *)

Definition backslash : ascii := "\"%char.
Definition lbrace : ascii := "{"%char.
Definition rbrace : ascii := "}"%char.
Definition percent : ascii := "%"%char.

(** The node the loop body works on: [node], or the text node it makes
    when there is none. *)
Definition current_node (st : lex_state) : node :=
  match lx_node st with
  | Some nd => nd
  | None => TextNode ""
  end.

(** One round of the loop, as a relation between states. *)
Definition lex_round (src : list ascii) (st st' : lex_state) : Prop :=
  (lx_i st <? length src - 1) = true ∧ lex_step src st = Next st'.

(** The states the loop goes through on [src]. *)
Definition lex_reach (src : list ascii) (st : lex_state) : Prop :=
  rtc (lex_round src) lex_init st.

(** A node as the lexer makes it: no children yet. *)
Definition childless (n : node) : Prop := node_children n = [].

(** What holds of the tokens and of the pending node all along the scan. *)
Definition lex_inv (st : lex_state) : Prop :=
  Forall childless (lx_tokens st) ∧
  match lx_node st with Some nd => childless nd | None => True end.

(** A token that opens a tag: a tag node that is not a close marker. *)
Definition isOpenTag (n : node) : bool := isTagNode n && negb (isCloseTag n).

(** [Balanced tokens trees]: the token list is a sequence of leaves and
    of tags, each tag followed by the tokens of its children and then by
    one close marker of its own, and [trees] is that nesting, without the
    close markers. *)
Inductive Balanced : list node → list node → Prop :=
  | Bal_nil : Balanced [] []
  | Bal_leaf tok toks trees :
      isTagNode tok = false →
      Balanced toks trees →
      Balanced (tok :: toks) (tok :: trees)
  | Bal_tag tok inner kids c rest trees :
      isOpenTag tok = true →
      isCloseTag c = true →
      Balanced inner kids →
      Balanced rest trees →
      Balanced (tok :: inner ++ c :: rest)
               (with_children tok (node_children tok ++ kids) :: trees).

(** [OpenPrefix pre]: [pre] has no close marker without a tag to close;
    some of its tags may still be open at its end. *)
Inductive OpenPrefix : list node → Prop :=
  | OP_nil : OpenPrefix []
  | OP_bal seg trees rest :
      Balanced seg trees → OpenPrefix rest → OpenPrefix (seg ++ rest)
  | OP_open tok rest :
      isOpenTag tok = true → OpenPrefix rest → OpenPrefix (tok :: rest).

(** No close marker anywhere in a tree. *)
Fixpoint close_free (n : node) : bool :=
  match n with
  | TagNode k _ _ ch =>
      match k with CloseTag => false | _ => forallb close_free ch end
  | _ => true
  end.

(** The names [PypageExec.__init__] writes at the start of every run. *)
Definition init_names : list string :=
  ["__builtins__"; "__package__"; "__name__"; "__doc__"; "write"].

(** A source without any opening delimiter and without any escaped
    brace. *)
Definition plain_text (src : string) : Prop :=
  ∀ i c c',
    Py.chars src !! i = Some c → Py.chars src !! (i + 1) = Some c' →
    open_delims (String c (String c' "")) = None ∧
    is_escape (String c (String c' "")) = false.

(** The number of newlines among the first [i] characters. *)
Fixpoint count_newlines (src : list ascii) (i : nat) : nat :=
  match i with
  | 0 => 0
  | S j =>
      match src !! j with
      | Some c => if Ascii.eqb c newline then S (count_newlines src j) else count_newlines src j
      | None => count_newlines src j
      end
  end.

(** The index of the last newline among the first [i] characters, 0 when
    there is none. *)
Fixpoint last_newline (src : list ascii) (i : nat) : nat :=
  match i with
  | 0 => 0
  | S j =>
      match src !! j with
      | Some c => if Ascii.eqb c newline then j else last_newline src j
      | None => last_newline src j
      end
  end.

(** The line counters are those of the position the scan is at. *)
Definition lex_line_inv (src : list ascii) (st : lex_state) : Prop :=
  length src ≤ lx_i st ∨
  (lx_line st = 1 + count_newlines src (lx_i st) ∧
   lx_line_i st = last_newline src (lx_i st)).

(* ===================================================================== *)
(** ** The text utilities behind [__repr__] *)
(* ===================================================================== *)

Definition carriage_return : ascii := "013"%char.
Definition space : ascii := " "%char.

(** [s.splitlines()] on a [str]: lines end at a newline, at a carriage
    return, or at a carriage return followed by a newline; the line ends
    are dropped, and the end of the string ends a line only when that
    line is not empty. *)
Fixpoint splitlines_aux (cur l : list ascii) : list string :=
  match l with
  | [] => match cur with [] => [] | _ => [Py.of_chars (rev cur)] end
  | c :: l' =>
      if Ascii.eqb c newline then Py.of_chars (rev cur) :: splitlines_aux [] l'
      else if Ascii.eqb c carriage_return then
        match l' with
        | c' :: l'' =>
            if Ascii.eqb c' newline
            then Py.of_chars (rev cur) :: splitlines_aux [] l''
            else Py.of_chars (rev cur) :: splitlines_aux [] l'
        | [] => Py.of_chars (rev cur) :: splitlines_aux [] l'
        end
      else splitlines_aux (c :: cur) l'
  end.

Definition splitlines (text : string) : list string :=
  splitlines_aux [] (Py.chars text).

(** [' ' * width * level], that is [(' ' * width) * level]: a string
    times an integer that is not positive is empty. *)
Definition spaces (width level : Z) : string :=
  Py.of_chars (mjoin (replicate (Z.to_nat level) (replicate (Z.to_nat width) space))).

(** [filterlines(text)]: [line.strip()] is true of a line when it is not
    empty. *)
Definition filterlines (text : string) : string :=
  Py.join (String newline "")
    (filter (λ line, Py.strip line ≠ "") (splitlines text)).

(** [prepend(text, prefix)] *)
Definition prepend (text prefix : string) : string :=
  Py.join (String newline "") (map (λ line, prefix +:+ line) (splitlines text)).

(** [indent(text, level, width)] *)
Definition indent (text : string) (level width : Z) : string :=
  prepend text (spaces width level).

(** [indent_filtered(text, level, width)] *)
Definition indent_filtered (text : string) (level width : Z) : string :=
  prepend (filterlines text) (spaces width level).

(** [repr(node)], with the default [level=1, width=4] of its calls. *)
Fixpoint repr (n : node) : string :=
  match n with
  | TextNode src => "Text:" +:+ String newline "" +:+ indent_filtered src 1 4
  | CodeNode src _ => "Code:" +:+ String newline "" +:+ indent_filtered src 1 4
  | TagNode CloseTag _ _ _ => "CloseTag." +:+ String newline ""
  | TagNode _ src _ children =>
      "{% " +:+ src +:+ " %}:" +:+ String newline "" +:+
      indent (Py.join (String newline "") (map repr children)) 1 4
  end.

(** [repr(tree)] for the root. *)
Definition repr_root (tree : RootNode) : string :=
  "Root:" +:+ String newline "" +:+
  indent (Py.join (String newline "") (map repr (root_children tree))) 1 4.

(* ===================================================================== *)
(** ** Notions used to state further properties *)
(* ===================================================================== *)

(** A string without a newline. *)
Definition one_line (s : string) : Prop := Py.contains newline s = false.

(** A string without any line end, as [splitlines] sees them. *)
Definition no_line_end (s : string) : Prop :=
  Forall (λ c, c ≠ newline ∧ c ≠ carriage_return) (Py.chars s).

(** The byte order of [str], strict. *)
Definition str_lt (a b : string) : Prop := String.compare a b = Lt.

(** What [ForTag.targets] is: some identifiers, in strictly increasing
    order. *)
Definition targets_ok (targets : list string) : Prop :=
  targets ≠ [] ∧
  Forall (λ t, isidentifier t = true) targets ∧
  StronglySorted str_lt targets.

(** What the attributes of a tag of each class are, given its body. *)
Definition kind_ok (k : tag_kind) (src : string) : Prop :=
  match k with
  | RawTag => False
  | ForTag targets genexpr =>
      Py.strip src = src ∧ Py.startswith src "for " = true ∧
      targets_ok targets ∧
      genexpr = ForTagM._construct_generator_expression targets src ∧
      one_line genexpr
  | WhileTag expr dofirst slow =>
      Py.strip src = src ∧ Py.startswith src "while " = true ∧
      Py.strip expr = expr ∧ one_line expr
  | CommentTag => Py.strip src = src ∧ Py.startswith src "comment" = true
  | CloseTag => Py.strip src = ""
  end.

(** A token as [lex] makes it. *)
Definition token_ok (n : node) : Prop :=
  match n with
  | TextNode src => src ≠ ""
  | CodeNode _ _ => True
  | TagNode k src _ ch => ch = [] ∧ one_line src ∧ kind_ok k src
  end.

(** A node of a tree as [parse] makes it: as a token, but never a close
    marker, and with children of the same kind. *)
Fixpoint tree_ok (n : node) : Prop :=
  match n with
  | TextNode src => src ≠ ""
  | CodeNode _ _ => True
  | TagNode k src _ ch =>
      k ≠ CloseTag ∧ one_line src ∧ kind_ok k src ∧
      (fix all (l : list node) : Prop :=
         match l with
         | [] => True
         | c :: l' => tree_ok c ∧ all l'
         end) ch
  end.

(** No two text nodes next to each other. *)
Fixpoint no_adjacent_text (l : list node) : Prop :=
  match l with
  | a :: (b :: _) as l' => ¬ (isTextNode a = true ∧ isTextNode b = true) ∧ no_adjacent_text l'
  | _ => True
  end.

(** The delimited node [n] opens at index [i] of the source: its opening
    delimiter is there, and its position is the line and column the scan
    counts for that index. *)
Definition opens_at (src : list ascii) (i : nat) (n : node) : Prop :=
  (∃ c c', src !! i = Some c ∧ src !! (i + 1) = Some c' ∧
           open_delim n = String c (String c' "")) ∧
  node_loc n = Some (1 + count_newlines src i, i - last_newline src i).

(** A list of nodes that is text and comments only, and the text it
    holds. *)
Fixpoint static_nodes (nodes : list node) : bool :=
  match nodes with
  | [] => true
  | TextNode _ :: rest => static_nodes rest
  | TagNode CommentTag _ _ _ :: rest => static_nodes rest
  | _ :: _ => false
  end.

Fixpoint text_of (nodes : list node) : string :=
  match nodes with
  | [] => ""
  | TextNode src :: rest => src +:+ text_of rest
  | _ :: rest => text_of rest
  end.

Definition pending_ok (st : lex_state) : Prop :=
  match lx_node st with
  | Some (TextNode s) => s ≠ ""
  | _ => True
  end.

Definition adj_inv (st : lex_state) : Prop :=
  no_adjacent_text (lx_tokens st) ∧
  ∀ t, last (lx_tokens st) = Some t → isTextNode t = true →
       ∃ nd, lx_node st = Some nd ∧ isDelimitedNode nd = true.

Definition pos_inv (src : list ascii) (st : lex_state) : Prop :=
  Forall (λ t, isDelimitedNode t = true → ∃ i, opens_at src i t) (lx_tokens st) ∧
  ∀ nd, lx_node st = Some nd → isDelimitedNode nd = true → ∃ i, opens_at src i nd.

Definition for_tag_TypeError : pyexn :=
  TypeError "__init__() takes exactly 2 arguments (1 given)".

(** [m2] does what [m1] does wherever [m1] ends. *)
Definition extends {V A : Type} (m1 m2 : M V A) : Prop :=
  ∀ st r st', m1 st = (r, st') → r ≠ Diverge → m2 st = (r, st').

(** A comment tag, as a token or as a node of the tree. *)
Definition isCommentTag (n : node) : bool :=
  match n with TagNode CommentTag _ _ _ => true | _ => false end.

(** [in_tree n trees]: the node [n] is one of [trees] or is under one of
    them, at any depth. *)
Inductive in_tree : node → list node → Prop :=
  | in_tree_here n trees : n ∈ trees → in_tree n trees
  | in_tree_under n k src loc ch trees :
      TagNode k src loc ch ∈ trees → in_tree n ch → in_tree n trees.

(** [execute] called on each source in turn, in one process. *)
Definition run_all {V} (ev : Evaluator V) (fuel : nat) (srcs : list string)
    (p : process V) : process V :=
  foldl (λ p src, snd (execute ev fuel src p)) p srcs.

(** No run of the sources, one after the other from [p], leaves the name
    [k] bound otherwise than it found it. *)
Fixpoint keeps_all {V} (ev : Evaluator V) (fuel : nat) (k : string)
    (srcs : list string) (p : process V) : Prop :=
  match srcs with
  | [] => True
  | src :: rest =>
      default_env (snd (execute ev fuel src p)) !! k = default_env p !! k ∧
      keeps_all ev fuel k rest (snd (execute ev fuel src p))
  end.

(** One round of the loop of a while tag that is followed by another
    test of the condition: the condition is true, the children run to
    their end, and (in a loop that is not slow) the clock read after
    them is not past the limit. The result is the output so far and the
    state at the next test; [None] when the loop ends in this round. *)
Definition while_round {V} (ev : Evaluator V) (body : M V string) (expr : string)
    (slow : bool) (loop_start_time : Z) (a : string * state V)
    : option (string * state V) :=
  match raw_eval ev expr a.2 with
  | (Ok v, st1) =>
      match lift_env (py_truth ev v) st1 with
      | (Ok true, st2) =>
          match body st2 with
          | (Ok out, st3) =>
              if slow then Some (a.1 +:+ out, st3)
              else if (2000 <? time_time ev (ticks st3) - loop_start_time)%Z then None
              else Some (a.1 +:+ out, State (env st3) (S (ticks st3)) (stdout st3))
          | _ => None
          end
      | _ => None
      end
  | _ => None
  end.

(** [m] such rounds, one after the other. *)
Fixpoint while_rounds {V} (ev : Evaluator V) (body : M V string) (expr : string)
    (slow : bool) (loop_start_time : Z) (m : nat) (a : string * state V)
    : option (string * state V) :=
  match m with
  | 0 => Some a
  | S m' =>
      match while_round ev body expr slow loop_start_time a with
      | Some b => while_rounds ev body expr slow loop_start_time m' b
      | None => None
      end
  end.

(** The evaluator of the examples with a clock that goes on by [step]
    milliseconds at each reading. *)
Definition Toy_clock (step : Z) : Evaluator Toy.obj :=
  {| py_exec := Toy.exec; py_eval := Toy.eval; py_str := Toy.str;
     py_truth := Toy.truth; py_next := Toy.next; py_take := Toy.take_items;
     time_time := λ k, (step * Z.of_nat k)%Z |}.

(* ===================================================================== *)
(** ** Running the model on small templates *)
(* ===================================================================== *)

(** The full stop after the closing delimiter is the one character left
    when the loop ends at [len(src) - 1]: it is in no token. *)
Example lex_hello :
  lex "Hello {{ name }}." = Ok [TextNode "Hello "; CodeNode " name " (1, 6)].
Proof. vm_compute. reflexivity. Qed.

Example lex_for :
  lex "{% for i, j in pairs %}{{ i }}{% %}  " =
  Ok [TagNode (ForTag ["i"; "j"] "((i, j) for i, j in pairs)") "for i, j in pairs" (1, 0) [];
      CodeNode " i " (1, 23);
      TagNode CloseTag " " (1, 30) [];
      TextNode "  "].
Proof. vm_compute. reflexivity. Qed.

Example lex_while :
  lex "{% while dofirst x < 3 slow %}a{%%}b " =
  Ok [TagNode (WhileTag "x < 3" true true) "while dofirst x < 3 slow" (1, 0) [];
      TextNode "a"; TagNode CloseTag "" (1, 31) []; TextNode "b "].
Proof. vm_compute. reflexivity. Qed.

Example parse_nested :
  parse "{% while a %}x{% comment %}{{ y }}{% %}z{% %}  " =
  Ok (Root [TagNode (WhileTag "a" false false) "while a" (1, 0)
              [TextNode "x";
               TagNode CommentTag "comment" (1, 14) [CodeNode " y " (1, 27)];
               TextNode "z"];
            TextNode "  "]).
Proof. vm_compute. reflexivity. Qed.

Example execute_hello :
  let p := Process (<["name" := VStr "World"]> ∅) 0 [] in
  let '(r, p') := execute Toy.evaluator 5 "Hello {{ name }}, " p in
  r = Ok tt ∧ proc_stdout p' = ["Hello World, "].
Proof. vm_compute. split; reflexivity. Qed.

Example description_unbound :
  error_str (UnboundCloseTag (TagNode CloseTag " " (3, 12) [])) =
  "Syntax Error: Unbound closing tag '{% %}' at line 3, column 12.".
Proof. vm_compute. reflexivity. Qed.

Example lex_escapes : lex "\{\{ raw \}\}" = Ok [TextNode "{{ raw }}"].
Proof. vm_compute. reflexivity. Qed.

Example execute_while_false :
  let p := Process (<["x" := VObj (Toy.Int 0)]> ∅) 0 [] in
  let '(r, p') := execute Toy.evaluator 5 "{% while x %}X{% %}" p in
  r = Ok tt ∧ proc_stdout p' = [""].
Proof. vm_compute. split; reflexivity. Qed.

Example execute_while_dofirst :
  let p := Process (<["x" := VObj (Toy.Int 0)]> ∅) 0 [] in
  let '(r, p') := execute Toy.evaluator 5 "{% while dofirst x %}X{% %}" p in
  r = Ok tt ∧ proc_stdout p' = ["X"].
Proof. vm_compute. split; reflexivity. Qed.

Example execute_for_restores :
  let p := Process (<["a" := VStr "old"]> ∅) 0 [] in
  let '(r, p') := execute Toy.evaluator 5
                    "{% for a, b in [(1, 2), (3, 4)] %}{{ a }}{% %}" p in
  r = Ok tt ∧ proc_stdout p' = ["13"] ∧
  default_env p' !! "a" = Some (VStr "old") ∧ default_env p' !! "b" = None.
Proof. vm_compute. repeat split; reflexivity. Qed.

Example execute_for :
  let '(r, p') := execute Toy.evaluator 5
                    "{% for a, b in [(1, 2), (3, 4)] %}{{ a }}-{{ b }};{% %}" Toy.fresh in
  r = Ok tt ∧ proc_stdout p' = ["1-2;3-4;"] ∧ default_env p' !! "a" = None.
Proof. vm_compute. repeat split; reflexivity. Qed.

(* ===================================================================== *)
(** ** Facts about the lexer *)
(* ===================================================================== *)

Ltac eqb_cases :=
  repeat match goal with
    | H : context [String.eqb ?a ?b] |- _ =>
        let E := fresh "E" in
        destruct (String.eqb a b) eqn:E;
        [apply String.eqb_eq in E | apply String.eqb_neq in E]
    | |- context [String.eqb ?a ?b] =>
        let E := fresh "E" in
        destruct (String.eqb a b) eqn:E;
        [apply String.eqb_eq in E | apply String.eqb_neq in E]
    end.

Lemma open_delims_second c c' mk :
  open_delims (String c (String c' "")) = Some mk → c' = lbrace ∨ c' = percent.
Proof.
  unfold open_delims. intros H. eqb_cases; try discriminate.
  - left. now inversion E.
  - right. now inversion E0.
Qed.

Lemma is_escape_second c c' :
  is_escape (String c (String c' "")) = true →
  c = backslash ∧ (c' = lbrace ∨ c' = rbrace).
Proof.
  unfold is_escape. intros H. apply orb_true_iff in H as [H|H];
    apply String.eqb_eq in H; inversion H; auto.
Qed.

Lemma close_delim_second nd c c' :
  isDelimitedNode nd && String.eqb (String c (String c' "")) (close_delim nd) = true →
  c' = rbrace.
Proof.
  intros H. apply andb_true_iff in H as [Hd H]. apply String.eqb_eq in H.
  destruct nd; simpl in *; try discriminate; now inversion H.
Qed.

(** A round moves on by one character, or by two; when by two, the
    second one is a brace or a percent sign, or the source ends there. *)
Lemma lex_in_node_advance len tokens nd c c' i line line_i st' :
  lex_in_node len tokens nd c c' i line line_i = Next st' →
  (lx_i st' = i + 1 ∧ i < len - 2) ∨
  (lx_i st' = i + 2 ∧
   (c' = lbrace ∨ c' = percent ∨ c' = rbrace ∨ len - 2 ≤ i)).
Proof.
  unfold lex_in_node. intros H.
  destruct (if isTextNode nd then open_delims _ else None) as [mk|] eqn:Ho.
  { inversion H; subst; simpl. right. split; [done|].
    destruct (isTextNode nd); [|discriminate].
    apply open_delims_second in Ho. tauto. }
  destruct (isDelimitedNode nd && _) eqn:Hc.
  { apply close_delim_second in Hc.
    destruct (close_node nd); inversion H; subst; simpl; right; tauto. }
  destruct (is_escape _) eqn:He.
  { apply is_escape_second in He as [_ He].
    inversion H; subst; simpl; right; tauto. }
  destruct (i <? len - 2) eqn:Hlt.
  - apply Nat.ltb_lt in Hlt. inversion H; subst; simpl. left. done.
  - apply Nat.ltb_ge in Hlt. inversion H; subst; simpl. right. tauto.
Qed.

Lemma lex_step_advance src st st' :
  lex_step src st = Next st' →
  ∃ c c', src !! lx_i st = Some c ∧ src !! (lx_i st + 1) = Some c' ∧
    ((lx_i st' = lx_i st + 1 ∧ lx_i st < length src - 2) ∨
     (lx_i st' = lx_i st + 2 ∧
      (c' = lbrace ∨ c' = percent ∨ c' = rbrace ∨ length src - 2 ≤ lx_i st))).
Proof.
  unfold lex_step. intros H.
  destruct (src !! lx_i st) as [c|] eqn:Hc; [|discriminate].
  destruct (src !! (lx_i st + 1)) as [c'|] eqn:Hc'; [|discriminate].
  exists c, c'. split; [done|]. split; [done|].
  destruct (lx_node st) as [nd|].
  - by eapply lex_in_node_advance.
  - destruct (open_delims _) as [mk|] eqn:Ho.
    + inversion H; subst; simpl. right. split; [done|].
      apply open_delims_second in Ho. tauto.
    + by eapply lex_in_node_advance.
Qed.

(** The loop ends: it never needs more rounds than there are characters. *)
Lemma lex_loop_total src fuel st :
  length src - lx_i st ≤ fuel → lex_loop fuel src st ≠ Diverge.
Proof.
  revert st. induction fuel as [|fuel IH]; intros st Hf; simpl.
  - destruct (lx_i st <? length src - 1) eqn:Hlt; [|done].
    apply Nat.ltb_lt in Hlt. lia.
  - destruct (lx_i st <? length src - 1) eqn:Hlt; [|done].
    destruct (lex_step src st) as [st'|e] eqn:Hs; [|done].
    apply IH. apply lex_step_advance in Hs as (c & c' & _ & _ & Hadv). lia.
Qed.

Lemma chars_length s : length (Py.chars s) = String.length s.
Proof. unfold Py.chars. induction s; simpl; auto. Qed.

(** [lex] always gives tokens or raises. *)
Lemma lex_total src : lex src ≠ Diverge.
Proof.
  unfold lex.
  pose proof (lex_loop_total (Py.chars src) (String.length src) lex_init) as H.
  destruct (lex_loop _ _ _) as [st|e|] eqn:Hl; simpl.
  - unfold lex_finish. destruct (lx_node st) as [nd|]; [|done].
    destruct (isTextNode nd); done.
  - done.
  - exfalso. apply H; [|done]. rewrite chars_length. simpl. lia.
Qed.




(** *** Strings *)

Lemma chars_of_chars l : Py.chars (Py.of_chars l) = l.
Proof. apply list_ascii_of_string_of_list_ascii. Qed.

Lemma lstrip_chars_idemp l : Py.lstrip_chars (Py.lstrip_chars l) = Py.lstrip_chars l.
Proof.
  induction l as [|c l IH]; [done|]. simpl.
  destruct (Py.isspace c) eqn:E; [done|]. simpl. by rewrite E.
Qed.

Lemma lstrip_chars_suffix l : ∃ ws, l = ws ++ Py.lstrip_chars l.
Proof.
  induction l as [|c l [ws IH]]; [by exists []|]. simpl.
  destruct (Py.isspace c).
  - exists (c :: ws). simpl. by rewrite <- IH.
  - by exists [].
Qed.

Lemma lstrip_chars_head l c t :
  Py.lstrip_chars l = c :: t → Py.isspace c = false.
Proof.
  induction l as [|c0 l IH]; [done|]. simpl.
  destruct (Py.isspace c0) eqn:E; [done|]. intros H; inversion H; subst. done.
Qed.

(** Stripping twice is stripping once. *)
Lemma strip_chars_idemp l : Py.strip_chars (Py.strip_chars l) = Py.strip_chars l.
Proof.
  unfold Py.strip_chars.
  set (m := Py.lstrip_chars l). set (r := Py.lstrip_chars (rev m)).
  assert (Py.lstrip_chars (rev r) = rev r) as ->.
  { destruct (lstrip_chars_suffix (rev m)) as [ws Hws]. fold r in Hws.
    apply (f_equal (@rev ascii)) in Hws. rewrite rev_involutive, rev_app_distr in Hws.
    destruct (rev r) as [|c t] eqn:Er; [done|].
    simpl in Hws. apply lstrip_chars_head in Hws. simpl. by rewrite Hws. }
  rewrite rev_involutive. unfold r. by rewrite lstrip_chars_idemp.
Qed.

Lemma strip_idemp s : Py.strip (Py.strip s) = Py.strip s.
Proof. unfold Py.strip. by rewrite chars_of_chars, strip_chars_idemp. Qed.

(** *** The assertions of the tag constructors hold *)

Lemma sorted_insert_nonempty x l : Py.sorted_insert x l ≠ [].
Proof. destruct l as [|y l]; simpl; [done|]. by destruct (String.compare x y). Qed.

Lemma sorted_set_nonempty l : l ≠ [] → Py.sorted_set l ≠ [].
Proof. destruct l; [done|]. intros _. simpl. apply sorted_insert_nonempty. Qed.

(** More fuel than tokens does not change what the target loop finds. *)
Lemma find_targets_loop_fuel f1 :
  ∀ f2 tokens targets,
    length tokens ≤ f1 → length tokens ≤ f2 →
    ForTagM.find_targets_loop f1 tokens targets =
    ForTagM.find_targets_loop f2 tokens targets.
Proof.
  induction f1 as [|f1 IH]; intros f2 tokens targets H1 H2.
  - destruct tokens; [|simpl in H1; lia]. by destruct f2.
  - destruct f2 as [|f2].
    + destruct tokens; [done|simpl in H2; lia].
    + destruct tokens as [|t ts]; [done|]. simpl.
      destruct (if String.eqb t "for" then _ else _) as [for_index|]; [|done].
      destruct (if String.eqb t "in" then _ else _) as [in_index|]; [|done].
      simpl in H1, H2. apply IH; rewrite length_drop; simpl; lia.
Qed.

(** The constructor of a comment tag, on a body its predicate accepts. *)
Lemma CommentTag_init_ok k src loc ch :
  CommentTagM.identify src = true →
  CommentTagM.init (TagNode k src loc ch) = Ok (TagNode CommentTag (Py.strip src) loc []).
Proof.
  intros H. unfold CommentTagM.init, CommentTagM.identify in *.
  rewrite strip_idemp, H. done.
Qed.

(** No constructor fails its own [assert]. *)
Lemma construct_asserts t k src loc ch :
  identify t src = true → construct t (TagNode k src loc ch) ≠ Raise AssertionError.
Proof.
  destruct t; unfold identify, construct; intros H.
  - unfold ForTagM.init, ForTagM.identify in *. rewrite strip_idemp, H. simpl.
    unfold ForTagM._find_targets.
    destruct (ForTagM.find_targets_loop _ _ _); simpl; done.
  - done.
  - unfold WhileTagM.init, WhileTagM.identify in *. rewrite strip_idemp, H. simpl.
    repeat match goal with |- context [if ?b then _ else _] => destruct b end; done.
  - rewrite CommentTag_init_ok; done.
Qed.

(** *** Plain text *)

Lemma of_chars_app l1 l2 :
  Py.of_chars (l1 ++ l2) = Py.of_chars l1 +:+ Py.of_chars l2.
Proof. unfold Py.of_chars. induction l1 as [|c l1 IH]; [done|]. cbn. by rewrite IH. Qed.

Lemma of_chars_chars s : Py.of_chars (Py.chars s) = s.
Proof. apply string_of_list_ascii_of_string. Qed.

(** A round on a text node, at a pair of characters that is neither an
    opening delimiter nor an escape. *)
Lemma lex_step_plain src st c c' :
  src !! lx_i st = Some c → src !! (lx_i st + 1) = Some c' →
  open_delims (String c (String c' "")) = None →
  is_escape (String c (String c' "")) = false →
  isTextNode (current_node st) = true →
  ∃ line line_i,
    lex_step src st =
      Next (if lx_i st <? length src - 2
            then LexState (lx_tokens st) (Some (append_src (current_node st) (String c "")))
                          (lx_i st + 1) line line_i
            else LexState (lx_tokens st)
                          (Some (append_src (current_node st) (String c (String c' ""))))
                          (lx_i st + 2) line line_i).
Proof.
  intros Hc Hc' Ho He Ht. unfold lex_step. rewrite Hc, Hc'.
  unfold current_node in *.
  destruct (lx_node st) as [nd|].
  - destruct nd as [s| |]; try discriminate.
    unfold lex_in_node. simpl isTextNode. cbv iota. rewrite Ho. simpl andb. cbv iota.
    rewrite He. destruct (lx_i st <? length src - 2); eauto.
  - rewrite Ho. unfold lex_in_node. simpl isTextNode. cbv iota. rewrite Ho.
    simpl andb. cbv iota. rewrite He.
    destruct (lx_i st <? length src - 2); eauto.
Qed.

(** On plain text of two characters or more, the loop ends with no token
    made and the whole source in the pending text node. *)
Lemma lex_loop_plain src :
  plain_text src →
  ∀ fuel st,
    lx_tokens st = [] →
    current_node st = TextNode (Py.of_chars (take (lx_i st) (Py.chars src))) →
    lx_i st + 2 ≤ String.length src →
    String.length src - lx_i st ≤ fuel →
    ∃ st', lex_loop fuel (Py.chars src) st = Ok st' ∧
           lx_tokens st' = [] ∧ lx_node st' = Some (TextNode src).
Proof.
  intros Hplain. induction fuel as [|fuel IH]; intros st Htok Hnode Hi Hf; [lia|].
  simpl. rewrite chars_length.
  destruct (lx_i st <? String.length src - 1) eqn:Hlt;
    [|apply Nat.ltb_ge in Hlt; lia].
  destruct (lookup_lt_is_Some_2 (Py.chars src) (lx_i st)) as [c Hc];
    [rewrite chars_length; lia|].
  destruct (lookup_lt_is_Some_2 (Py.chars src) (lx_i st + 1)) as [c' Hc'];
    [rewrite chars_length; lia|].
  destruct (Hplain _ _ _ Hc Hc') as [Ho He].
  destruct (lex_step_plain _ st c c' Hc Hc' Ho He) as (line & line_i & ->);
    [by rewrite Hnode|].
  rewrite chars_length, Hnode. simpl append_src.
  destruct (lx_i st <? String.length src - 2) eqn:Hlt2.
  - apply Nat.ltb_lt in Hlt2. apply IH; simpl; try lia; try done.
    rewrite Nat.add_1_r, (take_S_r _ _ _ Hc), of_chars_app. done.
  - apply Nat.ltb_ge in Hlt2.
    assert (lx_i st + 2 = String.length src) as Hend by lia.
    exists (LexState (lx_tokens st)
              (Some (TextNode (Py.of_chars (take (lx_i st) (Py.chars src)) +:+
                               String c (String c' ""))))
              (lx_i st + 2) line line_i).
    split; [|split; [done|]].
    + destruct fuel; simpl; rewrite chars_length;
        (destruct (lx_i st + 2 <? String.length src - 1) eqn:E;
         [apply Nat.ltb_lt in E; lia|done]).
    + simpl. do 2 f_equal.
      pose proof (take_ge (Py.chars src) (S (S (lx_i st)))) as Hfull.
      rewrite chars_length in Hfull. specialize (Hfull ltac:(lia)).
      rewrite Nat.add_1_r in Hc'.
      rewrite (take_S_r _ _ _ Hc'), (take_S_r _ _ _ Hc), <- app_assoc in Hfull.
      transitivity (Py.of_chars (Py.chars src)); [|apply of_chars_chars].
      rewrite <- Hfull at 2. rewrite of_chars_app. done.
Qed.

(** Identity on plain text, for every length but one: the tree is the
    source as one text node (no node for the empty source), and running
    it gives the source back, with any evaluator and the state
    untouched. *)
Lemma plain_text_identity src :
  plain_text src → String.length src ≠ 1 →
  ∃ tree,
    parse src = Ok tree ∧
    ∀ V (ev : Evaluator V) fuel st,
      exec_tree ev (S fuel) (root_children tree) st = (Ok src, st).
Proof.
  intros Hplain Hlen.
  destruct src as [|c [|c' src']]; [| done |].
  - exists (Root []). split; reflexivity.
  - set (src := String c (String c' src')) in *.
    destruct (lex_loop_plain src Hplain (String.length src) lex_init)
      as (st' & Hloop & Htok & Hnode); try done;
      try (subst src; simpl; lia).
    exists (Root [TextNode src]). split; [|reflexivity].
    unfold parse, lex. rewrite Hloop. simpl obind.
    unfold lex_finish. rewrite Hnode, Htok. reflexivity.
Qed.

(** *** Positions *)

Lemma lex_in_node_lines len tokens nd c c' i line line_i st' :
  lex_in_node len tokens nd c c' i line line_i = Next st' →
  lx_line st' = line ∧ lx_line_i st' = line_i.
Proof.
  unfold lex_in_node.
  repeat match goal with
    | |- context [match ?x with _ => _ end] => destruct x
    end; intros H; inversion H; done.
Qed.

Lemma lex_step_lines src st st' c :
  src !! lx_i st = Some c →
  lex_step src st = Next st' →
  lx_line st' = (if Ascii.eqb c newline then lx_line st + 1 else lx_line st) ∧
  lx_line_i st' = (if Ascii.eqb c newline then lx_i st else lx_line_i st).
Proof.
  intros Hc. unfold lex_step. rewrite Hc.
  destruct (src !! (lx_i st + 1)) as [c'|]; [|discriminate].
  destruct (lx_node st) as [nd|].
  - apply lex_in_node_lines.
  - destruct (open_delims _) as [mk|].
    + intros H; inversion H; done.
    + apply lex_in_node_lines.
Qed.

Lemma lex_round_line_inv src st st' :
  lex_line_inv src st → lex_round src st st' → lex_line_inv src st'.
Proof.
  intros Hinv [Hlt Hstep]. apply Nat.ltb_lt in Hlt.
  destruct Hinv as [?|[Hline Hli]]; [lia|].
  destruct (lex_step_advance _ _ _ Hstep) as (c & c' & Hc & Hc' & Hadv).
  destruct (lex_step_lines _ _ _ _ Hc Hstep) as [Hl' Hli'].
  assert (lx_line st' = 1 + count_newlines src (S (lx_i st)) ∧
          lx_line_i st' = last_newline src (S (lx_i st))) as [Hl1 Hli1].
  { simpl. rewrite Hc, Hl', Hli'. destruct (Ascii.eqb c newline); lia. }
  destruct Hadv as [[Hi _]|[Hi Hsec]].
  - right. rewrite Hi, Nat.add_1_r. done.
  - destruct Hsec as [Hsec|[Hsec|[Hsec|Hend]]];
      [right|right|right|left; lia];
      replace (lx_i st') with (S (S (lx_i st))) by lia;
      rewrite Nat.add_1_r in Hc'; simpl; rewrite Hc'; subst c'; simpl;
      simpl in Hl1, Hli1; done.
Qed.

Lemma lex_reach_line_inv src st : lex_reach src st → lex_line_inv src st.
Proof.
  unfold lex_reach. revert st.
  apply (rtc_ind_r (R := lex_round src) (lex_line_inv src)).
  - right. done.
  - intros st1 st2 _ Hround IH. by eapply lex_round_line_inv.
Qed.

(** The position given to a delimited node: the line is one more than
    the number of newlines before its opening delimiter, the column is
    the distance from the last newline before it, or from the start of
    the source when there is none. *)
Lemma lex_open_position src st c c' mk :
  lex_reach src st →
  (lx_i st <? length src - 1) = true →
  src !! lx_i st = Some c → src !! (lx_i st + 1) = Some c' →
  open_delims (String c (String c' "")) = Some mk →
  isTextNode (current_node st) = true →
  ∃ st',
    lex_step src st = Next st' ∧
    lx_node st' = Some (mk (1 + count_newlines src (lx_i st),
                            lx_i st - last_newline src (lx_i st))).
Proof.
  intros Hreach Hlt Hc Hc' Ho Ht. apply Nat.ltb_lt in Hlt.
  destruct (lex_reach_line_inv _ _ Hreach) as [?|[Hline Hli]]; [lia|].
  assert (Ascii.eqb c newline = false) as Hnl.
  { unfold open_delims in Ho. eqb_cases; inversion Ho; subst;
      match goal with H : String _ _ = _ |- _ => inversion H end; done. }
  unfold lex_step. rewrite Hc, Hc', Hnl, Hline, Hli. unfold current_node in Ht.
  destruct (lx_node st) as [nd|].
  - unfold lex_in_node. rewrite Ht, Ho. eauto.
  - rewrite Ho. eauto.
Qed.

(** A delimiter that opens a line other than the first is given
    column 1. *)
Lemma last_newline_after src i :
  src !! i = Some newline → last_newline src (S i) = i.
Proof. intros H. simpl. rewrite H. done. Qed.

(** *** Tokens come out of the lexer without children *)

Lemma append_src_childless nd s : childless nd → childless (append_src nd s).
Proof. destruct nd; done. Qed.

Lemma open_delims_childless c2 mk loc : open_delims c2 = Some mk → childless (mk loc).
Proof. unfold open_delims. intros H. eqb_cases; inversion H; done. Qed.

Lemma construct_childless t nd nd' : construct t nd = Ok nd' → childless nd'.
Proof.
  destruct t, nd as [| |k s l ch]; simpl; try discriminate.
  - destruct (negb _); [discriminate|].
    destruct (ForTagM._find_targets _); simpl; intros H; inversion H; done.
  - intros H; inversion H; done.
  - destruct (negb _); [discriminate|].
    repeat match goal with |- context [if ?b then _ else _] => destruct b end;
      intros H; inversion H; done.
  - destruct (negb _); [discriminate|]. intros H; inversion H; done.
Qed.

Lemma close_node_childless nd nd' :
  childless nd → close_node nd = Ok nd' → childless nd'.
Proof.
  intros Hnd. destruct nd as [| |k s l ch]; unfold close_node;
    try (intros H; inversion H; done).
  destruct (Py.contains _ _); [discriminate|].
  destruct (first_true _ _) as [t|]; [|discriminate].
  apply construct_childless.
Qed.

Lemma Forall_snoc {A} (P : A → Prop) l x : Forall P l → P x → Forall P (l ++ [x]).
Proof. intros Hl Hx. apply Forall_app. split; [done|]. by constructor. Qed.

Lemma lex_in_node_inv len tokens nd c c' i line line_i st' :
  Forall childless tokens → childless nd →
  lex_in_node len tokens nd c c' i line line_i = Next st' → lex_inv st'.
Proof.
  intros Htok Hnd. unfold lex_in_node.
  destruct (if isTextNode nd then open_delims _ else None) as [mk|] eqn:Ho.
  { intros H; inversion H; subst. split; simpl.
    - by apply Forall_snoc.
    - destruct (isTextNode nd); [|discriminate]. by eapply open_delims_childless. }
  destruct (isDelimitedNode nd && _).
  { destruct (close_node nd) as [nd'| |] eqn:Hc; intros H; inversion H; subst.
    split; simpl; [|done]. apply Forall_snoc; [done|]. by eapply close_node_childless. }
  repeat match goal with |- context [if ?b then _ else _] => destruct b end;
    intros H; inversion H; subst; (split; simpl; [done|by apply append_src_childless]).
Qed.

Lemma lex_step_inv src st st' : lex_inv st → lex_step src st = Next st' → lex_inv st'.
Proof.
  intros [Htok Hnd]. unfold lex_step.
  destruct (src !! lx_i st) as [c|]; [|discriminate].
  destruct (src !! (lx_i st + 1)) as [c'|]; [|discriminate].
  destruct (lx_node st) as [nd|].
  - by apply lex_in_node_inv.
  - destruct (open_delims _) as [mk|] eqn:Ho.
    + intros H; inversion H; subst. split; simpl; [done|].
      by eapply open_delims_childless.
    + by apply lex_in_node_inv.
Qed.

Lemma lex_loop_inv src fuel :
  ∀ st st', lex_inv st → lex_loop fuel src st = Ok st' → lex_inv st'.
Proof.
  induction fuel as [|fuel IH]; intros st st' Hinv; simpl;
    destruct (lx_i st <? length src - 1); try discriminate;
    try (intros H; inversion H; subst; done).
  destruct (lex_step src st) as [st1|e] eqn:Hs; [|discriminate].
  apply IH. by eapply lex_step_inv.
Qed.

Lemma lex_childless src tokens : lex src = Ok tokens → Forall childless tokens.
Proof.
  unfold lex. destruct (lex_loop _ _ _) as [st| |] eqn:Hl; simpl; try discriminate.
  apply lex_loop_inv in Hl as [Htok Hnd]; [|split; simpl; done].
  unfold lex_finish. destruct (lx_node st) as [nd|].
  - destruct (isTextNode nd); intros H; inversion H; subst. by apply Forall_snoc.
  - intros H; inversion H; subst. done.
Qed.

(* ===================================================================== *)
(** ** Facts about the tree builder *)
(* ===================================================================== *)

Lemma isCloseTag_isTagNode n : isCloseTag n = true → isTagNode n = true.
Proof. destruct n as [| |[] ? ? ?]; simpl; done. Qed.

Lemma isOpenTag_spec n :
  isOpenTag n = true ↔ isTagNode n = true ∧ isCloseTag n = false.
Proof.
  unfold isOpenTag. rewrite andb_true_iff, negb_true_iff. done.
Qed.

(** The builder never hands back more tokens than it was given. *)
Lemma build_tree_rest fuel :
  ∀ parent acc toks kids rest,
    build_tree fuel parent acc toks = Ok (kids, rest) →
    length rest ≤ length toks.
Proof.
  induction fuel as [|fuel IH]; intros parent acc toks kids rest H; simpl in H.
  { discriminate. }
  destruct toks as [|tok toks'].
  { destruct parent; inversion H; subst; simpl; lia. }
  destruct (isCloseTag tok).
  { destruct parent; inversion H; subst; simpl; lia. }
  destruct (isTagNode tok).
  - destruct (build_tree fuel (PTag tok) _ toks') as [[k r]| |] eqn:Hin;
      simpl in H; try discriminate.
    apply IH in Hin. apply IH in H. simpl. lia.
  - apply IH in H. simpl. lia.
Qed.

(** Fuel beyond the number of tokens changes nothing. *)
Lemma build_tree_fuel f :
  ∀ f' parent acc toks,
    length toks < f → length toks < f' →
    build_tree f parent acc toks = build_tree f' parent acc toks.
Proof.
  induction f as [|f IH]; intros f' parent acc toks Hf Hf'; [lia|].
  destruct f' as [|f']; [lia|]. simpl.
  destruct toks as [|tok toks']; [done|]. simpl in Hf, Hf'.
  destruct (isCloseTag tok); [done|].
  destruct (isTagNode tok).
  - rewrite (IH f' (PTag tok) (node_children tok) toks') by lia.
    destruct (build_tree f' (PTag tok) _ toks') as [[k r]| |] eqn:Hin; simpl; try done.
    apply build_tree_rest in Hin. apply IH; lia.
  - apply IH; lia.
Qed.

Lemma build_tree_total f :
  ∀ parent acc toks, length toks < f → build_tree f parent acc toks ≠ Diverge.
Proof.
  induction f as [|f IH]; intros parent acc toks Hf; [lia|]. simpl.
  destruct toks as [|tok toks']; [by destruct parent|]. simpl in Hf.
  destruct (isCloseTag tok); [by destruct parent|].
  destruct (isTagNode tok).
  - destruct (build_tree f (PTag tok) _ toks') as [[k r]| |] eqn:Hin; simpl; try done.
    + apply build_tree_rest in Hin. apply IH. lia.
    + exfalso. revert Hin. apply IH. lia.
  - apply IH. lia.
Qed.

Lemma build_tree_cons f parent acc tok rest :
  build_tree (S f) parent acc (tok :: rest) =
  if isCloseTag tok then
    match parent with
    | PTag _ => Ok (acc, rest)
    | PRoot => Raise (SyntaxError (UnboundCloseTag tok))
    end
  else if isTagNode tok then
    obind (build_tree f (PTag tok) (node_children tok) rest)
      (λ '(kids, rest'),
         build_tree f parent (acc ++ [with_children tok kids]) rest')
  else build_tree f parent (acc ++ [tok]) rest.
Proof. reflexivity. Qed.

(** A balanced stretch of tokens is built into its trees, whatever
    surrounds it. *)
Lemma build_balanced toks trees :
  Balanced toks trees →
  ∀ f parent acc rest,
    length (toks ++ rest) < f →
    build_tree f parent acc (toks ++ rest) = build_tree f parent (acc ++ trees) rest.
Proof.
  induction 1 as [|tok toks trees Hleaf _ IH
                  |tok inner kids c rest0 trees Hopen Hclose _ IHin _ IHrest];
    intros f parent acc rest Hf.
  - by rewrite app_nil_r.
  - destruct f as [|f]; [lia|]. simpl in Hf.
    assert (isCloseTag tok = false) as Hnc.
    { destruct (isCloseTag tok) eqn:E; [|done].
      apply isCloseTag_isTagNode in E. congruence. }
    rewrite <- app_comm_cons, build_tree_cons, Hnc, Hleaf.
    rewrite IH by lia. rewrite <- app_assoc. cbn [app].
    apply build_tree_fuel; rewrite ?length_app in *; lia.
  - destruct f as [|f]; [lia|].
    apply isOpenTag_spec in Hopen as [Htag Hnc].
    simpl in Hf. rewrite ?length_app in Hf. simpl in Hf. rewrite ?length_app in Hf.
    rewrite <- app_comm_cons, build_tree_cons, Hnc, Htag.
    rewrite <- app_assoc, <- app_comm_cons.
    rewrite IHin by (rewrite ?length_app; simpl; rewrite ?length_app; lia).
    destruct f as [|f]; [lia|].
    rewrite build_tree_cons, Hclose. cbn [obind].
    rewrite IHrest by (rewrite ?length_app; lia).
    rewrite <- app_assoc. cbn [app].
    apply build_tree_fuel; lia.
Qed.

(** Whatever the builder returns is the nesting of a balanced stretch:
    all the tokens under the root, the tokens up to a close marker under
    a tag. *)
Lemma build_tree_sound f :
  ∀ parent acc toks kids rest,
    build_tree f parent acc toks = Ok (kids, rest) →
    ∃ pre trees,
      Balanced pre trees ∧ kids = acc ++ trees ∧
      match parent with
      | PRoot => toks = pre ∧ rest = []
      | PTag _ => ∃ c, isCloseTag c = true ∧ toks = pre ++ c :: rest
      end.
Proof.
  induction f as [|f IH]; intros parent acc toks kids rest H; simpl in H.
  { discriminate. }
  destruct toks as [|tok toks'].
  { destruct parent; inversion H; subst.
    exists [], []. rewrite app_nil_r. repeat split; constructor. }
  destruct (isCloseTag tok) eqn:Hc.
  { destruct parent; inversion H; subst.
    exists [], []. rewrite app_nil_r. repeat split; [constructor|].
    exists tok. done. }
  destruct (isTagNode tok) eqn:Ht.
  - destruct (build_tree f (PTag tok) _ toks') as [[k r]| |] eqn:Hin;
      simpl in H; try discriminate.
    apply IH in Hin as (inner & kids0 & Hbin & -> & c & Hcc & ->).
    apply IH in H as (pre & trees & Hb & -> & Hp).
    assert (isOpenTag tok = true) as Hopen by (apply isOpenTag_spec; done).
    destruct parent.
    + destruct Hp as [-> ->].
      exists (tok :: inner ++ c :: pre), (with_children tok (node_children tok ++ kids0) :: trees).
      rewrite <- app_assoc. repeat split. by constructor.
    + destruct Hp as (c' & Hc' & ->).
      exists (tok :: inner ++ c :: pre), (with_children tok (node_children tok ++ kids0) :: trees).
      rewrite <- app_assoc. repeat split; [by constructor|].
      exists c'. split; [done|]. simpl. rewrite <- app_assoc. done.
  - apply IH in H as (pre & trees & Hb & -> & Hp).
    exists (tok :: pre), (tok :: trees). rewrite <- app_assoc.
    split; [by constructor|]. split; [done|].
    destruct parent.
    + destruct Hp as [-> ->]. done.
    + destruct Hp as (c & Hcc & ->). exists c. done.
Qed.

(** The builder succeeds on exactly the balanced token lists, with the
    nesting as its tree. *)
Lemma build_root_balanced toks trees :
  build_root toks = Ok (Root trees) ↔ Balanced toks trees.
Proof.
  unfold build_root. split.
  - intros H.
    destruct (build_tree _ PRoot [] toks) as [[kids rest]| |] eqn:Hb;
      simpl in H; try discriminate.
    inversion H; subst kids.
    apply build_tree_sound in Hb as (pre & trees' & Hbal & -> & -> & _).
    done.
  - intros Hbal.
    pose proof (build_balanced _ _ Hbal (S (length toks)) PRoot [] []) as Hb.
    rewrite app_nil_r in Hb. rewrite Hb by lia. done.
Qed.

(** A close marker after a balanced stretch, under the root. *)
Lemma build_root_unbound pre trees c rest :
  Balanced pre trees → isCloseTag c = true →
  build_root (pre ++ c :: rest) = Raise (SyntaxError (UnboundCloseTag c)).
Proof.
  intros Hbal Hc. unfold build_root.
  rewrite (build_balanced _ _ Hbal) by lia.
  rewrite build_tree_cons, Hc. done.
Qed.

(** An opened tag followed by balanced tokens only, then the end. *)
Lemma build_tree_unclosed tok inner kids :
  isOpenTag tok = true → Balanced inner kids →
  ∀ f parent acc,
    length (tok :: inner) < f →
    build_tree f parent acc (tok :: inner) =
    Raise (SyntaxError (UnclosedTag (with_children tok (node_children tok ++ kids)))).
Proof.
  intros Hopen Hbal f parent acc Hf. simpl in Hf.
  apply isOpenTag_spec in Hopen as [Htag Hnc].
  destruct f as [|f]; [lia|].
  rewrite build_tree_cons, Hnc, Htag.
  pose proof (build_balanced _ _ Hbal f (PTag tok) (node_children tok) []) as Hb.
  rewrite app_nil_r in Hb. rewrite Hb by lia.
  destruct f as [|f]; [lia|]. done.
Qed.

(** Tokens before the failing ones do not change the error, as long as
    they hold no unbound close marker. *)
Lemma build_tree_open_prefix pre :
  OpenPrefix pre →
  ∀ rest e,
    (∀ f parent acc, length rest < f → build_tree f parent acc rest = Raise e) →
    ∀ f parent acc,
      length (pre ++ rest) < f →
      build_tree f parent acc (pre ++ rest) = Raise e.
Proof.
  induction 1 as [|seg trees rest0 Hbal _ IH|tok rest0 Hopen _ IH];
    intros rest e Hrest f parent acc Hf.
  - by apply Hrest.
  - rewrite <- app_assoc in *.
    rewrite (build_balanced _ _ Hbal) by done.
    apply IH; [done|]. rewrite length_app in Hf. lia.
  - apply isOpenTag_spec in Hopen as [Htag Hnc].
    destruct f as [|f]; [simpl in Hf; lia|].
    rewrite <- app_comm_cons, build_tree_cons, Hnc, Htag.
    rewrite (IH rest e Hrest) by (simpl in Hf; lia). done.
Qed.

Lemma build_root_unclosed pre tok inner kids :
  OpenPrefix pre → isOpenTag tok = true → Balanced inner kids →
  build_root (pre ++ tok :: inner) =
  Raise (SyntaxError (UnclosedTag (with_children tok (node_children tok ++ kids)))).
Proof.
  intros Hpre Hopen Hbal. unfold build_root.
  rewrite (build_tree_open_prefix pre Hpre (tok :: inner) _
             (build_tree_unclosed tok inner kids Hopen Hbal)) by lia.
  done.
Qed.

(** The builder raises nothing but its two errors, each about a token of
    the list (or about the parent it was called with). *)
Lemma build_tree_errors f :
  ∀ parent acc toks e,
    build_tree f parent acc toks = Raise e →
    (∃ c, e = SyntaxError (UnboundCloseTag c) ∧ c ∈ toks ∧ isCloseTag c = true) ∨
    (∃ t kids, e = SyntaxError (UnclosedTag (with_children t kids)) ∧
               (parent = PTag t ∨ (t ∈ toks ∧ isOpenTag t = true))).
Proof.
  induction f as [|f IH]; intros parent acc toks e H; simpl in H.
  { discriminate. }
  destruct toks as [|tok toks'].
  { destruct parent as [|nd]; inversion H; subst.
    right. exists nd, acc. split; [done|]. by left. }
  destruct (isCloseTag tok) eqn:Hc.
  { destruct parent; inversion H; subst.
    left. exists tok. split; [done|]. split; [apply elem_of_cons; by left|done]. }
  destruct (isTagNode tok) eqn:Ht.
  - destruct (build_tree f (PTag tok) _ toks') as [[k r]| |] eqn:Hin;
      simpl in H; try discriminate.
    + pose proof (build_tree_sound _ _ _ _ _ _ Hin) as (pre & tr & _ & _ & c & _ & ->).
      apply IH in H as [(c0 & -> & Hel & Hcl)|(t & kids & -> & [->|[Hel Hop]])].
      * left. exists c0. split; [done|]. split; [|done].
        rewrite elem_of_cons, elem_of_app, elem_of_cons. tauto.
      * right. exists t, kids. split; [done|]. by left.
      * right. exists t, kids. split; [done|]. right. split; [|done].
        rewrite elem_of_cons, elem_of_app, elem_of_cons. tauto.
    + inversion H; subst e0.
      apply IH in Hin as [(c0 & -> & Hel & Hcl)|(t & kids & -> & [Hp|[Hel Hop]])].
      * left. exists c0. split; [done|]. split; [|done].
        apply elem_of_cons. by right.
      * inversion Hp; subst t. right. exists tok, kids. split; [done|]. right.
        split; [apply elem_of_cons; by left|]. apply isOpenTag_spec. done.
      * right. exists t, kids. split; [done|]. right. split; [|done].
        apply elem_of_cons. by right.
  - apply IH in H as [(c0 & -> & Hel & Hcl)|(t & kids & -> & [->|[Hel Hop]])].
    + left. exists c0. split; [done|]. split; [|done]. apply elem_of_cons. by right.
    + right. exists t, kids. split; [done|]. by left.
    + right. exists t, kids. split; [done|]. right. split; [|done].
      apply elem_of_cons. by right.
Qed.

Lemma build_root_total toks : build_root toks ≠ Diverge.
Proof.
  unfold build_root.
  pose proof (build_tree_total (S (length toks)) PRoot [] toks) as H.
  destruct (build_tree _ _ _ _) as [[k r]| |]; simpl; try done.
  intros _. apply H; [lia|reflexivity].
Qed.

(** No close marker is kept in the tree, when the tokens bring none in
    their own children. *)
Lemma Balanced_close_free toks trees :
  Balanced toks trees →
  Forall (λ t, forallb close_free (node_children t) = true) toks →
  forallb close_free trees = true.
Proof.
  induction 1 as [|tok toks trees Hleaf _ IH
                  |tok inner kids c rest trees Hopen Hclose _ IHin _ IHrest];
    intros Hall.
  - done.
  - apply Forall_cons in Hall as [_ Hall]. simpl. rewrite IH by done.
    destruct tok; simpl in *; done.
  - apply Forall_cons in Hall as [Htok Hall].
    apply Forall_app in Hall as [Hin Hall].
    apply Forall_cons in Hall as [_ Hrest].
    simpl. rewrite IHrest by done. rewrite andb_true_r.
    apply isOpenTag_spec in Hopen as [Htag Hnc].
    destruct tok as [| |k s l ch]; simpl in *; try discriminate.
    destruct k; try discriminate;
      rewrite forallb_app, Htok, IHin by done; done.
Qed.

Lemma with_children_childless t kids :
  childless t → with_children t (node_children t ++ kids) = with_children t kids.
Proof. unfold childless. intros ->. done. Qed.

Lemma description_with_children t kids :
  description (UnclosedTag (with_children t kids)) = description (UnclosedTag t).
Proof. destruct t; reflexivity. Qed.

(* ===================================================================== *)
(** ** Facts about the engine *)
(* ===================================================================== *)

Section EngineFacts.

Context {V : Type} (ev : Evaluator V).

(** The clean-up loop of the for tag goes through exactly when every
    target is bound; it then unbinds the targets and nothing else. *)
Lemma del_targets_ok (targets : list string) :
  ∀ (st st' : state V) u,
    del_targets targets st = (Ok u, st') →
    (∀ t, t ∈ targets → env st' !! t = None) ∧
    (∀ k, k ∉ targets → env st' !! k = env st !! k) ∧
    ticks st' = ticks st ∧ stdout st' = stdout st.
Proof.
  induction targets as [|t rest IH]; intros st st' u H; simpl in H.
  - inversion H; subst. repeat split; try done. intros t Ht. by apply elem_of_nil in Ht.
  - destruct (env st !! t) as [v|] eqn:Ht; [|discriminate].
    apply IH in H as (Hgone & Hkeep & Ht' & Hs'). simpl in *.
    repeat split; try done.
    + intros t' Hin. apply elem_of_cons in Hin as [->|Hin]; [|by apply Hgone].
      destruct (decide (t ∈ rest)) as [Hr|Hr]; [by apply Hgone|].
      rewrite (Hkeep _ Hr). apply lookup_delete_eq.
    + intros k Hk. rewrite elem_of_cons in Hk.
      rewrite Hkeep by tauto. apply lookup_delete_ne. intros ->. tauto.
Qed.

Lemma del_targets_unbound (targets : list string) :
  ∀ (st : state V) t,
    t ∈ targets → env st !! t = None →
    ∃ t' st', del_targets targets st = (Raise (KeyError t'), st').
Proof.
  induction targets as [|t0 rest IH]; intros st t Hin Hnone.
  - by apply elem_of_nil in Hin.
  - simpl. destruct (env st !! t0) as [v|] eqn:Ht0; [|by eauto].
    apply elem_of_cons in Hin as [->|Hin]; [congruence|].
    apply (IH _ t Hin). simpl.
    destruct (decide (t0 = t)) as [->|Hne];
      [apply lookup_delete_eq | by rewrite lookup_delete_ne].
Qed.

(** The saved bindings are the pre-loop bindings of the targets. *)
Lemma backup_of_lookup (targets : list string) (e : gmap string (value V)) k :
  backup_of targets e !! k = if decide (k ∈ targets) then e !! k else None.
Proof.
  unfold backup_of. destruct (decide (k ∈ targets)) as [Hin|Hout].
  - destruct (e !! k) as [v|] eqn:Hk.
    + by apply map_lookup_filter_Some.
    + apply map_lookup_filter_None. by left.
  - apply map_lookup_filter_None. right. intros x _. done.
Qed.

(** Scoping of the loop targets: when a for tag ends normally, each
    target is bound afterwards to what it was bound to before the tag
    (or unbound if it was not bound), and every other name is as the
    loop left it. *)
Lemma ForTag_run_scoping body loop_fuel targets genexpr (st st' : state V) out :
  ForTag_run ev body loop_fuel targets genexpr st = (Ok out, st') →
  (∀ t, t ∈ targets → env st' !! t = env st !! t) ∧
  ∃ gen st1 st2,
    raw_eval ev genexpr st = (Ok gen, st1) ∧
    for_loop ev loop_fuel body targets gen "" st1 = (Ok out, st2) ∧
    (∀ k, k ∉ targets → env st' !! k = env st2 !! k).
Proof.
  unfold ForTag_run, bind, get_env, modify_env, ret. intros H.
  destruct (raw_eval ev genexpr st) as [[gen| |] st1] eqn:Hgen; try discriminate.
  destruct (for_loop ev loop_fuel body targets gen "" st1) as [[o| |] st2] eqn:Hloop;
    try discriminate.
  destruct (del_targets targets st2) as [[u| |] st3] eqn:Hdel; try discriminate.
  inversion H; subst; clear H. simpl.
  apply del_targets_ok in Hdel as (Hgone & Hkeep & _ & _).
  split.
  - intros t Hin. unfold update. rewrite lookup_union, backup_of_lookup.
    rewrite decide_True by done. rewrite (Hgone _ Hin).
    by destruct (env st !! t).
  - exists gen, st1, st2. repeat split; try done.
    intros k Hk. unfold update. rewrite lookup_union, backup_of_lookup.
    rewrite decide_False by done. rewrite (Hkeep _ Hk).
    by destruct (env st2 !! k).
Qed.

(** When the iterator is exhausted at once and some target is unbound,
    the clean-up raises [KeyError]. *)
Lemma ForTag_run_no_round body n targets genexpr (st : state V) gen e1 e2 t :
  Py.contains newline genexpr = false →
  py_eval ev genexpr (env st) = (Ok gen, e1) →
  py_next ev gen e1 = (Raise StopIteration, e2) →
  t ∈ targets → e2 !! t = None →
  ∃ t' st', ForTag_run ev body (S n) targets genexpr st = (Raise (KeyError t'), st').
Proof.
  intros Hnl Heval Hnext Hin Hnone.
  unfold ForTag_run, bind, get_env, raw_eval, lift_env. rewrite Hnl, Heval. simpl.
  unfold for_round, bind, lift_env. simpl. rewrite Hnext.
  destruct (del_targets_unbound targets (State e2 (ticks st) (stdout st)) t Hin Hnone)
    as (t' & st' & ->).
  by eauto.
Qed.

(** What the loop of the for tag does with an error raised by its body:
    [StopIteration] ends the loop as if the iterator were exhausted, any
    other error goes on to the caller as it is. *)
Lemma for_loop_body_error body n targets gen out (st st' : state V) item gen' e1 vals e2 e :
  py_next ev gen (env st) = (Ok (item, gen'), e1) →
  py_take ev (length targets) item e1 = (Ok vals, e2) →
  body (State (update (dict_of (zip targets vals)) e2) (ticks st) (stdout st)) = (Raise e, st') →
  for_loop ev (S n) body targets gen out st =
    match e with
    | StopIteration => (Ok out, st')
    | _ => (Raise e, st')
    end.
Proof.
  intros Hnext Htake Hbody. simpl.
  unfold for_round, bind, lift_env, modify_env. rewrite Hnext. simpl.
  rewrite Htake. simpl. rewrite Hbody. by destruct e.
Qed.

(** An error of the loop round other than [StopIteration] is the error
    of the loop. *)
Lemma for_loop_propagates body n targets gen out (st st' : state V) e :
  for_round ev body targets gen out st = (Raise e, st') →
  e ≠ StopIteration →
  for_loop ev (S n) body targets gen out st = (Raise e, st').
Proof. intros Hr Hne. simpl. rewrite Hr. by destruct e. Qed.

(** Outside the loop of a for tag nothing is caught: an error of the
    first computation is the error of the sequence. *)
Lemma bind_raise {A B} (m : M V A) (k : A → M V B) (st st' : state V) e :
  m st = (Raise e, st') → bind m k st = (Raise e, st').
Proof. unfold bind. by intros ->. Qed.

Lemma exec_nodes_code_error run src loc rest out (st st' : state V) e :
  pe_run ev src st = (Raise e, st') →
  exec_nodes ev run (CodeNode src loc :: rest) out st = (Raise e, st').
Proof. intros H. simpl. by apply bind_raise. Qed.

Lemma exec_nodes_tag_error run kind src loc children rest out (st st' : state V) e :
  run kind children st = (Raise e, st') →
  exec_nodes ev run (TagNode kind src loc children :: rest) out st = (Raise e, st').
Proof. intros H. simpl. by apply bind_raise. Qed.

Lemma while_loop_cond_error body n expr slow t0 out (st st' : state V) e :
  raw_eval ev expr st = (Raise e, st') →
  while_loop ev (S n) body expr slow t0 out st = (Raise e, st').
Proof. intros H. simpl. by apply bind_raise. Qed.

End EngineFacts.

(* ===================================================================== *)
(** ** Facts about the classifier *)
(* ===================================================================== *)

Lemma prefix_comment_excludes s :
  String.prefix "comment" s = true →
  String.prefix "for " s = false ∧ String.prefix "while " s = false ∧ s ≠ "".
Proof.
  destruct s as [|c s]; [discriminate|].
  destruct (ascii_dec "c" c) as [<-|Hne].
  - intros _. repeat split; done.
  - cbn [String.prefix]. destruct (ascii_dec "c" c); [done|]. discriminate.
Qed.

Lemma classify_unfold src :
  classify src =
    if Py.startswith (Py.strip src) "for " then Some ForCls
    else if (match Py.strip src with EmptyString => true | _ => false end) then Some CloseCls
    else if Py.startswith (Py.strip src) "while " then Some WhileCls
    else if Py.startswith (Py.strip src) "comment" then Some CommentCls
    else None.
Proof. reflexivity. Qed.

(* ===================================================================== *)
(** ** Further facts: strings, targets and tag classes *)
(* ===================================================================== *)

(** *** The byte order of strings *)

Lemma ascii_compare_refl c : Ascii.compare c c = Eq.
Proof. unfold Ascii.compare. apply N.compare_refl. Qed.

Lemma ascii_compare_lt_trans a b c :
  Ascii.compare a b = Lt → Ascii.compare b c = Lt → Ascii.compare a c = Lt.
Proof.
  unfold Ascii.compare. rewrite !N.compare_lt_iff. apply N.lt_trans.
Qed.

Lemma str_lt_trans a b c : str_lt a b → str_lt b c → str_lt a c.
Proof.
  unfold str_lt. revert b c.
  induction a as [|x a IH]; intros [|y b] [|z c]; simpl; try done.
  destruct (Ascii.compare x y) eqn:Exy; try done;
    destruct (Ascii.compare y z) eqn:Eyz; try done; intros Hab Hbc.
  - apply Ascii.compare_eq_iff in Exy, Eyz. subst. rewrite ascii_compare_refl. eauto.
  - apply Ascii.compare_eq_iff in Exy. subst. by rewrite Eyz.
  - apply Ascii.compare_eq_iff in Eyz. subst. by rewrite Exy.
  - by rewrite (ascii_compare_lt_trans _ _ _ Exy Eyz).
Qed.

Lemma str_compare_gt_lt a b : String.compare a b = Gt → str_lt b a.
Proof.
  unfold str_lt. intros H. rewrite String.compare_antisym, H. done.
Qed.

(** *** [sorted(set(...))] *)

Lemma sorted_insert_elem x l y :
  y ∈ Py.sorted_insert x l ↔ y = x ∨ y ∈ l.
Proof.
  induction l as [|z l IH]; simpl.
  - rewrite list_elem_of_singleton, elem_of_nil. tauto.
  - destruct (String.compare x z) eqn:E.
    + apply String.compare_eq_iff in E. subst z. rewrite elem_of_cons. tauto.
    + rewrite !elem_of_cons. tauto.
    + rewrite !elem_of_cons, IH. tauto.
Qed.

Lemma sorted_insert_sorted x l :
  StronglySorted str_lt l → StronglySorted str_lt (Py.sorted_insert x l).
Proof.
  induction 1 as [|z l Hs IH Hall]; simpl.
  - repeat constructor.
  - destruct (String.compare x z) eqn:E.
    + by constructor.
    + constructor; [by constructor|]. constructor; [done|].
      eapply Forall_impl; [exact Hall|]. intros w Hw. by eapply str_lt_trans.
    + constructor; [done|]. apply Forall_forall. intros w Hw.
      apply sorted_insert_elem in Hw as [->|Hw]; [by apply str_compare_gt_lt|].
      by eapply Forall_forall in Hall.
Qed.

Lemma sorted_set_elem l y : y ∈ Py.sorted_set l ↔ y ∈ l.
Proof.
  induction l as [|x l IH]; simpl; [done|].
  rewrite sorted_insert_elem, elem_of_cons, IH. done.
Qed.

Lemma sorted_set_sorted l : StronglySorted str_lt (Py.sorted_set l).
Proof.
  induction l as [|x l IH]; simpl; [constructor|]. by apply sorted_insert_sorted.
Qed.

(** *** The targets of a for tag *)

Lemma target_set_identifiers s :
  Forall (λ t, isidentifier t = true) (ForTagM.target_set s).
Proof.
  unfold ForTagM.target_set. apply Forall_forall. intros t Ht.
  by apply list_elem_of_filter in Ht as [Ht _].
Qed.

Lemma find_targets_loop_identifiers fuel :
  ∀ tokens targets,
    Forall (λ t, isidentifier t = true) targets →
    Forall (λ t, isidentifier t = true) (ForTagM.find_targets_loop fuel tokens targets).
Proof.
  induction fuel as [|fuel IH]; intros tokens targets Hall; simpl; [done|].
  destruct tokens as [|t ts]; [done|].
  destruct (Py.index "for" (t :: ts)) as [fi|]; [|done].
  destruct (Py.index "in" (t :: ts)) as [ii|]; [|done].
  apply IH. apply Forall_app. split; [done|]. apply target_set_identifiers.
Qed.

Lemma find_targets_ok src targets :
  ForTagM._find_targets src = Ok targets → targets_ok targets.
Proof.
  unfold ForTagM._find_targets.
  pose proof (find_targets_loop_identifiers (length (Py.split_ws src)) (Py.split_ws src) []
                ltac:(constructor)) as Hids.
  destruct (ForTagM.find_targets_loop _ _ _) as [|t ts] eqn:E; [done|].
  intros H. injection H as <-.
  split; [by apply (sorted_set_nonempty (t :: ts))|].
  split; [|apply (sorted_set_sorted (t :: ts))].
  apply Forall_forall. intros x Hx. apply (sorted_set_elem (t :: ts)) in Hx.
  by eapply Forall_forall in Hids.
Qed.

(** [first_true] gives the first element the function holds of. *)
Lemma first_true_spec {A} (f : A → bool) (l : list A) :
  match first_true f l with
  | Some x => ∃ pre post, l = pre ++ x :: post ∧ f x = true ∧ Forall (λ y, f y = false) pre
  | None => Forall (λ y, f y = false) l
  end.
Proof.
  induction l as [|a l IH]; simpl; [constructor|].
  destruct (f a) eqn:Ea.
  - exists [], l. done.
  - destruct (first_true f l) as [x|].
    + destruct IH as (pre & post & -> & Hx & Hpre).
      exists (a :: pre), post. repeat split; try done. by constructor.
    + by constructor.
Qed.

Lemma prefix_head c p s :
  String.prefix (String c p) s = true → ∃ s', s = String c s'.
Proof.
  destruct s as [|d s]; simpl; [done|].
  destruct (ascii_dec c d) as [->|]; [eauto|done].
Qed.

Lemma identify_exclusive src t1 t2 :
  identify t1 src = true → identify t2 src = true → t1 = t2.
Proof.
  unfold identify, ForTagM.identify, WhileTagM.identify, CommentTagM.identify,
    CloseTagM.identify, Py.startswith,
    ForTagM.tag_startswith, WhileTagM.tag_startswith, CommentTagM.tag_startswith.
  destruct t1, t2; try done; intros H1 H2;
    repeat match goal with
      | H : String.prefix (String _ _) _ = true |- _ =>
          apply prefix_head in H as [? H]
      end;
    try (rewrite H1 in H2; discriminate);
    try (rewrite H2 in H1; discriminate);
    try (rewrite H1 in H2; inversion H2);
    try (rewrite H2 in H1; inversion H1).
Qed.

Lemma str_lt_irrefl a : ¬ str_lt a a.
Proof.
  unfold str_lt. induction a as [|c a IH]; simpl; [done|].
  by rewrite ascii_compare_refl.
Qed.

Lemma sorted_NoDup l : StronglySorted str_lt l → NoDup l.
Proof.
  induction 1 as [|x l Hs IH Hall]; constructor; [|done].
  intros Hin. eapply Forall_forall in Hall; [|exact Hin]. by apply str_lt_irrefl in Hall.
Qed.

(** *** Characters of strings *)

Lemma chars_app a b : Py.chars (a +:+ b) = Py.chars a ++ Py.chars b.
Proof.
  unfold Py.chars. induction a as [|c a IH]; [done|].
  change (c :: list_ascii_of_string (a +:+ b) =
          c :: (list_ascii_of_string a ++ list_ascii_of_string b)).
  by rewrite IH.
Qed.

Lemma contains_false c s : Py.contains c s = false ↔ c ∉ Py.chars s.
Proof.
  unfold Py.contains. generalize (Py.chars s). intros l.
  induction l as [|d l IH]; simpl.
  - rewrite elem_of_nil. tauto.
  - rewrite elem_of_cons, orb_false_iff, IH.
    destruct (Ascii.eqb_spec c d); split; intros; try tauto; try (destruct H; congruence).
Qed.

Lemma elem_of_rev {A} (x : A) l : x ∈ rev l ↔ x ∈ l.
Proof. rewrite !list_elem_of_In. symmetry. apply in_rev. Qed.

Lemma elem_of_lstrip x l : x ∈ Py.lstrip_chars l → x ∈ l.
Proof.
  destruct (lstrip_chars_suffix l) as [ws Hws]. intros H.
  rewrite Hws. apply elem_of_app. by right.
Qed.

Lemma elem_of_strip_chars x l : x ∈ Py.strip_chars l → x ∈ l.
Proof.
  unfold Py.strip_chars. rewrite elem_of_rev. intros H.
  apply elem_of_lstrip, elem_of_rev, elem_of_lstrip in H. done.
Qed.

Lemma elem_of_strip x s : x ∈ Py.chars (Py.strip s) → x ∈ Py.chars s.
Proof. unfold Py.strip. rewrite chars_of_chars. apply elem_of_strip_chars. Qed.

Lemma elem_of_drop_prefix x n s : x ∈ Py.chars (Py.drop_prefix n s) → x ∈ Py.chars s.
Proof. unfold Py.drop_prefix. rewrite chars_of_chars. apply subseteq_drop. Qed.

Lemma elem_of_drop_suffix x n s : x ∈ Py.chars (Py.drop_suffix n s) → x ∈ Py.chars s.
Proof. unfold Py.drop_suffix. rewrite chars_of_chars. apply subseteq_take. Qed.

Lemma elem_of_join x sep l :
  x ∈ Py.chars (Py.join sep l) → x ∈ Py.chars sep ∨ ∃ t, t ∈ l ∧ x ∈ Py.chars t.
Proof.
  induction l as [|a l IH]; simpl.
  - intros H. by apply elem_of_nil in H.
  - destruct l as [|b l].
    + intros H. right. exists a. split; [apply elem_of_cons; by left|done].
    + rewrite !chars_app, !elem_of_app. intros [H|[H|H]].
      * right. exists a. split; [apply elem_of_cons; by left|done].
      * by left.
      * destruct (IH H) as [?|(t & Ht & Hx)]; [by left|].
        right. exists t. split; [apply elem_of_cons; by right|done].
Qed.

Lemma one_line_strip s : one_line s → one_line (Py.strip s).
Proof.
  unfold one_line. rewrite !contains_false. intros H Hin. by apply H, elem_of_strip.
Qed.

Lemma append_nonempty s x : x ≠ "" → s +:+ x ≠ "".
Proof. destruct s; [done|]. intros _. cbn. done. Qed.

(** The characters of an identifier are letters, digits and underscores. *)
Lemma isidentifier_chars t c :
  isidentifier t = true → c ∈ Py.chars t →
  Py.isalnum c || Ascii.eqb c underscore = true.
Proof.
  unfold isidentifier. simpl. intros H Hc.
  apply andb_true_iff in H as [_ H].
  rewrite forallb_forall in H. apply H. apply in_map_iff.
  exists c. split; [done|]. by apply list_elem_of_In.
Qed.

Lemma isidentifier_one_line t : isidentifier t = true → newline ∉ Py.chars t.
Proof. intros H Hin. by pose proof (isidentifier_chars _ _ H Hin). Qed.

Lemma genexpr_one_line targets src :
  Forall (λ t, isidentifier t = true) targets → one_line src →
  one_line (ForTagM._construct_generator_expression targets src).
Proof.
  unfold one_line, ForTagM._construct_generator_expression.
  rewrite !contains_false, !chars_app, !elem_of_app. intros Hids Hsrc.
  intros [H|[H|[H|[H|H]]]]; try done.
  - vm_compute in H. by repeat (apply elem_of_cons in H as [H|H]; [done|]);
      apply elem_of_nil in H.
  - apply elem_of_join in H as [H|(t & Ht & H)].
    + vm_compute in H. by repeat (apply elem_of_cons in H as [H|H]; [done|]);
        apply elem_of_nil in H.
    + eapply Forall_forall in Hids; [|exact Ht]. by apply isidentifier_one_line in Hids.
  - vm_compute in H. by repeat (apply elem_of_cons in H as [H|H]; [done|]);
      apply elem_of_nil in H.
  - vm_compute in H. by repeat (apply elem_of_cons in H as [H|H]; [done|]);
      apply elem_of_nil in H.
Qed.

(** *** Invariants of the scan *)

(** The loop goes through rounds only. *)
Lemma lex_loop_rounds src fuel :
  ∀ st st', lex_loop fuel src st = Ok st' →
    rtc (lex_round src) st st' ∧ (lx_i st' <? length src - 1) = false.
Proof.
  induction fuel as [|fuel IH]; intros st st'; simpl;
    destruct (lx_i st <? length src - 1) eqn:Hlt; try discriminate;
    try (intros H; inversion H; subst; split; [apply rtc_refl|done]).
  destruct (lex_step src st) as [st1|e] eqn:Hs; [|discriminate].
  intros H. apply IH in H as [Hr Hend]. split; [|done].
  eapply rtc_l; [|exact Hr]. by split.
Qed.

(** What holds at the start and is kept by every round of a scan holds
    when the scan ends. *)
Lemma lex_invariant (P : lex_state → Prop) src tokens :
  P lex_init →
  (∀ st st', lex_reach (Py.chars src) st → P st →
             lex_round (Py.chars src) st st' → P st') →
  lex src = Ok tokens →
  ∃ st, lex_reach (Py.chars src) st ∧ P st ∧ lex_finish st = Ok tokens.
Proof.
  intros Hinit Hstep Hlex. unfold lex in Hlex.
  destruct (lex_loop _ _ _) as [st| |] eqn:Hl; simpl in Hlex; try discriminate.
  apply lex_loop_rounds in Hl as [Hr _].
  exists st. split; [done|]. split; [|done].
  enough (lex_reach (Py.chars src) st ∧ P st) as [_ ?] by done.
  clear Hlex. revert st Hr. apply (rtc_ind_r (R := lex_round (Py.chars src))
                         (λ st, lex_reach (Py.chars src) st ∧ P st)).
  - split; [apply rtc_refl|done].
  - intros st1 st2 _ Hround [Hr1 HP1]. split.
    + eapply rtc_r; [exact Hr1|done].
    + by eapply Hstep.
Qed.

(** *** Every token is well formed *)

Lemma WhileTag_init_ok k src loc ch nd' :
  one_line src → WhileTagM.identify src = true →
  WhileTagM.init (TagNode k src loc ch) = Ok nd' → token_ok nd'.
Proof.
  intros Hline Hid. unfold WhileTagM.init, WhileTagM.identify in *.
  rewrite strip_idemp, Hid. simpl negb. cbv iota.
  set (e0 := Py.strip (Py.drop_prefix _ (Py.strip src))).
  assert (∀ e, (∀ x, x ∈ Py.chars e → x ∈ Py.chars src) →
               ∀ x, x ∈ Py.chars (Py.strip e) → x ∈ Py.chars src) as Hsub.
  { intros e He x Hx. by apply He, elem_of_strip. }
  assert (∀ x, x ∈ Py.chars e0 → x ∈ Py.chars src) as H0.
  { intros x Hx. by apply elem_of_strip, elem_of_drop_prefix, elem_of_strip in Hx. }
  assert (Py.strip e0 = e0) as Hs0 by apply strip_idemp.
  destruct (Py.startswith e0 _).
  - set (e1 := Py.strip (Py.drop_prefix _ e0)).
    assert (∀ x, x ∈ Py.chars e1 → x ∈ Py.chars src) as H1.
    { intros x Hx. by apply elem_of_strip, elem_of_drop_prefix, H0 in Hx. }
    assert (Py.strip e1 = e1) as Hs1 by apply strip_idemp.
    destruct (Py.endswith e1 _); intros H; inversion H; subst; simpl;
      (split; [done|]); (split; [by apply one_line_strip|]);
      (split; [apply strip_idemp|]); (split; [done|]).
    + split; [apply strip_idemp|]. apply contains_false. intros Hx.
      apply elem_of_strip, elem_of_drop_suffix, H1 in Hx.
      by apply contains_false in Hline.
    + split; [done|]. apply contains_false. intros Hx. apply H1 in Hx.
      by apply contains_false in Hline.
  - destruct (Py.endswith e0 _); intros H; inversion H; subst; simpl;
      (split; [done|]); (split; [by apply one_line_strip|]);
      (split; [apply strip_idemp|]); (split; [done|]).
    + split; [apply strip_idemp|]. apply contains_false. intros Hx.
      apply elem_of_strip, elem_of_drop_suffix, H0 in Hx.
      by apply contains_false in Hline.
    + split; [done|]. apply contains_false. intros Hx. apply H0 in Hx.
      by apply contains_false in Hline.
Qed.

Lemma ForTag_init_ok k src loc ch nd' :
  one_line src → ForTagM.identify src = true →
  ForTagM.init (TagNode k src loc ch) = Ok nd' → token_ok nd'.
Proof.
  intros Hline Hid. unfold ForTagM.init, ForTagM.identify in *.
  rewrite strip_idemp, Hid. simpl negb. cbv iota.
  destruct (ForTagM._find_targets _) as [targets| |] eqn:Ht; simpl; try discriminate.
  intros H; inversion H; subst; clear H. apply find_targets_ok in Ht.
  simpl. split; [done|]. split; [by apply one_line_strip|].
  split; [apply strip_idemp|]. split; [done|]. split; [done|]. split; [done|].
  apply genexpr_one_line; [by destruct Ht as (_ & ? & _)|by apply one_line_strip].
Qed.

Lemma close_node_token_ok nd nd' :
  isDelimitedNode nd = true → close_node nd = Ok nd' → token_ok nd'.
Proof.
  destruct nd as [s|s l|k s l ch]; [done| |]; intros _; unfold close_node.
  { intros H; inversion H; subst. done. }
  destruct (Py.contains newline s) eqn:Hnl; [discriminate|].
  pose proof (first_true_spec (λ t, identify t s) tagNodeTypes) as Hspec.
  destruct (first_true _ tagNodeTypes) as [t|]; [|discriminate].
  destruct Hspec as (_ & _ & _ & Hid & _). destruct t; unfold construct, identify in *.
  - by apply ForTag_init_ok.
  - unfold CloseTagM.init. intros H; inversion H; subst. simpl.
    split; [done|]. split; [done|].
    unfold CloseTagM.identify in Hid. by destruct (Py.strip s).
  - by apply WhileTag_init_ok.
  - rewrite CommentTag_init_ok by done. intros H; inversion H; subst. simpl.
    split; [done|]. split; [by apply one_line_strip|]. split; [apply strip_idemp|done].
Qed.

Lemma lex_in_node_token_ok len tokens nd c c' i line line_i st' :
  Forall token_ok tokens →
  (isTextNode nd = true →
   open_delims (String c (String c' "")) ≠ None → node_src nd ≠ "") →
  lex_in_node len tokens nd c c' i line line_i = Next st' →
  Forall token_ok (lx_tokens st') ∧ pending_ok st'.
Proof.
  intros Htok Hnd. unfold lex_in_node, pending_ok.
  destruct (if isTextNode nd then open_delims _ else None) as [mk|] eqn:Ho.
  { intros H; inversion H; subst; simpl.
    destruct nd as [s| |]; try discriminate. simpl in Ho. split.
    - apply Forall_snoc; [done|]. simpl. apply Hnd; [done|]. by rewrite Ho.
    - unfold open_delims in Ho. eqb_cases; inversion Ho; done. }
  destruct (isDelimitedNode nd && _) eqn:Hc.
  { apply andb_true_iff in Hc as [Hd _].
    destruct (close_node nd) as [nd'| |] eqn:Hcl; intros H; inversion H; subst; simpl.
    split; [|done]. apply Forall_snoc; [done|]. by eapply close_node_token_ok. }
  repeat match goal with |- context [if ?b then _ else _] => destruct b end;
    intros H; inversion H; subst; simpl; (split; [done|]);
    destruct nd; simpl; try done; by apply append_nonempty.
Qed.

Lemma lex_round_token_ok src st st' :
  Forall token_ok (lx_tokens st) ∧ pending_ok st →
  lex_round src st st' →
  Forall token_ok (lx_tokens st') ∧ pending_ok st'.
Proof.
  intros [Htok Hp] [_ Hstep]. unfold lex_step in Hstep.
  destruct (src !! lx_i st) as [c|]; [|discriminate].
  destruct (src !! (lx_i st + 1)) as [c'|]; [|discriminate].
  unfold pending_ok in Hp.
  destruct (lx_node st) as [nd|].
  - eapply lex_in_node_token_ok; [done| |exact Hstep].
    intros Ht _. by destruct nd.
  - destruct (open_delims _) as [mk|] eqn:Ho.
    + inversion Hstep; subst; simpl. split; [done|]. unfold pending_ok. simpl.
      unfold open_delims in Ho. eqb_cases; inversion Ho; done.
    + eapply lex_in_node_token_ok; [done| |exact Hstep].
      intros _ Hne. by rewrite Ho in Hne.
Qed.

Lemma lex_tokens_ok src tokens : lex src = Ok tokens → Forall token_ok tokens.
Proof.
  intros Hlex.
  destruct (lex_invariant (λ st, Forall token_ok (lx_tokens st) ∧ pending_ok st)
              src tokens) as (st & _ & [Htok Hp] & Hfin); try done.
  { intros st st' _. apply lex_round_token_ok. }
  unfold lex_finish, pending_ok in *.
  destruct (lx_node st) as [nd|].
  - destruct nd as [s| |]; simpl in Hfin; inversion Hfin; subst.
    by apply Forall_snoc.
  - inversion Hfin; subst. done.
Qed.

(** *** Text between two blocks is one token *)

Lemma no_adjacent_snoc l x :
  no_adjacent_text l →
  (∀ t, last l = Some t → ¬ (isTextNode t = true ∧ isTextNode x = true)) →
  no_adjacent_text (l ++ [x]).
Proof.
  induction l as [|a l IH]; intros Hl Hlast; [done|].
  destruct l as [|b l].
  - simpl. split; [|done]. by apply Hlast.
  - destruct Hl as [Hab Hl]. split; [done|]. apply IH; [done|].
    intros t Ht. apply Hlast. by rewrite last_cons_cons.
Qed.

Lemma open_delims_spec c2 mk loc :
  open_delims c2 = Some mk →
  open_delim (mk loc) = c2 ∧ node_loc (mk loc) = Some loc ∧
  isDelimitedNode (mk loc) = true ∧ isTextNode (mk loc) = false.
Proof. unfold open_delims. intros H. eqb_cases; inversion H; subst; done. Qed.

Lemma append_src_kind nd s :
  isDelimitedNode (append_src nd s) = isDelimitedNode nd ∧
  isTextNode (append_src nd s) = isTextNode nd ∧
  open_delim (append_src nd s) = open_delim nd ∧
  node_loc (append_src nd s) = node_loc nd.
Proof. by destruct nd. Qed.

Lemma construct_kind t k s l ch nd' :
  construct t (TagNode k s l ch) = Ok nd' →
  ∃ k' s', nd' = TagNode k' s' l [].
Proof.
  destruct t; simpl.
  - destruct (negb _); [discriminate|].
    destruct (ForTagM._find_targets _); simpl; intros H; inversion H; eauto.
  - intros H; inversion H; eauto.
  - destruct (negb _); [discriminate|].
    repeat match goal with |- context [if ?b then _ else _] => destruct b end;
      intros H; inversion H; eauto.
  - destruct (negb _); [discriminate|]. intros H; inversion H; eauto.
Qed.

Lemma close_node_kind nd nd' :
  isDelimitedNode nd = true → close_node nd = Ok nd' →
  isDelimitedNode nd' = true ∧ isTextNode nd' = false ∧
  open_delim nd' = open_delim nd ∧ node_loc nd' = node_loc nd.
Proof.
  destruct nd as [s|s l|k s l ch]; [done| |]; intros _; unfold close_node.
  - intros H; inversion H; subst. done.
  - destruct (Py.contains newline s); [discriminate|].
    destruct (first_true _ _) as [t|]; [|discriminate].
    intros H. apply construct_kind in H as (k' & s' & ->). done.
Qed.

Lemma lex_round_adj src st st' : adj_inv st → lex_round src st st' → adj_inv st'.
Proof.
  intros [Hadj Hlast] [_ Hstep]. unfold lex_step in Hstep.
  destruct (src !! lx_i st) as [c|]; [|discriminate].
  destruct (src !! (lx_i st + 1)) as [c'|]; [|discriminate].
  assert (∀ tokens nd i line line_i,
            tokens = lx_tokens st →
            (lx_node st = Some nd ∨
             (lx_node st = None ∧
              open_delims (String c (String c' "")) = None)) →
            lex_in_node (length src) tokens nd c c' i line line_i = Next st' →
            adj_inv st') as Hin.
  { intros tokens nd i line line_i -> Hnd. unfold lex_in_node.
    destruct (if isTextNode nd then open_delims _ else None) as [mk|] eqn:Ho.
    { destruct (isTextNode nd) eqn:Ht; [|discriminate].
      destruct Hnd as [Hnd|[_ Hnone]]; [|congruence].
      intros H; inversion H; subst; clear H. split; simpl.
      - apply no_adjacent_snoc; [done|]. intros t Hl [Htt _].
        destruct (Hlast t Hl Htt) as (nd0 & Hnd0 & Hd0).
        rewrite Hnd in Hnd0. inversion Hnd0; subst. by destruct nd0.
      - intros _ _ _. eexists. split; [done|]. by eapply open_delims_spec. }
    destruct (isDelimitedNode nd && _) eqn:Hc.
    { apply andb_true_iff in Hc as [Hd _].
      destruct (close_node nd) as [nd'| |] eqn:Hcl; intros H; inversion H; subst; clear H.
      destruct (close_node_kind _ _ Hd Hcl) as (_ & Hnt & _).
      split; simpl.
      - apply no_adjacent_snoc; [done|]. intros t _ [_ Hx]. congruence.
      - intros t Hl Ht. rewrite last_snoc in Hl. inversion Hl; subst. congruence. }
    assert (∀ s i' , adj_inv (LexState (lx_tokens st) (Some (append_src nd s)) i' line line_i))
      as Happ.
    { intros s i'. split; simpl; [done|]. intros t Hl Ht.
      destruct (Hlast t Hl Ht) as (nd0 & Hnd0 & Hd0).
      destruct Hnd as [Hnd|[Hnd _]]; [|congruence].
      rewrite Hnd in Hnd0. inversion Hnd0; subst.
      eexists. split; [done|]. by rewrite (proj1 (append_src_kind _ _)). }
    repeat match goal with |- context [if ?b then _ else _] => destruct b end;
      intros H; inversion H; subst; apply Happ. }
  destruct (lx_node st) as [nd|] eqn:Hnode.
  - exact (Hin _ _ _ _ _ eq_refl (or_introl eq_refl) Hstep).
  - destruct (open_delims _) as [mk|] eqn:Ho.
    + inversion Hstep; subst; clear Hstep. split; simpl; [done|].
      intros _ _ _. eexists. split; [done|]. by eapply open_delims_spec.
    + exact (Hin _ _ _ _ _ eq_refl (or_intror (conj eq_refl eq_refl)) Hstep).
Qed.

Lemma lex_no_adjacent_text src tokens :
  lex src = Ok tokens → no_adjacent_text tokens.
Proof.
  intros Hlex.
  destruct (lex_invariant adj_inv src tokens) as (st & _ & [Hadj Hlast] & Hfin);
    try done.
  { intros st st' _. apply lex_round_adj. }
  unfold lex_finish in Hfin.
  destruct (lx_node st) as [nd|] eqn:Hnode.
  - destruct (isTextNode nd) eqn:Ht; inversion Hfin; subst.
    apply no_adjacent_snoc; [done|]. intros t Hl [Htt _].
    destruct (Hlast t Hl Htt) as (nd0 & Hnd0 & Hd0).
    inversion Hnd0; subst. by destruct nd0.
  - inversion Hfin; subst. done.
Qed.

(** *** Every position points at an opening delimiter *)

Lemma opens_at_same src i nd nd' :
  open_delim nd' = open_delim nd → node_loc nd' = node_loc nd →
  opens_at src i nd → opens_at src i nd'.
Proof. unfold opens_at. intros -> ->. done. Qed.

Lemma open_delims_first c c' mk :
  open_delims (String c (String c' "")) = Some mk → Ascii.eqb c newline = false.
Proof.
  unfold open_delims. intros H.
  eqb_cases; inversion H; subst;
    match goal with E : String _ _ = _ |- _ => inversion E end; done.
Qed.

Lemma lex_round_pos src st st' :
  lex_reach src st → pos_inv src st → lex_round src st st' → pos_inv src st'.
Proof.
  intros Hreach [Htok Hnode] [Hlt Hstep]. apply Nat.ltb_lt in Hlt.
  destruct (lex_reach_line_inv _ _ Hreach) as [?|[Hline Hli]]; [lia|].
  unfold lex_step in Hstep.
  destruct (src !! lx_i st) as [c|] eqn:Hc; [|discriminate].
  destruct (src !! (lx_i st + 1)) as [c'|] eqn:Hc'; [|discriminate].
  assert (∀ mk, open_delims (String c (String c' "")) = Some mk →
     opens_at src (lx_i st)
       (mk (if Ascii.eqb c newline then lx_line st + 1 else lx_line st,
            lx_i st - (if Ascii.eqb c newline then lx_i st else lx_line_i st))))
    as Hopen.
  { intros mk Ho. rewrite (open_delims_first _ _ _ Ho), Hline, Hli.
    destruct (open_delims_spec _ mk (1 + count_newlines src (lx_i st),
                lx_i st - last_newline src (lx_i st)) Ho) as (Hod & Hloc & _).
    split; [|done]. exists c, c'. done. }
  assert (∀ nd,
            (isDelimitedNode nd = true → ∃ i, opens_at src i nd) →
            lex_in_node (length src) (lx_tokens st) nd c c' (lx_i st)
              (if Ascii.eqb c newline then lx_line st + 1 else lx_line st)
              (if Ascii.eqb c newline then lx_i st else lx_line_i st) = Next st' →
            pos_inv src st') as Hin.
  { intros nd Hnd. unfold lex_in_node.
    destruct (if isTextNode nd then open_delims _ else None) as [mk|] eqn:Ho.
    { destruct (isTextNode nd) eqn:Ht; [|discriminate].
      intros H; inversion H; subst; clear H. split; simpl.
      - apply Forall_snoc; [done|]. by destruct nd.
      - intros nd0 Hnd0 _. inversion Hnd0; subst. eexists. by apply Hopen. }
    destruct (isDelimitedNode nd && _) eqn:Hcl.
    { apply andb_true_iff in Hcl as [Hd _].
      destruct (close_node nd) as [nd'| |] eqn:Hcn; intros H; inversion H; subst; clear H.
      destruct (close_node_kind _ _ Hd Hcn) as (_ & _ & Hod & Hloc).
      split; simpl; [|done]. apply Forall_snoc; [done|]. intros _.
      destruct (Hnd Hd) as [i Hi]. exists i. by eapply opens_at_same. }
    assert (∀ s i', pos_inv src (LexState (lx_tokens st) (Some (append_src nd s)) i'
              (if Ascii.eqb c newline then lx_line st + 1 else lx_line st)
              (if Ascii.eqb c newline then lx_i st else lx_line_i st))) as Happ.
    { intros s i'. split; simpl; [done|]. intros nd0 Hnd0 Hd0. inversion Hnd0; subst.
      destruct (append_src_kind nd s) as (Hd & _ & Hod & Hloc).
      rewrite Hd in Hd0. destruct (Hnd Hd0) as [i Hi]. exists i.
      by eapply opens_at_same. }
    repeat match goal with |- context [if ?b then _ else _] => destruct b end;
      intros H; inversion H; subst; apply Happ. }
  destruct (lx_node st) as [nd|] eqn:Hnd.
  - apply (Hin nd); [by apply Hnode|exact Hstep].
  - destruct (open_delims _) as [mk|] eqn:Ho.
    + inversion Hstep; subst; clear Hstep. split; simpl; [done|].
      intros nd0 Hnd0 _. inversion Hnd0; subst. eexists. by apply Hopen.
    + apply (Hin (TextNode "")); [done|exact Hstep].
Qed.

Lemma lex_positions src tokens :
  lex src = Ok tokens →
  Forall (λ t, isDelimitedNode t = true → ∃ i, opens_at (Py.chars src) i t) tokens.
Proof.
  intros Hlex.
  destruct (lex_invariant (pos_inv (Py.chars src)) src tokens)
    as (st & _ & [Htok Hnode] & Hfin); try done.
  { intros st st'. apply lex_round_pos. }
  unfold lex_finish in Hfin.
  destruct (lx_node st) as [nd|] eqn:Hnd.
  - destruct (isTextNode nd) eqn:Ht; inversion Hfin; subst.
    apply Forall_snoc; [done|]. by destruct nd.
  - inversion Hfin; subst. done.
Qed.

(** *** Trees are well formed *)

Lemma tree_ok_tag k src loc ch :
  tree_ok (TagNode k src loc ch) ↔
  k ≠ CloseTag ∧ one_line src ∧ kind_ok k src ∧ Forall tree_ok ch.
Proof.
  simpl. enough ((fix all (l : list node) : Prop :=
                    match l with [] => True | c :: l' => tree_ok c ∧ all l' end) ch
                 ↔ Forall tree_ok ch) as -> by done.
  induction ch as [|c ch IH]; [by split; [constructor|]|].
  rewrite Forall_cons, IH. done.
Qed.

Lemma Balanced_tree_ok toks trees :
  Balanced toks trees → Forall token_ok toks → Forall tree_ok trees.
Proof.
  induction 1 as [|tok toks trees Hleaf _ IH
                  |tok inner kids c rest trees Hopen Hclose _ IHin _ IHrest];
    intros Hall.
  - constructor.
  - apply Forall_cons in Hall as [Htok Hall]. constructor; [|by apply IH].
    by destruct tok.
  - apply Forall_cons in Hall as [Htok Hall].
    apply Forall_app in Hall as [Hin Hall].
    apply Forall_cons in Hall as [_ Hrest].
    constructor; [|by apply IHrest].
    apply isOpenTag_spec in Hopen as [Htag Hnc].
    destruct tok as [| |k s l ch]; try discriminate.
    destruct Htok as (-> & Hline & Hkind). simpl.
    apply (tree_ok_tag k s l kids). split; [by intros ->|]. split; [done|].
    split; [done|]. by apply IHin.
Qed.

(** *** The errors of lexing *)

Lemma construct_errors t k s l ch e :
  identify t s = true → construct t (TagNode k s l ch) = Raise e →
  e = for_tag_TypeError.
Proof.
  destruct t; unfold identify, construct; intros Hid.
  - unfold ForTagM.init, ForTagM.identify in *. rewrite strip_idemp, Hid. simpl.
    unfold ForTagM._find_targets.
    destruct (ForTagM.find_targets_loop _ _ _); simpl; intros H; inversion H; done.
  - discriminate.
  - unfold WhileTagM.init, WhileTagM.identify in *. rewrite strip_idemp, Hid. simpl.
    repeat match goal with |- context [if ?b then _ else _] => destruct b end;
      discriminate.
  - rewrite CommentTag_init_ok by done. discriminate.
Qed.

Lemma close_node_errors nd e :
  close_node nd = Raise e →
  e = SyntaxError (MultiLineTag nd) ∨ e = SyntaxError (UnknownTag nd) ∨
  e = for_tag_TypeError.
Proof.
  destruct nd as [s|s l|k s l ch]; unfold close_node; try discriminate.
  destruct (Py.contains newline s); [intros H; inversion H; by left|].
  pose proof (first_true_spec (λ t, identify t s) tagNodeTypes) as Hspec.
  destruct (first_true _ tagNodeTypes) as [t|]; [|intros H; inversion H; right; by left].
  destruct Hspec as (_ & _ & _ & Hid & _). intros H. right. right.
  by eapply construct_errors.
Qed.

Lemma close_node_total nd : close_node nd ≠ Diverge.
Proof.
  destruct nd as [s|s l|k s l ch]; unfold close_node; try done.
  destruct (Py.contains newline s); [done|].
  destruct (first_true _ _) as [t|]; [|done].
  destruct t; simpl.
  - destruct (negb _); [done|].
    unfold ForTagM._find_targets. by destruct (ForTagM.find_targets_loop _ _ _).
  - done.
  - destruct (negb _); [done|].
    repeat match goal with |- context [if ?b then _ else _] => destruct b end; done.
  - by destruct (negb _).
Qed.

Lemma lex_step_errors src st e :
  (lx_i st <? length src - 1) = true → lex_step src st = Fail e →
  (∃ nd, e = SyntaxError (MultiLineTag nd)) ∨ (∃ nd, e = SyntaxError (UnknownTag nd)) ∨
  e = for_tag_TypeError.
Proof.
  intros Hlt. apply Nat.ltb_lt in Hlt. unfold lex_step.
  destruct (lookup_lt_is_Some_2 src (lx_i st)) as [c Hc]; [lia|].
  destruct (lookup_lt_is_Some_2 src (lx_i st + 1)) as [c' Hc']; [lia|].
  rewrite Hc, Hc'.
  assert (∀ tokens nd i line line_i,
            lex_in_node (length src) tokens nd c c' i line line_i = Fail e →
            (∃ nd, e = SyntaxError (MultiLineTag nd)) ∨
            (∃ nd, e = SyntaxError (UnknownTag nd)) ∨ e = for_tag_TypeError) as Hin.
  { intros tokens nd i line line_i. unfold lex_in_node.
    destruct (if isTextNode nd then open_delims _ else None); [discriminate|].
    destruct (isDelimitedNode nd && _).
    - pose proof (close_node_total nd) as Htot.
      destruct (close_node nd) as [nd'|e'|] eqn:Hcl; try done.
      intros H; inversion H; subst.
      apply close_node_errors in Hcl as [-> | [-> | ->]]; eauto.
    - repeat match goal with |- context [if ?b then _ else _] => destruct b end;
        discriminate. }
  destruct (lx_node st) as [nd|]; [apply Hin|].
  destruct (open_delims _); [discriminate|apply Hin].
Qed.

Lemma lex_loop_errors src fuel :
  ∀ st e, lex_loop fuel src st = Raise e →
    (∃ nd, e = SyntaxError (MultiLineTag nd)) ∨ (∃ nd, e = SyntaxError (UnknownTag nd)) ∨
    e = for_tag_TypeError.
Proof.
  induction fuel as [|fuel IH]; intros st e; simpl;
    destruct (lx_i st <? length src - 1) eqn:Hlt; try discriminate.
  destruct (lex_step src st) as [st1|e1] eqn:Hs; [apply IH|].
  intros H; inversion H; subst. by eapply lex_step_errors.
Qed.

Lemma lex_errors src e :
  lex src = Raise e →
  (∃ nd, e = SyntaxError (IncompleteDelimitedNode nd) ∧ isDelimitedNode nd = true) ∨
  (∃ nd, e = SyntaxError (MultiLineTag nd)) ∨ (∃ nd, e = SyntaxError (UnknownTag nd)) ∨
  e = for_tag_TypeError.
Proof.
  unfold lex. destruct (lex_loop _ _ _) as [st|e1|] eqn:Hl; simpl; try discriminate.
  - unfold lex_finish. destruct (lx_node st) as [nd|]; [|discriminate].
    destruct (isTextNode nd) eqn:Ht; [discriminate|].
    intros H; inversion H; subst. left. exists nd. split; [done|]. by destruct nd.
  - intros H; inversion H; subst. right. by eapply lex_loop_errors.
Qed.

(** *** Concatenation of strings *)

Lemma str_app_cons c a b : String c a +:+ b = String c (a +:+ b).
Proof. reflexivity. Qed.

Lemma str_app_assoc a b c : (a +:+ b) +:+ c = a +:+ (b +:+ c).
Proof. induction a as [|x a IH]; [done|]. rewrite !str_app_cons. by rewrite IH. Qed.

Lemma str_app_nil_r a : a +:+ "" = a.
Proof. induction a as [|x a IH]; [done|]. rewrite str_app_cons. by rewrite IH. Qed.

(** *** The walk over a list of nodes *)

Section WalkFacts.

Context {V : Type} (ev : Evaluator V).

(** The output so far is a prefix of the output, and nothing else
    depends on it. *)
Lemma exec_nodes_output run nodes :
  ∀ out (st : state V),
    exec_nodes ev run nodes out st =
    match exec_nodes ev run nodes "" st with
    | (Ok r, st') => (Ok (out +:+ r), st')
    | other => other
    end.
Proof.
  assert (∀ (m : M V string) k out (st : state V),
            (∀ o st1, k (out +:+ o) st1 =
                      match k o st1 with
                      | (Ok r, st') => (Ok (out +:+ r), st')
                      | other => other
                      end) →
            bind m (λ o, k (out +:+ o)) st =
            match bind m (λ o, k ("" +:+ o)) st with
            | (Ok r, st') => (Ok (out +:+ r), st')
            | other => other
            end) as Hbind.
  { intros m k out st Hk. unfold bind. destruct (m st) as [[o|e|] st1]; [|done..].
    apply Hk. }
  induction nodes as [|nd nodes IH]; intros out st; simpl.
  - unfold ret. by rewrite str_app_nil_r.
  - destruct nd as [src|src loc|kind src loc ch].
    + rewrite (IH (out +:+ src)), (IH ("" +:+ src)). simpl.
      destruct (exec_nodes ev run nodes "" st) as [[r|e|] st']; try done.
      by rewrite str_app_assoc.
    + apply Hbind. intros o st1. rewrite (IH (out +:+ o)), (IH o).
      destruct (exec_nodes ev run nodes "" st1) as [[r|e|] st']; try done.
      by rewrite str_app_assoc.
    + apply Hbind. intros o st1. rewrite (IH (out +:+ o)), (IH o).
      destruct (exec_nodes ev run nodes "" st1) as [[r|e|] st']; try done.
      by rewrite str_app_assoc.
Qed.

Lemma exec_nodes_app run l1 l2 :
  ∀ out (st : state V),
    exec_nodes ev run (l1 ++ l2) out st =
    bind (exec_nodes ev run l1 out) (exec_nodes ev run l2) st.
Proof.
  induction l1 as [|nd l1 IH]; intros out st; simpl; [done|].
  destruct nd as [src|src loc|kind src loc ch].
  - apply IH.
  - unfold bind. by destruct (pe_run ev src st) as [[o|e|] st1].
  - unfold bind. by destruct (run kind ch st) as [[o|e|] st1].
Qed.

(** Text and comments need no evaluator. *)
Lemma exec_nodes_static exec_children loop_fuel nodes :
  static_nodes nodes = true →
  ∀ out (st : state V),
    exec_nodes ev (tag_run ev exec_children loop_fuel) nodes out st =
    (Ok (out +:+ text_of nodes), st).
Proof.
  induction nodes as [|nd nodes IH]; intros Hs out st; simpl.
  - unfold ret. by rewrite str_app_nil_r.
  - destruct nd as [src|src loc|kind src loc ch]; simpl in Hs; try discriminate.
    + rewrite IH by done. by rewrite str_app_assoc.
    + destruct kind; try discriminate. unfold bind. simpl.
      rewrite IH by done. by rewrite str_app_nil_r.
Qed.

(** *** The loop of a while tag *)

Lemma raw_eval_one_line expr (st : state V) :
  one_line expr → raw_eval ev expr st = lift_env (py_eval ev expr) st.
Proof. unfold raw_eval, one_line. by intros ->. Qed.

End WalkFacts.

(** A slow loop never reads the clock. *)
Lemma while_loop_slow_clock {V : Type} (ev ev' : Evaluator V) body expr n :
  py_eval ev = py_eval ev' → py_truth ev = py_truth ev' →
  ∀ t0 t0' out (st : state V),
    while_loop ev n body expr true t0 out st =
    while_loop ev' n body expr true t0' out st.
Proof.
  intros He Ht. induction n as [|n IH]; intros t0 t0' out st; simpl; [done|].
  unfold bind, raw_eval, lift_env. rewrite He, Ht.
  destruct (Py.contains newline expr); [done|].
  destruct (py_eval ev' expr (env st)) as [[v|e|] e1]; [|done..].
  simpl. destruct (py_truth ev' v e1) as [[b|e|] e2]; [|done..].
  destruct b; [|done].
  destruct (body (State e2 (ticks st) (stdout st))) as [[o|e|] st3]; [|done..].
  apply IH.
Qed.

(** *** Lines: [splitlines] and [join] *)

Lemma eqb_line_end c :
  c ≠ newline ∧ c ≠ carriage_return →
  Ascii.eqb c newline = false ∧ Ascii.eqb c carriage_return = false.
Proof. intros [H1 H2]. split; by apply Ascii.eqb_neq. Qed.

(** A line followed by a newline is cut off there. *)
Lemma splitlines_aux_line l cur rest :
  Forall (λ c, c ≠ newline ∧ c ≠ carriage_return) l →
  splitlines_aux cur (l ++ newline :: rest) =
  Py.of_chars (rev cur ++ l) :: splitlines_aux [] rest.
Proof.
  intros Hl. revert cur. induction Hl as [|c l Hc Hl IH]; intros cur.
  - simpl. by rewrite app_nil_r.
  - apply eqb_line_end in Hc as [E1 E2]. cbn [app splitlines_aux].
    rewrite E1, E2, IH. simpl. by rewrite <- app_assoc.
Qed.

(** What is left at the end of the text is a line unless it is empty. *)
Lemma splitlines_aux_last l cur :
  Forall (λ c, c ≠ newline ∧ c ≠ carriage_return) l →
  splitlines_aux cur l =
  match rev cur ++ l with [] => [] | _ => [Py.of_chars (rev cur ++ l)] end.
Proof.
  intros Hl. revert cur. induction Hl as [|c l Hc Hl IH]; intros cur.
  - simpl. rewrite app_nil_r. destruct cur as [|x cur]; [done|].
    simpl. by destruct (rev cur ++ [x]) eqn:E; [destruct (rev cur)|].
  - apply eqb_line_end in Hc as [E1 E2]. cbn [splitlines_aux].
    rewrite E1, E2, IH. simpl. rewrite <- app_assoc. simpl.
    by destruct (rev cur).
Qed.

(** No line of [splitlines] holds a line end. *)
Lemma splitlines_aux_no_line_end l :
  ∀ cur, Forall (λ c, c ≠ newline ∧ c ≠ carriage_return) cur →
         Forall no_line_end (splitlines_aux cur l).
Proof.
  assert (Hline : ∀ cur, Forall (λ c, c ≠ newline ∧ c ≠ carriage_return) cur →
                         no_line_end (Py.of_chars (rev cur))).
  { intros cur Hcur. unfold no_line_end. rewrite chars_of_chars.
    by apply Forall_rev. }
  induction l as [|c l IH]; intros cur Hcur.
  - simpl. destruct cur; [constructor|]. constructor; [by apply Hline|constructor].
  - simpl. destruct (Ascii.eqb c newline) eqn:E1.
    { constructor; [by apply Hline|]. apply IH. constructor. }
    destruct (Ascii.eqb c carriage_return) eqn:E2.
    + destruct l as [|c' l'].
      { constructor; [by apply Hline|]. apply IH. constructor. }
      destruct (Ascii.eqb c' newline) eqn:E3.
      * constructor; [by apply Hline|].
        specialize (IH [] ltac:(constructor)). simpl in IH. rewrite E3 in IH.
        by inversion IH.
      * constructor; [by apply Hline|]. apply IH. constructor.
    + apply IH. constructor; [|done].
      apply Ascii.eqb_neq in E1. apply Ascii.eqb_neq in E2. done.
Qed.

Lemma splitlines_no_line_end text : Forall no_line_end (splitlines text).
Proof. apply splitlines_aux_no_line_end. constructor. Qed.

(** Joining lines with newlines and splitting again gives the lines
    back, when no line holds a line end and the last line is not empty. *)
Lemma splitlines_join ls :
  Forall no_line_end ls → last ls ≠ Some "" →
  splitlines (Py.join (String newline "") ls) = ls.
Proof.
  intros Hls. induction Hls as [|x ls Hx Hls IH]; intros Hlast; [done|].
  destruct ls as [|y ls].
  - unfold splitlines. simpl. rewrite splitlines_aux_last by done. simpl.
    destruct (Py.chars x) eqn:E.
    + destruct x; [done|discriminate].
    + by rewrite <- E, of_chars_chars.
  - change (Py.join (String newline "") (x :: y :: ls))
      with (x +:+ String newline "" +:+ Py.join (String newline "") (y :: ls)).
    unfold splitlines. rewrite !chars_app.
    change (Py.chars (String newline "")) with [newline]. simpl.
    rewrite splitlines_aux_line by done. simpl. rewrite of_chars_chars.
    f_equal. apply IH. by rewrite last_cons_cons in Hlast.
Qed.

Lemma strip_nonempty line : Py.strip line ≠ "" → line ≠ "".
Proof. by intros H ->. Qed.

Lemma last_Forall {A} (P : A → Prop) (l : list A) x :
  Forall P l → last l = Some x → P x.
Proof.
  intros Hl Hx. rewrite Forall_forall in Hl. apply Hl.
  rewrite last_Some in Hx. destruct Hx as [l' ->].
  apply elem_of_app. right. by left.
Qed.

Lemma Forall_filter_sub {A} (P : A → Prop) (Q : A → Prop) `{∀ x, Decision (Q x)}
    (l : list A) :
  Forall P l → Forall P (filter Q l).
Proof.
  rewrite !Forall_forall. intros Hl x Hx. apply Hl.
  by apply list_elem_of_filter in Hx as [_ Hx].
Qed.

(** The lines of [filterlines(text)] are the lines of the text that are
    not blank. *)
Lemma splitlines_filterlines text :
  splitlines (filterlines text) =
  filter (λ line, Py.strip line ≠ "") (splitlines text).
Proof.
  unfold filterlines. apply splitlines_join.
  - apply Forall_filter_sub, splitlines_no_line_end.
  - intros Hlast. apply last_Some in Hlast as [l' Hl'].
    assert ("" ∈ filter (λ line, Py.strip line ≠ "") (splitlines text)) as Hin.
    { rewrite Hl'. apply elem_of_app. right. by left. }
    by apply list_elem_of_filter in Hin as [Hne _].
Qed.

Lemma no_line_end_app a b : no_line_end a → no_line_end b → no_line_end (a +:+ b).
Proof. unfold no_line_end. rewrite chars_app. apply Forall_app_2. Qed.

(** The lines of [prepend(text, prefix)] are the lines of the text, each
    after the prefix, when the prefix is not empty and holds no line
    end. *)
Lemma splitlines_prepend text prefix :
  prefix ≠ "" → no_line_end prefix →
  splitlines (prepend text prefix) = map (λ line, prefix +:+ line) (splitlines text).
Proof.
  intros Hne Hp. unfold prepend. apply splitlines_join.
  - apply Forall_map. eapply Forall_impl; [apply splitlines_no_line_end|].
    intros line Hline. by apply no_line_end_app.
  - intros Hlast. apply last_Some in Hlast as [l' Hl'].
    assert ("" ∈ map (λ line, prefix +:+ line) (splitlines text)) as Hin.
    { rewrite Hl'. apply elem_of_app. right. by left. }
    apply list_elem_of_fmap in Hin as (line & Heq & _).
    destruct prefix; [done|discriminate].
Qed.

Lemma chars_spaces width level :
  Py.chars (spaces width level) =
  replicate (Z.to_nat level * Z.to_nat width) space.
Proof.
  unfold spaces. rewrite chars_of_chars.
  induction (Z.to_nat level) as [|n IH]; [done|].
  simpl. by rewrite IH, replicate_add.
Qed.

Lemma spaces_no_line_end width level : no_line_end (spaces width level).
Proof.
  unfold no_line_end. rewrite chars_spaces. apply Forall_replicate. done.
Qed.

Lemma spaces_nonempty width level :
  (0 < width)%Z → (0 < level)%Z → spaces width level ≠ "".
Proof.
  intros Hw Hl E. apply (f_equal Py.chars) in E. rewrite chars_spaces in E.
  apply (f_equal length) in E. rewrite length_replicate in E. simpl in E. nia.
Qed.

Lemma spaces_add width a b :
  (0 <= a)%Z → (0 <= b)%Z →
  spaces width (a + b) = spaces width b +:+ spaces width a.
Proof.
  intros Ha Hb. rewrite <- (of_chars_chars (spaces width (a + b))).
  rewrite <- (of_chars_chars (spaces width b +:+ spaces width a)).
  f_equal. rewrite chars_app, !chars_spaces, <- replicate_add. f_equal.
  rewrite Z2Nat.inj_add by done. lia.
Qed.

Lemma filter_filter_same {A} (P : A → Prop) `{∀ x, Decision (P x)} (l : list A) :
  filter P (filter P l) = filter P l.
Proof.
  induction l as [|x l IH]; [done|].
  rewrite (filter_cons P x l). destruct (decide (P x)) as [Hx|Hx]; [|done].
  rewrite (filter_cons P x (filter P l)). destruct (decide (P x)); [|done].
  by rewrite IH.
Qed.

Lemma filterlines_idemp text : filterlines (filterlines text) = filterlines text.
Proof.
  unfold filterlines at 1. rewrite splitlines_filterlines, filter_filter_same. done.
Qed.

Lemma prepend_prepend text p q :
  p ≠ "" → no_line_end p →
  prepend (prepend text p) q = prepend text (q +:+ p).
Proof.
  intros Hne Hp. unfold prepend at 1. rewrite splitlines_prepend by done.
  unfold prepend. f_equal. rewrite <- list_fmap_compose.
  apply list_fmap_ext. intros _ line _. simpl. by rewrite str_app_assoc.
Qed.

(** *** [strip] on a string that is stripped already *)

Lemma lstrip_chars_id c l : Py.isspace c = false → Py.lstrip_chars (c :: l) = c :: l.
Proof. intros E. simpl. by rewrite E. Qed.

Lemma strip_chars_ends c l c' :
  Py.isspace c = false → Py.isspace c' = false →
  Py.strip_chars (c :: l ++ [c']) = c :: l ++ [c'].
Proof.
  intros E E'. unfold Py.strip_chars. rewrite lstrip_chars_id by done.
  change (c :: l ++ [c']) with ((c :: l) ++ [c']).
  rewrite rev_app_distr. change (rev [c'] ++ rev (c :: l)) with (c' :: rev (c :: l)).
  rewrite lstrip_chars_id by done.
  change (c' :: rev (c :: l)) with (rev [c'] ++ rev (c :: l)).
  by rewrite <- rev_app_distr, rev_involutive.
Qed.

(** A string that [strip] leaves as it is, and is not empty, begins with
    a character that is not white space. *)
Lemma stripped_head s :
  Py.strip s = s → s ≠ "" →
  ∃ c t, Py.chars s = c :: t ∧ Py.isspace c = false.
Proof.
  intros Hs Hne. apply (f_equal Py.chars) in Hs. unfold Py.strip in Hs.
  rewrite chars_of_chars in Hs. unfold Py.strip_chars in Hs.
  set (l := Py.chars s) in *.
  destruct (lstrip_chars_suffix l) as [ws Hws].
  destruct (lstrip_chars_suffix (rev (Py.lstrip_chars l))) as [ws' Hws'].
  assert (Py.lstrip_chars l = l ++ rev ws') as Hm.
  { rewrite <- (rev_involutive (Py.lstrip_chars l)), Hws', rev_app_distr.
    by rewrite Hs. }
  assert (ws = []) as ->.
  { apply (f_equal length) in Hws. rewrite Hm, !length_app in Hws.
    destruct ws; [done|]. simpl in Hws. lia. }
  simpl in Hws. destruct l as [|c t] eqn:El.
  - destruct s; [done|discriminate].
  - exists c, t. split; [done|]. by eapply lstrip_chars_head.
Qed.

(** *** Tags inside tags *)

Lemma OpenPrefix_app a b : OpenPrefix a → OpenPrefix b → OpenPrefix (a ++ b).
Proof.
  intros Ha Hb. induction Ha as [|seg trees rest Hseg _ IH|tok rest Htok _ IH].
  - done.
  - rewrite <- app_assoc. by eapply OP_bal.
  - simpl. by apply OP_open.
Qed.

Lemma Balanced_OpenPrefix toks trees : Balanced toks trees → OpenPrefix toks.
Proof.
  intros H. rewrite <- (app_nil_r toks). eapply OP_bal; [exact H|apply OP_nil].
Qed.

Lemma in_tree_cons n t trees : in_tree n trees → in_tree n (t :: trees).
Proof.
  intros [n' trees' Hin|n' k src loc ch trees' Hin Hsub].
  - apply in_tree_here. by right.
  - eapply in_tree_under; [right; exact Hin|done].
Qed.

Lemma in_tree_app_r n l trees : in_tree n trees → in_tree n (l ++ trees).
Proof. intros H. induction l as [|t l IH]; [done|]. by apply in_tree_cons. Qed.

Lemma isOpenTag_not_close t : isOpenTag t = true → isCloseTag t = false.
Proof. unfold isOpenTag. by destruct (isCloseTag t), (isTagNode t). Qed.

Lemma isOpenTag_tag t : isOpenTag t = true → isTagNode t = true.
Proof. unfold isOpenTag. by destruct (isTagNode t). Qed.

(** In balanced tokens, a token that opens a tag is followed by the
    balanced tokens of its children and by its close marker, and the tag
    is in the tree with these children. *)
Lemma Balanced_open_split toks trees :
  Balanced toks trees →
  ∀ pre t rest,
    toks = pre ++ t :: rest → isOpenTag t = true →
    ∃ inner kids c rest',
      rest = inner ++ c :: rest' ∧ isCloseTag c = true ∧ Balanced inner kids ∧
      in_tree (with_children t (node_children t ++ kids)) trees.
Proof.
  induction 1 as [|tok toks trees Hleaf Hbal IH
                  |tok inner kids c rest trees Hopen Hclose Hin IHin Hrest IHrest];
    intros pre t rest' Heq Ht.
  - by destruct pre.
  - destruct pre as [|p pre]; simpl in Heq; inversion Heq; subst.
    + apply isOpenTag_tag in Ht. congruence.
    + destruct (IH _ _ _ eq_refl Ht) as (inner & kids & c & r & -> & Hc & Hb & Hin).
      exists inner, kids, c, r. repeat split; try done. by apply in_tree_cons.
  - destruct pre as [|p pre]; simpl in Heq; inversion Heq as [[Hp Htl]]; subst.
    + exists inner, kids, c, rest. repeat split; try done.
      apply in_tree_here. by left.
    + apply app_eq_app in Htl as [l [[-> Hl]|[-> Hl]]].
      * (* the token is among the children of [p] *)
        destruct l as [|x l]; simpl in Hl.
        -- inversion Hl; subst. apply isOpenTag_not_close in Ht. congruence.
        -- inversion Hl; subst.
           destruct (IHin _ _ _ eq_refl Ht) as (inner' & kids' & c' & r & -> & Hc & Hb & Hin').
           exists inner', kids', c', (r ++ c :: rest). rewrite <- app_assoc.
           repeat split; try done.
           destruct p as [| |k s lc ch]; try done.
           eapply in_tree_under; [left|]. by apply in_tree_app_r.
      * (* the token is after the children of [p] *)
        destruct l as [|x l]; simpl in Hl.
        -- inversion Hl; subst. apply isOpenTag_not_close in Ht. congruence.
        -- inversion Hl; subst.
           destruct (IHrest _ _ _ eq_refl Ht) as (inner' & kids' & c' & r & -> & Hc & Hb & Hin').
           exists inner', kids', c', r. repeat split; try done. by apply in_tree_cons.
Qed.

Lemma isCommentTag_open c : isCommentTag c = true → isOpenTag c = true.
Proof. by destruct c as [| |[] ? ? ?]. Qed.

(** A comment tag among the nodes of one level adds nothing to the
    output and changes nothing, whatever its children are. *)
Lemma exec_nodes_comment {V} (ev : Evaluator V) exec_children loop_fuel
    l1 l2 src loc children out (st : state V) :
  exec_nodes ev (tag_run ev exec_children loop_fuel)
    (l1 ++ TagNode CommentTag src loc children :: l2) out st =
  exec_nodes ev (tag_run ev exec_children loop_fuel) (l1 ++ l2) out st.
Proof.
  rewrite !exec_nodes_app. unfold bind.
  destruct (exec_nodes ev _ l1 out st) as [[o|e|] st1]; [|done..].
  simpl. unfold bind, ret. by rewrite str_app_nil_r.
Qed.

(** *** Rounds of a while loop *)

Lemma while_loop_round {V} (ev : Evaluator V) body expr slow t0 out st out' st' :
  while_round ev body expr slow t0 (out, st) = Some (out', st') →
  ∀ n, while_loop ev (S n) body expr slow t0 out st =
       while_loop ev n body expr slow t0 out' st'.
Proof.
  unfold while_round. simpl. intros H n. unfold bind.
  destruct (raw_eval ev expr st) as [[v|e|] st1]; try discriminate.
  destruct (lift_env (py_truth ev v) st1) as [[[|]|e|] st2]; try discriminate.
  destruct (body st2) as [[o|e|] st3]; try discriminate.
  destruct slow; simpl.
  - by inversion H.
  - unfold time_now. simpl.
    destruct (2000 <? time_time ev (ticks st3) - t0)%Z; [discriminate|].
    by inversion H.
Qed.

Lemma while_loop_rounds {V} (ev : Evaluator V) body expr slow t0 m :
  ∀ a b, while_rounds ev body expr slow t0 m a = Some b →
  ∀ n, while_loop ev (m + n) body expr slow t0 a.1 a.2 =
       while_loop ev n body expr slow t0 b.1 b.2.
Proof.
  induction m as [|m IH]; intros a b H n.
  - simpl in H. by inversion H.
  - simpl in H. destruct (while_round ev body expr slow t0 a) as [[out' st']|] eqn:E;
      [|discriminate].
    destruct a as [out st].
    change (S m + n) with (S (m + n)). simpl fst. simpl snd.
    rewrite (while_loop_round ev body expr slow t0 out st out' st' E).
    apply (IH (out', st') b H).
Qed.

(** A slow loop leaves the count of the readings of the clock as its
    children leave it. *)
Lemma while_loop_slow_ticks {V} (ev : Evaluator V) (body : M V string) expr :
  (∀ s r s', body s = (r, s') → ticks s' = ticks s) →
  ∀ n t0 out st r st',
    while_loop ev n body expr true t0 out st = (r, st') → ticks st' = ticks st.
Proof.
  intros Hbody. induction n as [|n IH]; intros t0 out st r st' H.
  - by inversion H.
  - simpl in H. unfold bind, raw_eval, lift_env in H.
    destruct (Py.contains newline expr).
    { by inversion H. }
    destruct (py_eval ev expr (env st)) as [[v|e|] e1]; simpl in H;
      [|by inversion H..].
    destruct (py_truth ev v e1) as [[[|]|e|] e2]; simpl in H;
      [| by inversion H..].
    destruct (body (State e2 (ticks st) (stdout st))) as [[o|e|] st3] eqn:Hb;
      [|apply Hbody in Hb; simpl in Hb; inversion H; by subst..].
    apply Hbody in Hb. simpl in Hb. apply IH in H. by rewrite H.
Qed.

(** *** An error of a round is the error of the scan *)

Lemma lex_rounds_fail src st st' :
  rtc (lex_round src) st st' →
  ∀ e fuel,
    (lx_i st' <? length src - 1) = true → lex_step src st' = Fail e →
    length src - lx_i st ≤ fuel →
    lex_loop fuel src st = Raise e.
Proof.
  induction 1 as [st|st st1 st' [Hlt Hstep] _ IH]; intros e fuel Hin Hfail Hf.
  - destruct fuel as [|fuel]; [apply Nat.ltb_lt in Hin; lia|].
    simpl. by rewrite Hin, Hfail.
  - destruct fuel as [|fuel]; [apply Nat.ltb_lt in Hlt; lia|].
    simpl. rewrite Hlt, Hstep. apply IH; try done.
    apply lex_step_advance in Hstep as (c & c' & _ & _ & Hadv). lia.
Qed.

Lemma lex_reach_fail src st e :
  lex_reach (Py.chars src) st →
  (lx_i st <? length (Py.chars src) - 1) = true →
  lex_step (Py.chars src) st = Fail e →
  lex src = Raise e.
Proof.
  intros Hr Hin Hfail. unfold lex.
  rewrite (lex_rounds_fail _ _ _ Hr e (String.length src) Hin Hfail); [done|].
  rewrite chars_length. simpl. lia.
Qed.

(** Where the scan is in a tag and comes to its closing delimiter, an
    error of closing the tag is the error of [lex]. *)
Lemma lex_close_tag_fail src st k body loc ch e :
  lex_reach (Py.chars src) st →
  lx_node st = Some (TagNode k body loc ch) →
  Py.chars src !! lx_i st = Some percent →
  Py.chars src !! (lx_i st + 1) = Some rbrace →
  close_node (TagNode k body loc ch) = Raise e →
  lex src = Raise e.
Proof.
  intros Hr Hnode Hc Hc' Hclose. apply (lex_reach_fail src st e Hr).
  - apply Nat.ltb_lt. apply lookup_lt_Some in Hc'. lia.
  - unfold lex_step. rewrite Hc, Hc', Hnode. unfold lex_in_node.
    cbn [isTextNode isDelimitedNode close_delim andb].
    change (String.eqb (String percent (String rbrace "")) "%}") with true.
    cbn iota. by rewrite Hclose.
Qed.

(* ===================================================================== *)
(** ** The properties of the specification *)
(* ===================================================================== *)

(** C1 (for-tag clean-up), at an input where the code departs from it.
    The iterator of [for a, b in []] is exhausted at once; the loop ends,
    and the clean-up [del pe.env[target]] then raises [KeyError] for the
    first target, which was never bound. *)
Theorem C1_for_over_nothing_raises_KeyError :
  parse "{% for a, b in [] %}x{% %}" =
    Ok (Root [TagNode (ForTag ["a"; "b"] "((a, b) for a, b in [])")
                      "for a, b in []" (1, 0) [TextNode "x"]]) ∧
  fst (execute Toy.evaluator 5 "{% for a, b in [] %}x{% %}" Toy.fresh) =
    Raise (KeyError "a").
Proof. split; vm_compute; reflexivity. Qed.

(** C2 (for-tag without targets), at an input where the code departs from
    it: lexing [{% for x %}] raises a [TypeError], the failed
    instantiation of [IncorrectForTag]; and for every body,
    [_find_targets] either gives a non-empty tuple of targets or raises
    that [TypeError], never [IncorrectForTag]. *)
Theorem C2_for_without_in_raises_TypeError :
  lex "{% for x %}" = Raise (TypeError "__init__() takes exactly 2 arguments (1 given)") ∧
  parse "{% for x %}" = Raise (TypeError "__init__() takes exactly 2 arguments (1 given)") ∧
  (∀ src,
     (∃ targets, targets ≠ [] ∧ ForTagM._find_targets src = Ok targets) ∨
     ForTagM._find_targets src =
       Raise (TypeError "__init__() takes exactly 2 arguments (1 given)")).
Proof.
  split; [vm_compute; reflexivity|]. split; [vm_compute; reflexivity|].
  intros src. unfold ForTagM._find_targets.
  destruct (ForTagM.find_targets_loop _ _ _) as [|t ts] eqn:E; [by right|].
  left. eexists. split; [|reflexivity]. by apply sorted_set_nonempty.
Qed.

(** C3 (evaluation errors), at an input where the code departs from it.
    [next(iter([]))] raises [StopIteration]; at top level it reaches the
    caller, but inside the body of a for tag the [except StopIteration]
    of the loop takes it for the end of the iteration: the run ends
    normally and prints the empty text. *)
Theorem C3_StopIteration_in_for_body_is_swallowed :
  fst (execute Toy.evaluator 5 "{{ next(iter([])) }}" Toy.fresh) = Raise StopIteration ∧
  fst (execute Toy.evaluator 5
         "{% for a, b in [(1, 2), (3, 4)] %}{{ next(iter([])) }}{% %}" Toy.fresh) = Ok tt ∧
  proc_stdout (snd (execute Toy.evaluator 5
         "{% for a, b in [(1, 2), (3, 4)] %}{{ next(iter([])) }}{% %}" Toy.fresh)) = [""] ∧
  fst (execute Toy.evaluator 5
         "{% for a, b in [(1, 2), (3, 4)] %}{{ 1/0 }}{% %}" Toy.fresh) =
    Raise (OtherError "ZeroDivisionError").
Proof. repeat split; vm_compute; reflexivity. Qed.

(** C4 (comment tag). A tag inside a comment is validated as anywhere
    else, and nothing inside a comment is run.
    - For every comment tag in the tokens of a source: when the source
      is parsed, the tokens after the tag are the balanced tokens of its
      children, then its own close marker, so every tag opened inside the
      comment has a close marker of its own before that of the comment;
      the comment is in the tree with these children, and every node
      under it is well formed (a tag of a known class, on one line, with
      a valid body). When the tokens after the tag are balanced, the
      close markers among them belong to the tags inside the comment, and
      the comment itself is reported as not closed. A tag opened inside
      the comment and not closed is reported as not closed.
    - Wherever the scan closes a tag, inside a comment as anywhere else,
      a body of more than one line raises [MultiLineTag] and a body of no
      known class raises [UnknownTag].
    - Running the tag gives the empty text and leaves the whole state as
      it was, whatever the evaluator and whatever running the children
      would do; a comment among other nodes is as if it was not there. *)
Theorem C4_comment_children_parsed_never_run (src : string) :
  (∀ tokens pre c rest,
     lex src = Ok tokens → tokens = pre ++ c :: rest → isCommentTag c = true →
     (∀ tree, parse src = Ok tree →
        ∃ inner kids close rest',
          rest = inner ++ close :: rest' ∧ isCloseTag close = true ∧
          Balanced inner kids ∧ Forall tree_ok kids ∧
          in_tree (with_children c kids) (root_children tree)) ∧
     (∀ kids, OpenPrefix pre → Balanced rest kids →
        parse src = Raise (SyntaxError (UnclosedTag (with_children c kids)))) ∧
     (∀ mid t inner kids,
        OpenPrefix pre → rest = mid ++ t :: inner → OpenPrefix mid →
        isOpenTag t = true → Balanced inner kids →
        parse src = Raise (SyntaxError (UnclosedTag (with_children t kids))))) ∧
  (∀ st k body loc ch,
     lex_reach (Py.chars src) st →
     lx_node st = Some (TagNode k body loc ch) →
     Py.chars src !! lx_i st = Some percent →
     Py.chars src !! (lx_i st + 1) = Some rbrace →
     (Py.contains newline body = true →
      parse src = Raise (SyntaxError (MultiLineTag (TagNode k body loc ch)))) ∧
     (Py.contains newline body = false → classify body = None →
      parse src = Raise (SyntaxError (UnknownTag (TagNode k body loc ch))))) ∧
  parse "{% comment %}{% bogus %}{% %}" =
    Raise (SyntaxError (UnknownTag (TagNode RawTag " bogus " (1, 13) []))) ∧
  parse "{% comment %}{{ 1/0 }}{% %}" =
    Ok (Root [TagNode CommentTag "comment" (1, 0) [CodeNode " 1/0 " (1, 13)]]) ∧
  (∀ V (ev : Evaluator V) exec_children loop_fuel children st,
     tag_run ev exec_children loop_fuel CommentTag children st = (Ok "", st)) ∧
  (∀ V (ev : Evaluator V) fuel l1 l2 s loc children st,
     exec_tree ev (S fuel) (l1 ++ TagNode CommentTag s loc children :: l2) st =
     exec_tree ev (S fuel) (l1 ++ l2) st).
Proof.
  split; [|split; [|split; [|split; [|split]]]].
  - intros tokens pre c rest Hlex -> Hc.
    pose proof (lex_childless _ _ Hlex) as Hch.
    pose proof (lex_tokens_ok _ _ Hlex) as Hok.
    pose proof (isCommentTag_open _ Hc) as Hopen.
    assert (childless c) as Hcc.
    { apply Forall_app in Hch as [_ Hch]. by apply Forall_cons in Hch as [? _]. }
    assert (Hparse : parse src = build_root (pre ++ c :: rest))
      by (unfold parse; by rewrite Hlex).
    split; [|split].
    + intros [trees] Hb. rewrite Hparse in Hb. apply build_root_balanced in Hb.
      destruct (Balanced_open_split _ _ Hb pre c rest eq_refl Hopen)
        as (inner & kids & close & rest' & -> & Hclose & Hbal & Hin).
      exists inner, kids, close, rest'. repeat split; try done.
      * eapply Balanced_tree_ok; [exact Hbal|].
        apply Forall_app in Hok as [_ Hok]. apply Forall_cons in Hok as [_ Hok].
        by apply Forall_app in Hok as [? _].
      * simpl. by rewrite with_children_childless in Hin.
    + intros kids Hpre Hbal. rewrite Hparse.
      rewrite (build_root_unclosed pre c rest kids) by done.
      by rewrite with_children_childless.
    + intros mid t inner kids Hpre Hrest Hmid Ht Hbal. rewrite Hparse. subst rest.
      replace (pre ++ c :: mid ++ t :: inner) with ((pre ++ c :: mid) ++ t :: inner)
        by (by rewrite <- app_assoc).
      rewrite (build_root_unclosed (pre ++ c :: mid) t inner kids); try done.
      * rewrite with_children_childless; [done|].
        apply Forall_app in Hch as [_ Hch]. apply Forall_cons in Hch as [_ Hch].
        apply Forall_app in Hch as [_ Hch]. by apply Forall_cons in Hch as [? _].
      * apply OpenPrefix_app; [done|]. by apply OP_open.
  - intros st k body loc ch Hr Hnode Hc Hc'. split.
    + intros Hnl. unfold parse.
      rewrite (lex_close_tag_fail src st k body loc ch
                 (SyntaxError (MultiLineTag (TagNode k body loc ch))) Hr Hnode Hc Hc');
        [done|].
      unfold close_node. by rewrite Hnl.
    + intros Hnl Hcls. unfold parse.
      rewrite (lex_close_tag_fail src st k body loc ch
                 (SyntaxError (UnknownTag (TagNode k body loc ch))) Hr Hnode Hc Hc');
        [done|].
      unfold close_node. rewrite Hnl. unfold classify in Hcls. by rewrite Hcls.
  - vm_compute. reflexivity.
  - vm_compute. reflexivity.
  - reflexivity.
  - intros V ev fuel l1 l2 s loc children st. simpl. apply exec_nodes_comment.
Qed.

Lemma C4_comment_children_parsed_never_run_witness :
  parse "{% comment %}{% for a in b %}{% %}" =
    Raise (SyntaxError (UnclosedTag
      (TagNode CommentTag "comment" (1, 0)
         [TagNode (ForTag ["a"] "((a) for a in b)") "for a in b" (1, 13) []]))).
Proof.
  destruct (C4_comment_children_parsed_never_run
              "{% comment %}{% for a in b %}{% %}") as (Hcomment & _).
  destruct (Hcomment
              [TagNode CommentTag "comment" (1, 0) [];
               TagNode (ForTag ["a"] "((a) for a in b)") "for a in b" (1, 13) [];
               TagNode CloseTag " " (1, 29) []]
              []
              (TagNode CommentTag "comment" (1, 0) [])
              [TagNode (ForTag ["a"] "((a) for a in b)") "for a in b" (1, 13) [];
               TagNode CloseTag " " (1, 29) []])
    as (_ & Hunclosed & _).
  - vm_compute. reflexivity.
  - reflexivity.
  - reflexivity.
  - apply (Hunclosed [TagNode (ForTag ["a"] "((a) for a in b)") "for a in b" (1, 13) []]).
    + apply OP_nil.
    + apply (Bal_tag (TagNode (ForTag ["a"] "((a) for a in b)") "for a in b" (1, 13) [])
                     [] [] (TagNode CloseTag " " (1, 29) []) [] []).
      * reflexivity.
      * reflexivity.
      * apply Bal_nil.
      * apply Bal_nil.
Defined.

(** C5 (identity), at an input where the code departs from it. The scan
    runs while [i < len(src) - 1]: on a source of one character it makes
    no round, no text node is made, and the output is empty. *)
Theorem C5_single_character_is_dropped :
  lex "a" = Ok [] ∧
  ∀ V (ev : Evaluator V) fuel p,
    execute ev (S fuel) "a" p =
      (Ok tt, Process (env (PypageExec_new p)) (proc_ticks p) (proc_stdout p ++ [""])).
Proof.
  split; [vm_compute; reflexivity|].
  intros V ev fuel p. unfold execute.
  assert (parse "a" = Ok (Root [])) as -> by (vm_compute; reflexivity).
  reflexivity.
Qed.



(** C7 (balance). For every token list the lexer produces:
    - tree building succeeds exactly when the tokens are balanced, that
      is, when each opened tag is followed by the tokens of its children
      and by one close marker of its own, and the tree is that nesting;
    - no close marker is kept as a node of the tree;
    - a close marker met after balanced tokens, with no tag open, raises
      [UnboundCloseTag] built from that close marker; its description
      quotes the marker and gives the line and column that the lexer
      recorded for it, which are those of its opening delimiter in the
      source;
    - when the tokens end after an opened tag and balanced tokens, what is
      raised is [UnclosedTag] built from that opening tag; its description
      quotes the tag as it was opened and gives the line and column of
      its opening delimiter;
    - no other error is raised, and the builder always ends. *)
Theorem C7_tree_builder_balance (src : string) (tokens : list node) :
  lex src = Ok tokens →
  (∀ trees, build_root tokens = Ok (Root trees) ↔ Balanced tokens trees) ∧
  (∀ trees, build_root tokens = Ok (Root trees) → forallb close_free trees = true) ∧
  (∀ pre trees c rest,
     tokens = pre ++ c :: rest → Balanced pre trees → isCloseTag c = true →
     build_root tokens = Raise (SyntaxError (UnboundCloseTag c)) ∧
     ∃ body line col i,
       c = TagNode CloseTag body (line, col) [] ∧
       opens_at (Py.chars src) i c ∧
       description (UnboundCloseTag c) =
         "Unbound closing tag '{%" +:+ body +:+ "%}' at line " +:+ pretty line +:+
         ", column " +:+ pretty col +:+ ".") ∧
  (∀ pre tok inner kids,
     tokens = pre ++ tok :: inner → OpenPrefix pre → isOpenTag tok = true →
     Balanced inner kids →
     build_root tokens = Raise (SyntaxError (UnclosedTag (with_children tok kids))) ∧
     description (UnclosedTag (with_children tok kids)) = description (UnclosedTag tok) ∧
     ∃ kind body line col i,
       tok = TagNode kind body (line, col) [] ∧
       opens_at (Py.chars src) i tok ∧
       description (UnclosedTag (with_children tok kids)) =
         "Missing closing '{% %}' tag for opening '{%" +:+ body +:+ "%}' at line " +:+
         pretty line +:+ ", column " +:+ pretty col +:+ ".") ∧
  (∀ e, build_root tokens = Raise e →
     (∃ c, e = SyntaxError (UnboundCloseTag c) ∧ c ∈ tokens ∧ isCloseTag c = true) ∨
     (∃ t kids, e = SyntaxError (UnclosedTag (with_children t kids)) ∧
                t ∈ tokens ∧ isOpenTag t = true)) ∧
  build_root tokens ≠ Diverge.
Proof.
  intros Hlex. pose proof (lex_childless _ _ Hlex) as Hch.
  pose proof (lex_positions _ _ Hlex) as Hpos.
  split; [|split; [|split; [|split; [|split]]]].
  - intros trees. apply build_root_balanced.
  - intros trees Hb. apply build_root_balanced in Hb.
    eapply Balanced_close_free; [exact Hb|].
    eapply Forall_impl; [exact Hch|]. intros t Ht. simpl in Ht. rewrite Ht. done.
  - intros pre trees c rest -> Hbal Hc. split; [by eapply build_root_unbound|].
    apply Forall_app in Hch as [_ Hch]. apply Forall_cons in Hch as [Hcc _].
    apply Forall_app in Hpos as [_ Hpos]. apply Forall_cons in Hpos as [Hcp _].
    destruct c as [| |[] body [line col] ch]; try done.
    unfold childless in Hcc. simpl in Hcc. subst ch.
    destruct (Hcp eq_refl) as [i Hi].
    exists body, line, col, i. split; [done|]. split; [exact Hi|]. reflexivity.
  - intros pre tok inner kids -> Hpre Hopen Hbal.
    apply Forall_app in Hch as [_ Hch]. apply Forall_cons in Hch as [Ht _].
    apply Forall_app in Hpos as [_ Hpos]. apply Forall_cons in Hpos as [Htp _].
    split; [|split; [apply description_with_children|]].
    + rewrite (build_root_unclosed pre tok inner kids) by done.
      by rewrite with_children_childless.
    + destruct tok as [| |kind body [line col] ch]; try done.
      unfold childless in Ht. simpl in Ht. subst ch.
      destruct (Htp eq_refl) as [i Hi].
      exists kind, body, line, col, i. split; [done|]. split; [exact Hi|]. reflexivity.
  - intros e He. unfold build_root in He.
    destruct (build_tree _ PRoot [] tokens) as [[k r]| |] eqn:Hb;
      simpl in He; try discriminate.
    inversion He; subst e0.
    apply build_tree_errors in Hb as [?|(t & kids & -> & [?|?])]; [by left|done|].
    right. by exists t, kids.
  - apply build_root_total.
Qed.

Lemma C7_tree_builder_balance_witness :
  lex "{% while a %}x{% %}{% %}" =
    Ok [TagNode (WhileTag "a" false false) "while a" (1, 0) [];
        TextNode "x"; TagNode CloseTag " " (1, 14) []; TagNode CloseTag " " (1, 19) []] ∧
  build_root [TagNode (WhileTag "a" false false) "while a" (1, 0) [];
              TextNode "x"; TagNode CloseTag " " (1, 14) []; TagNode CloseTag " " (1, 19) []] =
    Raise (SyntaxError (UnboundCloseTag (TagNode CloseTag " " (1, 19) []))) ∧
  description (UnboundCloseTag (TagNode CloseTag " " (1, 19) [])) =
    "Unbound closing tag '{% %}' at line 1, column 19.".
Proof.
  assert (lex "{% while a %}x{% %}{% %}" =
    Ok [TagNode (WhileTag "a" false false) "while a" (1, 0) [];
        TextNode "x"; TagNode CloseTag " " (1, 14) []; TagNode CloseTag " " (1, 19) []])
    as Hlex by (vm_compute; reflexivity).
  split; [exact Hlex|].
  destruct (C7_tree_builder_balance _ _ Hlex) as (_ & _ & Hunbound & _).
  destruct (Hunbound
           [TagNode (WhileTag "a" false false) "while a" (1, 0) [];
            TextNode "x"; TagNode CloseTag " " (1, 14) []]
           [TagNode (WhileTag "a" false false) "while a" (1, 0) [TextNode "x"]]
           (TagNode CloseTag " " (1, 19) []) [])
    as (Hraise & body & line & col & i & Hc & _ & Hdescr).
  - reflexivity.
  - apply (Bal_tag (TagNode (WhileTag "a" false false) "while a" (1, 0) [])
                   [TextNode "x"] [TextNode "x"] (TagNode CloseTag " " (1, 14) []) [] []).
    + reflexivity.
    + reflexivity.
    + apply Bal_leaf; [reflexivity|apply Bal_nil].
    + apply Bal_nil.
  - reflexivity.
  - split; [exact Hraise|]. rewrite Hdescr. injection Hc as <- <- <-.
    vm_compute. reflexivity.
Defined.

(** C8 as stated fails: a body that only begins with [comment] is
    classified as a comment too; and a body of two lines for which no
    predicate holds raises [MultiLineTag], before any classification. *)
Lemma C8_comment_body_need_not_be_exact :
  (classify " commentary " = Some CommentCls ∧ Py.strip " commentary " ≠ "comment") ∧
  (classify (String newline "bogus") = None ∧
   close_node (TagNode RawTag (String newline "bogus") (1, 0) []) =
     Raise (SyntaxError (MultiLineTag (TagNode RawTag (String newline "bogus") (1, 0) [])))).
Proof.
  split; split; try (vm_compute; reflexivity). vm_compute. discriminate.
Qed.

(** C8, amended. The classes are tried in the order for, close, while,
    comment, and the class of a tag body is the first whose predicate
    holds of it; since no two predicates hold of one body, it is the one
    class whose predicate holds. The body is a comment exactly when,
    trimmed, it begins with [comment], and its tag then becomes a comment
    tag with the trimmed body. When a tag is closed, a body that holds a
    newline raises [MultiLineTag], whatever its class would be; a
    one-line body for which no predicate holds raises [UnknownTag]. *)
Theorem C8_classifier_order_comment_by_prefix (src : string) :
  tagNodeTypes = [ForCls; CloseCls; WhileCls; CommentCls] ∧
  (∀ t, classify src = Some t →
     ∃ before after,
       tagNodeTypes = before ++ t :: after ∧ identify t src = true ∧
       Forall (λ t', identify t' src = false) before) ∧
  (∀ t, classify src = Some t ↔ identify t src = true) ∧
  (classify src = None ↔ ∀ t, identify t src = false) ∧
  classify src =
    (if Py.startswith (Py.strip src) "for " then Some ForCls
     else if (match Py.strip src with EmptyString => true | _ => false end) then Some CloseCls
     else if Py.startswith (Py.strip src) "while " then Some WhileCls
     else if Py.startswith (Py.strip src) "comment" then Some CommentCls
     else None) ∧
  (classify src = Some CommentCls ↔ Py.startswith (Py.strip src) "comment" = true) ∧
  (∀ k loc ch,
     Py.contains newline src = true →
     close_node (TagNode k src loc ch) =
       Raise (SyntaxError (MultiLineTag (TagNode k src loc ch)))) ∧
  (∀ k loc ch,
     Py.contains newline src = false → classify src = Some CommentCls →
     close_node (TagNode k src loc ch) = Ok (TagNode CommentTag (Py.strip src) loc [])) ∧
  (∀ k loc ch,
     Py.contains newline src = false → classify src = None →
     close_node (TagNode k src loc ch) =
       Raise (SyntaxError (UnknownTag (TagNode k src loc ch)))).
Proof.
  assert (Hfirst : ∀ t, classify src = Some t →
     ∃ before after,
       tagNodeTypes = before ++ t :: after ∧ identify t src = true ∧
       Forall (λ t', identify t' src = false) before).
  { intros t Ht. unfold classify in Ht.
    pose proof (first_true_spec (λ t, identify t src) tagNodeTypes) as Hspec.
    rewrite Ht in Hspec. destruct Hspec as (before & after & H1 & H2 & H3).
    by exists before, after. }
  assert (Hone : ∀ t, classify src = Some t ↔ identify t src = true).
  { intros t. split.
    - intros Ht. by destruct (Hfirst t Ht) as (_ & _ & _ & H & _).
    - intros Hid. destruct (classify src) as [t'|] eqn:Hc.
      + destruct (Hfirst t' eq_refl) as (_ & _ & _ & H & _).
        f_equal. by eapply identify_exclusive.
      + exfalso. unfold classify in Hc.
        pose proof (first_true_spec (λ t, identify t src) tagNodeTypes) as Hspec.
        rewrite Hc in Hspec.
        assert (t ∈ tagNodeTypes) as Hin
          by (unfold tagNodeTypes; rewrite !elem_of_cons; destruct t; tauto).
        eapply Forall_forall in Hspec; [|exact Hin]. simpl in Hspec. congruence. }
  assert (Hiff : classify src = Some CommentCls ↔
                 Py.startswith (Py.strip src) "comment" = true) by apply Hone.
  split; [reflexivity|]. split; [exact Hfirst|]. split; [exact Hone|].
  split; [|split; [apply classify_unfold|]; split; [exact Hiff|]; split; [|split]].
  - split.
    + intros Hn t. destruct (identify t src) eqn:E; [|done].
      apply Hone in E. congruence.
    + intros Hall.
      assert (∀ t, classify src ≠ Some t) as Hno.
      { intros t Ht. apply Hone in Ht. by rewrite Hall in Ht. }
      destruct (classify src) as [t|]; [|done]. by destruct (Hno t).
  - intros k loc ch Hnl. unfold close_node. by rewrite Hnl.
  - intros k loc ch Hnl Hc. unfold close_node. rewrite Hnl.
    unfold classify in Hc. rewrite Hc. unfold construct.
    apply CommentTag_init_ok. by apply Hiff.
  - intros k loc ch Hnl Hc. unfold close_node. rewrite Hnl.
    unfold classify in Hc. rewrite Hc. done.
Qed.

Lemma C8_classifier_order_comment_by_prefix_witness :
  classify " commentary " = Some CommentCls ∧
  close_node (TagNode RawTag " bogus " (1, 0) []) =
    Raise (SyntaxError (UnknownTag (TagNode RawTag " bogus " (1, 0) []))) ∧
  close_node (TagNode RawTag (String newline "comment") (1, 0) []) =
    Raise (SyntaxError (MultiLineTag (TagNode RawTag (String newline "comment") (1, 0) []))).
Proof.
  destruct (C8_classifier_order_comment_by_prefix " commentary ")
    as (_ & _ & _ & _ & _ & Hiff & _).
  destruct (C8_classifier_order_comment_by_prefix " bogus ")
    as (_ & _ & _ & _ & _ & _ & _ & _ & Hunknown).
  destruct (C8_classifier_order_comment_by_prefix (String newline "comment"))
    as (_ & _ & _ & _ & _ & _ & Hmulti & _).
  split; [|split].
  - apply Hiff. reflexivity.
  - apply Hunknown; reflexivity.
  - apply Hmulti. reflexivity.
Defined.

(** C9 (positions), at an input where the code departs from it. An
    opening delimiter that is the first character of the first line gets
    column 0; one that is the first character of the second line gets
    column 1, because [line_i] is then the index of the newline itself. *)
Theorem C9_column_after_newline_is_one :
  lex "{{ x }}  " = Ok [CodeNode " x " (1, 0); TextNode "  "] ∧
  lex (String newline "{{ x }}  ") =
    Ok [TextNode (String newline ""); CodeNode " x " (2, 1); TextNode "  "].
Proof. split; vm_compute; reflexivity. Qed.

(** C10 as stated fails for the five names that [__init__] writes: the
    code block of one run binds [__doc__] to 7 in the default dictionary,
    and the next run starts with [__doc__] bound to [None] again and
    prints [None]. *)
Lemma C10_binding_of_init_name_is_reset :
  let p := snd (execute Toy.evaluator 5 "{{__doc__ = 7; }}" Toy.fresh) in
  default_env p !! "__doc__" = Some (VObj (Toy.Int 7)) ∧
  env (PypageExec_new p) !! "__doc__" = Some VNone ∧
  fst (execute Toy.evaluator 5 "{{ __doc__ }}" p) = Ok tt ∧
  proc_stdout (snd (execute Toy.evaluator 5 "{{ __doc__ }}" p)) = [""; "None"].
Proof. repeat split; vm_compute; reflexivity. Qed.

(** C10, amended (shared default environment). For a name [k] that is
    not one of the five that [__init__] writes:
    - a run of [execute] starts with [k] bound as the default dictionary
      of the process binds it;
    - the run works on that dictionary: what the process is left with is
      the environment as the run left it, whether the run ended normally
      or raised; a source that is not parsed leaves the process as it
      was;
    - so a binding of [k] is there at the start of every later run, as
      long as no run in between binds [k] otherwise or deletes it.
    The five names are bound at the start of a run to what [__init__]
    gives them, whatever the dictionary held. *)
Theorem C10_default_environment_is_shared
    (V : Type) (ev : Evaluator V) (fuel : nat) (k : string) :
  k ∉ init_names →
  (∀ p : process V, env (PypageExec_new p) !! k = default_env p !! k) ∧
  (∀ src tree p,
     parse src = Ok tree →
     ∃ r st,
       bind (exec_tree ev fuel (root_children tree)) print (PypageExec_new p) = (r, st) ∧
       execute ev fuel src p = (r, process_of st) ∧
       default_env (snd (execute ev fuel src p)) = env st) ∧
  (∀ src e (p : process V),
     parse src = Raise e → execute ev fuel src p = (Raise e, p)) ∧
  (∀ srcs p v,
     default_env p !! k = Some v → keeps_all ev fuel k srcs p →
     default_env (run_all ev fuel srcs p) !! k = Some v ∧
     env (PypageExec_new (run_all ev fuel srcs p)) !! k = Some v) ∧
  (∀ (p : process V) k',
     k' ∈ init_names →
     env (PypageExec_new p) !! k' =
     PypageExec_init (V := V) ∅ "pypage_transient" !! k').
Proof.
  intros Hnot.
  assert (Hstart : ∀ p : process V, env (PypageExec_new p) !! k = default_env p !! k).
  { intros p. unfold PypageExec_new, PypageExec_init, init_names in *. simpl.
    rewrite !elem_of_cons, elem_of_nil in Hnot.
    rewrite !lookup_insert_ne by (intros <-; apply Hnot; auto 10). done. }
  split; [exact Hstart|]. split; [|split; [|split]].
  - intros src tree p Hparse. unfold execute. rewrite Hparse.
    destruct (bind _ _ _) as [r st] eqn:Hrun.
    exists r, st. done.
  - intros src e p Hparse. unfold execute. by rewrite Hparse.
  - intros srcs p v Hk Hkeeps.
    assert (default_env (run_all ev fuel srcs p) !! k = Some v) as Hend.
    { revert p Hk Hkeeps. induction srcs as [|src rest IH]; intros p Hk Hkeeps; [done|].
      destruct Hkeeps as [Hsame Hrest]. simpl. apply IH; [|done].
      by rewrite Hsame. }
    split; [exact Hend|]. by rewrite Hstart.
  - intros p k' Hin. unfold init_names in Hin.
    rewrite !elem_of_cons, elem_of_nil in Hin.
    unfold PypageExec_new, PypageExec_init. simpl.
    destruct Hin as [->|[->|[->|[->|[->|[]]]]]];
      repeat first [ rewrite lookup_insert_eq | rewrite lookup_insert_ne by done ];
      done.
Qed.

Lemma C10_default_environment_is_shared_witness :
  fst (execute Toy.evaluator 5 "{{ x }}" Toy.fresh) = Raise (OtherError "NameError") ∧
  let p := snd (execute Toy.evaluator 5 "{{x = 1; }}" Toy.fresh) in
  let q := run_all Toy.evaluator 5 ["hello, {{ y }}"; "{% bogus %}"; "{{ x }}"] p in
  default_env q !! "x" = Some (VObj (Toy.Int 1)) ∧
  env (PypageExec_new q) !! "x" = Some (VObj (Toy.Int 1)) ∧
  fst (execute Toy.evaluator 5 "{{ x }}" q) = Ok tt ∧
  proc_stdout (snd (execute Toy.evaluator 5 "{{ x }}" q)) = [""; "1"; "1"].
Proof.
  split; [vm_compute; reflexivity|].
  intros p q.
  destruct (C10_default_environment_is_shared Toy.obj Toy.evaluator 5 "x")
    as (_ & _ & _ & Hlater & _).
  - unfold init_names. rewrite !elem_of_cons, elem_of_nil.
    intros [H|[H|[H|[H|[H|H]]]]]; try discriminate H. exact H.
  - destruct (Hlater ["hello, {{ y }}"; "{% bogus %}"; "{{ x }}"] p (VObj (Toy.Int 1)))
      as [H1 H2].
    + vm_compute. reflexivity.
    + repeat split; vm_compute; reflexivity.
    + split; [exact H1|]. split; [exact H2|]. split; vm_compute; reflexivity.
Defined.

(* ===================================================================== *)
(** ** Further properties of the code *)
(* ===================================================================== *)

(** X1 ([first_true]). The result is the first element of the sequence
    for which the function is true: the function is false of every
    element before it; and the result is [None] exactly when the function
    is false of every element. *)
Theorem X1_first_true_first_match {A : Type} (f : A → bool) (l : list A) :
  match first_true f l with
  | Some x => ∃ pre post, l = pre ++ x :: post ∧ f x = true ∧ Forall (λ y, f y = false) pre
  | None => Forall (λ y, f y = false) l
  end.
Proof. apply first_true_spec. Qed.

(** X2 (tag classes). No tag body is identified by two classes: the four
    [identify] predicates exclude one another, so the class the lexer
    picks is the one class whose predicate holds, whatever the order of
    [tagNodeTypes]. *)
Theorem X2_tag_classes_exclude_one_another (src : string) (t1 t2 : tag_class) :
  identify t1 src = true → identify t2 src = true →
  t1 = t2 ∧ classify src = Some t1.
Proof.
  intros H1 H2. split; [by eapply identify_exclusive|].
  unfold classify.
  pose proof (first_true_spec (λ t, identify t src) tagNodeTypes) as Hspec.
  destruct (first_true _ tagNodeTypes) as [t|].
  - destruct Hspec as (_ & _ & _ & Ht & _). f_equal. by eapply identify_exclusive.
  - exfalso. assert (t1 ∈ tagNodeTypes) as Hin
      by (unfold tagNodeTypes; rewrite !elem_of_cons; destruct t1; tauto).
    eapply Forall_forall in Hspec; [|exact Hin]. simpl in Hspec. congruence.
Qed.

Lemma X2_tag_classes_exclude_one_another_witness :
  WhileCls = WhileCls ∧ classify " while x < 3 " = Some WhileCls.
Proof.
  apply (X2_tag_classes_exclude_one_another " while x < 3 " WhileCls WhileCls).
  - reflexivity.
  - reflexivity.
Defined.

(** X3 (targets of a for tag). Whenever [_find_targets] returns, the
    tuple it returns is not empty, holds identifiers only, and is in
    strictly increasing byte order, so without repetition. *)
Theorem X3_for_targets_sorted_identifiers (src : string) (targets : list string) :
  ForTagM._find_targets src = Ok targets →
  targets_ok targets ∧ NoDup targets.
Proof.
  intros H. apply find_targets_ok in H. split; [done|].
  destruct H as (_ & _ & Hs). by apply sorted_NoDup.
Qed.

Lemma X3_for_targets_sorted_identifiers_witness :
  targets_ok ["_y"; "a"; "b"] ∧ NoDup ["_y"; "a"; "b"].
Proof.
  apply (X3_for_targets_sorted_identifiers "for b, a, b in q for _y, 9 in r").
  vm_compute. reflexivity.
Defined.

(** X4 (tokens). Every token [lex] returns is well formed: a text token
    is not empty; a tag token has no children, a body of one line and a
    class among for, while, comment and close, never the unclassified
    [TagNode]; the body of a for, while or comment tag is trimmed and
    begins with its keyword, that of a close marker is blank; the targets
    of a for tag are identifiers in strictly increasing order, and its
    generator expression and the condition of a while tag hold no
    newline, so the [assert] of [raw_eval] holds of them. *)
Theorem X4_lexed_tokens_well_formed (src : string) (tokens : list node) :
  lex src = Ok tokens → Forall token_ok tokens.
Proof. apply lex_tokens_ok. Qed.

Lemma X4_lexed_tokens_well_formed_witness :
  Forall token_ok
    [TextNode "a ";
     TagNode (ForTag ["i"; "j"] "((i, j) for j, i in q)") "for j, i in q" (1, 2) [];
     CodeNode " i " (1, 21);
     TagNode CloseTag "  " (1, 28) []].
Proof.
  apply (X4_lexed_tokens_well_formed "a {% for j, i in q %}{{ i }}{%  %}").
  vm_compute. reflexivity.
Defined.

(** X5 (text tokens). No two text tokens follow one another in what
    [lex] returns: the text between two blocks is one token. *)
Theorem X5_no_two_text_tokens_in_a_row (src : string) (tokens : list node) :
  lex src = Ok tokens → no_adjacent_text tokens.
Proof. apply lex_no_adjacent_text. Qed.

Lemma X5_no_two_text_tokens_in_a_row_witness :
  no_adjacent_text [TextNode "a\b"; CodeNode " i " (1, 3); TextNode "c{de"].
Proof.
  apply (X5_no_two_text_tokens_in_a_row "a\b{{ i }}c\{de").
  vm_compute. reflexivity.
Defined.

(** X6 (positions). The position of every code and tag token [lex]
    returns is that of an opening delimiter of its kind in the source: at
    some index the source holds the two characters of the delimiter, the
    line of the token is one more than the number of newlines before that
    index, and its column is the index less the index of the last newline
    before it (less 0 when there is none). *)
Theorem X6_positions_point_at_opening_delimiters (src : string) (tokens : list node) :
  lex src = Ok tokens →
  Forall (λ t, isDelimitedNode t = true → ∃ i, opens_at (Py.chars src) i t) tokens.
Proof. apply lex_positions. Qed.

Lemma X6_positions_point_at_opening_delimiters_witness :
  Forall (λ t, isDelimitedNode t = true →
               ∃ i, opens_at (Py.chars (String newline "ab{{ x }}  ")) i t)
    [TextNode (String newline "ab"); CodeNode " x " (2, 3); TextNode "  "].
Proof.
  apply (X6_positions_point_at_opening_delimiters (String newline "ab{{ x }}  ")).
  vm_compute. reflexivity.
Defined.

(** X7 (trees). Every node of a tree [parse] returns is well formed: it
    is as [lex] made its token, it is never a close marker nor an
    unclassified tag, and its children are well formed too. *)
Theorem X7_parsed_trees_well_formed (src : string) (tree : RootNode) :
  parse src = Ok tree → Forall tree_ok (root_children tree).
Proof.
  unfold parse. destruct (lex src) as [tokens| |] eqn:Hlex; simpl; try discriminate.
  intros Hb. destruct tree as [trees]. apply build_root_balanced in Hb. simpl.
  eapply Balanced_tree_ok; [exact Hb|]. by eapply lex_tokens_ok.
Qed.

Lemma X7_parsed_trees_well_formed_witness :
  Forall tree_ok
    [TagNode (WhileTag "a" false false) "while a" (1, 0)
       [TextNode "x";
        TagNode CommentTag "comment" (1, 14) [CodeNode " y " (1, 27)];
        TextNode "z"];
     TextNode "  "].
Proof.
  apply (X7_parsed_trees_well_formed
           "{% while a %}x{% comment %}{{ y }}{% %}z{% %}  "
           (Root [TagNode (WhileTag "a" false false) "while a" (1, 0)
                    [TextNode "x";
                     TagNode CommentTag "comment" (1, 14) [CodeNode " y " (1, 27)];
                     TextNode "z"];
                  TextNode "  "])).
  vm_compute. reflexivity.
Defined.

(** X8 (errors of parsing). [parse] always ends, and what it raises is
    one of: [IncompleteDelimitedNode] for a code or tag node,
    [MultiLineTag], [UnknownTag], [UnboundCloseTag] for a close marker,
    [UnclosedTag] for a tag, or the [TypeError] of a for tag without
    targets. It raises no [IncorrectForTag] and no [AssertionError]. *)
Theorem X8_parse_ends_and_raises_six_errors_only (src : string) :
  match parse src with
  | Ok _ => True
  | Raise e =>
      (∃ nd, e = SyntaxError (IncompleteDelimitedNode nd) ∧ isDelimitedNode nd = true) ∨
      (∃ nd, e = SyntaxError (MultiLineTag nd)) ∨
      (∃ nd, e = SyntaxError (UnknownTag nd)) ∨
      (∃ nd, e = SyntaxError (UnboundCloseTag nd) ∧ isCloseTag nd = true) ∨
      (∃ nd, e = SyntaxError (UnclosedTag nd) ∧ isOpenTag nd = true) ∨
      e = for_tag_TypeError
  | Diverge => False
  end.
Proof.
  unfold parse. pose proof (lex_total src) as Htot.
  destruct (lex src) as [tokens|e|] eqn:Hlex; simpl; [| |done].
  - pose proof (build_root_total tokens) as Hbt.
    destruct (build_root tokens) as [tree|e|] eqn:Hb; [done| |done].
    unfold build_root in Hb.
    destruct (build_tree _ PRoot [] tokens) as [[k r]|e'|] eqn:Hbt'; simpl in Hb;
      try discriminate.
    inversion Hb; subst e'.
    apply build_tree_errors in Hbt' as [(c & -> & _ & Hc)|(t & kids & -> & [?|[_ Ht]])];
      [|done|].
    + right; right; right; left. by exists c.
    + right; right; right; right; left. exists (with_children t kids). split; [done|].
      by destruct t.
  - apply lex_errors in Hlex as [?|[?|[?|?]]]; tauto.
Qed.

(** X9 (document order). Running a list of nodes that is one list after
    another is running the first list, then the second from the state the
    first one left, and the output is the two outputs one after the
    other; an error (or no end) of the first list is that of the whole,
    and the second list is then not run. *)
Theorem X9_exec_tree_runs_in_document_order
    (V : Type) (ev : Evaluator V) (fuel : nat) (l1 l2 : list node) (st : state V) :
  exec_tree ev (S fuel) (l1 ++ l2) st =
  match exec_tree ev (S fuel) l1 st with
  | (Ok o1, st1) =>
      match exec_tree ev (S fuel) l2 st1 with
      | (Ok o2, st2) => (Ok (o1 +:+ o2), st2)
      | other => other
      end
  | (Raise e, st1) => (Raise e, st1)
  | (Diverge, st1) => (Diverge, st1)
  end.
Proof.
  simpl. rewrite exec_nodes_app. unfold bind.
  destruct (exec_nodes ev _ l1 "" st) as [[o1|e|] st1]; [|done..].
  apply exec_nodes_output.
Qed.

(** X10 (text and comments). A list of nodes that holds text nodes and
    comment tags only runs to the concatenation of its texts, with any
    evaluator and without any change of the state: the evaluator is not
    called. *)
Theorem X10_text_and_comments_need_no_evaluator
    (V : Type) (ev : Evaluator V) (fuel : nat) (nodes : list node) (st : state V) :
  static_nodes nodes = true →
  exec_tree ev (S fuel) nodes st = (Ok (text_of nodes), st).
Proof. intros Hs. simpl. by rewrite exec_nodes_static. Qed.

Lemma X10_text_and_comments_need_no_evaluator_witness :
  exec_tree Toy.evaluator 1
    [TextNode "a"; TagNode CommentTag "comment" (1, 1) [CodeNode " 1/0 " (1, 14)];
     TextNode "b"] (State ∅ 0 []) =
  (Ok "ab", State ∅ 0 []).
Proof.
  apply (X10_text_and_comments_need_no_evaluator Toy.obj Toy.evaluator 0
           [TextNode "a"; TagNode CommentTag "comment" (1, 1) [CodeNode " 1/0 " (1, 14)];
            TextNode "b"] (State ∅ 0 [])).
  reflexivity.
Defined.

(** X11 (scope of the targets). When a for tag runs to its end, every
    target is bound afterwards to what it was bound to before the tag,
    and is unbound if it was unbound before: what the loop and its body
    did to the targets is undone. *)
Theorem X11_for_tag_restores_its_targets
    (V : Type) (ev : Evaluator V) (exec_children : list node → M V string)
    (loop_fuel : nat) (targets : list string) (genexpr : string)
    (children : list node) (st st' : state V) (out t : string) :
  tag_run ev exec_children loop_fuel (ForTag targets genexpr) children st = (Ok out, st') →
  t ∈ targets →
  env st' !! t = env st !! t.
Proof.
  simpl. intros Hrun Hin. apply ForTag_run_scoping in Hrun as [Hres _]. by apply Hres.
Qed.

Lemma X11_for_tag_restores_its_targets_witness :
  env (snd (tag_run Toy.evaluator (exec_tree Toy.evaluator 3) 3
              (ForTag ["a"; "b"] "((a, b) for a, b in [(1, 2), (3, 4)])")
              [CodeNode " a " (1, 0)]
              (State (<["a" := VStr "old"]> ∅) 0 []))) !! "a" =
  Some (VStr "old").
Proof.
  pose (st := State (V := Toy.obj) (<["a" := VStr "old"]> ∅) 0 []).
  pose (r := tag_run Toy.evaluator (exec_tree Toy.evaluator 3) 3
               (ForTag ["a"; "b"] "((a, b) for a, b in [(1, 2), (3, 4)])")
               [CodeNode " a " (1, 0)] st).
  change (env (snd r) !! "a" = env st !! "a").
  apply (X11_for_tag_restores_its_targets Toy.obj Toy.evaluator
           (exec_tree Toy.evaluator 3) 3 ["a"; "b"]
           "((a, b) for a, b in [(1, 2), (3, 4)])" [CodeNode " a " (1, 0)]
           st (snd r) "13" "a").
  - assert (fst r = Ok "13") as Hfst by (vm_compute; reflexivity).
    rewrite <- Hfst. unfold r. by destruct (tag_run _ _ _ _ _ _).
  - apply elem_of_cons. by left.
Defined.

(** X12 (clean-up of a for tag). The loop [del pe.env[target]] over the
    targets, from a given state:
    - when the targets are all bound and none comes twice, it deletes
      them all and nothing else, and ends normally;
    - it stops at the first target that is not bound, or that came
      before and so is bound no more, with [KeyError] of that target:
      the targets before it are deleted, the later ones and every other
      name are as they were;
    - one of the two is the case for every tuple of targets.
    It touches nothing but the environment. *)
Theorem X12_del_targets_stops_at_first_unbound (V : Type) (st : state V) :
  (∀ targets,
     NoDup targets → (∀ t, t ∈ targets → is_Some (env st !! t)) →
     ∃ st', del_targets targets st = (Ok tt, st') ∧
            (∀ k, env st' !! k = if decide (k ∈ targets) then None else env st !! k) ∧
            ticks st' = ticks st ∧ stdout st' = stdout st) ∧
  (∀ pre t post,
     NoDup pre → (∀ u, u ∈ pre → is_Some (env st !! u)) →
     env st !! t = None ∨ t ∈ pre →
     ∃ st', del_targets (pre ++ t :: post) st = (Raise (KeyError t), st') ∧
            (∀ k, env st' !! k = if decide (k ∈ pre) then None else env st !! k) ∧
            ticks st' = ticks st ∧ stdout st' = stdout st) ∧
  (∀ targets,
     (NoDup targets ∧ ∀ t, t ∈ targets → is_Some (env st !! t)) ∨
     ∃ pre t post,
       targets = pre ++ t :: post ∧ NoDup pre ∧
       (∀ u, u ∈ pre → is_Some (env st !! u)) ∧
       (env st !! t = None ∨ t ∈ pre)).
Proof.
  split; [|split].
  - intros targets. revert st.
    induction targets as [|t ts IH]; intros st Hnd Hall.
    + exists st. repeat split; try done.
    + apply NoDup_cons in Hnd as [Hnt Hnd].
      destruct (Hall t ltac:(by left)) as [v Hv]. simpl. rewrite Hv.
      destruct (IH (State (delete t (env st)) (ticks st) (stdout st)) Hnd)
        as (st' & Hrun & Henv & Ht & Ho).
      { intros u Hu. simpl. rewrite lookup_delete_ne by (by intros ->).
        apply Hall. by right. }
      exists st'. split; [done|]. split; [|done].
      intros k. rewrite Henv. simpl.
      destruct (decide (k ∈ ts)) as [Hk|Hk].
      * rewrite decide_True; [done|by right].
      * destruct (decide (k = t)) as [->|Hne].
        -- rewrite decide_True by (by left). apply lookup_delete_eq.
        -- rewrite decide_False by (rewrite elem_of_cons; tauto).
           by apply lookup_delete_ne.
  - intros pre. revert st.
    induction pre as [|u pre IH]; intros st t post Hnd Hall Ht.
    + destruct Ht as [Ht|Ht]; [|by apply elem_of_nil in Ht].
      exists st. simpl. rewrite Ht. repeat split; done.
    + apply NoDup_cons in Hnd as [Hnu Hnd].
      destruct (Hall u ltac:(by left)) as [v Hv]. simpl. rewrite Hv.
      destruct (IH (State (delete u (env st)) (ticks st) (stdout st)) t post Hnd)
        as (st' & Hrun & Henv & Hti & Ho).
      { intros w Hw. simpl. rewrite lookup_delete_ne by (by intros ->).
        apply Hall. by right. }
      { simpl. destruct Ht as [Ht|Ht].
        - left. destruct (decide (u = t)) as [->|Hne];
            [apply lookup_delete_eq|by rewrite lookup_delete_ne].
        - apply elem_of_cons in Ht as [->|Ht]; [left; apply lookup_delete_eq|by right]. }
      exists st'. split; [done|]. split; [|done].
      intros k. rewrite Henv. simpl.
      destruct (decide (k ∈ pre)) as [Hk|Hk].
      * rewrite decide_True; [done|by right].
      * destruct (decide (k = u)) as [->|Hne].
        -- rewrite decide_True by (by left). apply lookup_delete_eq.
        -- rewrite decide_False by (rewrite elem_of_cons; tauto).
           by apply lookup_delete_ne.
  - intros targets. induction targets as [|x l IH] using rev_ind.
    + left. split; [constructor|]. intros t Ht. by apply elem_of_nil in Ht.
    + destruct IH as [[Hnd Hall]|(pre & t & post & -> & Hnd & Hall & Ht)].
      * destruct (decide (x ∈ l)) as [Hx|Hx].
        { right. exists l, x, []. repeat split; try done. by right. }
        destruct (env st !! x) as [v|] eqn:Hv.
        -- left. split.
           ++ apply NoDup_app. repeat split; [done| |apply NoDup_singleton].
              intros y Hy Hy'. apply list_elem_of_singleton in Hy'. by subst.
           ++ intros t Ht. apply elem_of_app in Ht as [Ht|Ht]; [by apply Hall|].
              apply list_elem_of_singleton in Ht. subst. by rewrite Hv.
        -- right. exists l, x, []. repeat split; try done. by left.
      * right. exists pre, t, (post ++ [x]). rewrite <- app_assoc. done.
Qed.

Lemma X12_del_targets_stops_at_first_unbound_witness :
  fst (del_targets ["a"; "b"] (State (V := Toy.obj) (<["b" := VNone]> ∅) 0 [])) =
  Raise (KeyError "a").
Proof.
  destruct (X12_del_targets_stops_at_first_unbound Toy.obj
              (State (<["b" := VNone]> ∅) 0 [])) as (_ & Hstop & _).
  destruct (Hstop [] "a" ["b"]) as (st' & Hrun & _).
  - constructor.
  - intros u Hu. by apply elem_of_nil in Hu.
  - left. reflexivity.
  - change ([] ++ "a" :: ["b"]) with ["a"; "b"] in Hrun. by rewrite Hrun.
Defined.

(** X13 (while, condition false at once). When the condition of a while
    tag without [dofirst] is false the first time it is tested, the tag
    gives the empty text and its children are not run: the state is the
    one the test of the condition left, with one reading of the clock. *)
Theorem X13_while_false_runs_nothing
    (V : Type) (ev : Evaluator V) (body : M V string) (n : nat) (expr : string)
    (slow : bool) (st : state V) (v : value V) (e1 e2 : gmap string (value V)) :
  one_line expr →
  py_eval ev expr (env st) = (Ok v, e1) →
  py_truth ev v e1 = (Ok false, e2) →
  WhileTag_run ev body (S n) expr false slow st =
    (Ok "", State e2 (S (ticks st)) (stdout st)).
Proof.
  intros Hline Heval Htruth. unfold WhileTag_run, bind, ret, time_now. simpl.
  unfold bind. rewrite raw_eval_one_line by done. unfold lift_env. simpl.
  rewrite Heval. simpl. rewrite Htruth. done.
Qed.

Lemma X13_while_false_runs_nothing_witness :
  WhileTag_run Toy.evaluator (raise (OtherError "never")) 1 "x" false false
    (State (<["x" := VObj (Toy.Int 0)]> ∅) 0 []) =
  (Ok "", State (<["x" := VObj (Toy.Int 0)]> ∅) 1 []).
Proof.
  apply (X13_while_false_runs_nothing Toy.obj Toy.evaluator
           (raise (OtherError "never")) 0 "x" false
           (State (<["x" := VObj (Toy.Int 0)]> ∅) 0 [])
           (VObj (Toy.Int 0))
           (<["x" := VObj (Toy.Int 0)]> ∅) (<["x" := VObj (Toy.Int 0)]> ∅)).
  - reflexivity.
  - vm_compute. reflexivity.
  - reflexivity.
Defined.

(** X14 (while, time limit). In a while tag that is not [slow], with or
    without [dofirst], after any number of rounds: when the clock read
    after a round of the children is more than two seconds past the
    start of the loop, the loop ends there, whatever the condition would
    be: the output of the round is kept, one line about the loop is
    printed, and nothing is raised. *)
Theorem X14_while_stops_after_two_seconds
    (V : Type) (ev : Evaluator V) (body : M V string) (fuel m : nat) (expr : string)
    (dofirst : bool) (st0 st1 st st3 : state V) (out0 out o : string)
    (v : value V) (e1 e2 : gmap string (value V)) :
  one_line expr →
  (if dofirst then body else ret "") st0 = (Ok out0, st1) →
  while_rounds ev body expr false (time_time ev (ticks st1)) m
    (out0, State (env st1) (S (ticks st1)) (stdout st1)) = Some (out, st) →
  py_eval ev expr (env st) = (Ok v, e1) →
  py_truth ev v e1 = (Ok true, e2) →
  body (State e2 (ticks st) (stdout st)) = (Ok o, st3) →
  (2000 < time_time ev (ticks st3) - time_time ev (ticks st1))%Z →
  m < fuel →
  WhileTag_run ev body fuel expr dofirst false st0 =
    (Ok (out +:+ o),
     State (env st3) (S (ticks st3))
           (stdout st3 ++ ["Loop '" +:+ expr +:+ "' terminated."])).
Proof.
  intros Hline Hfirst Hrounds Heval Htruth Hbody Hlate Hm.
  unfold WhileTag_run, bind. rewrite Hfirst. unfold time_now.
  replace fuel with (m + S (fuel - S m)) by lia.
  rewrite (while_loop_rounds ev body expr false _ m _ _ Hrounds). simpl.
  unfold bind. rewrite raw_eval_one_line by done. unfold lift_env.
  rewrite Heval. simpl. rewrite Htruth. simpl. rewrite Hbody. simpl.
  apply Z.ltb_lt in Hlate. rewrite Hlate. done.
Qed.

Lemma X14_while_stops_after_two_seconds_witness :
  WhileTag_run (Toy_clock 1500) (ret "X") 5 "x" true false
    (State (<["x" := VObj (Toy.Int 1)]> ∅) 0 []) =
  (Ok "XXX", State (<["x" := VObj (Toy.Int 1)]> ∅) 3 ["Loop 'x' terminated."]).
Proof.
  etrans.
  - apply (X14_while_stops_after_two_seconds Toy.obj (Toy_clock 1500) (ret "X") 5 1 "x" true
             (State (<["x" := VObj (Toy.Int 1)]> ∅) 0 [])
             (State (<["x" := VObj (Toy.Int 1)]> ∅) 0 [])
             (State (<["x" := VObj (Toy.Int 1)]> ∅) 2 [])
             (State (<["x" := VObj (Toy.Int 1)]> ∅) 2 [])
             "X" "XX" "X" (VObj (Toy.Int 1))
             (<["x" := VObj (Toy.Int 1)]> ∅) (<["x" := VObj (Toy.Int 1)]> ∅)).
    + reflexivity.
    + reflexivity.
    + vm_compute. reflexivity.
    + vm_compute. reflexivity.
    + reflexivity.
    + reflexivity.
    + reflexivity.
    + lia.
  - reflexivity.
Defined.

(** X15 (slow loops). The loop of a [slow] while tag never reads the
    clock. When the children leave the count of the readings as it was:
    - the loop leaves it as it was, however many rounds it makes and
      however it ends;
    - the whole tag reads the clock once, for the start time that it
      never uses;
    and with the same expressions evaluated the same way, the loop gives
    the same result whatever the clock shows and whenever it started. *)
Theorem X15_slow_while_never_reads_the_clock
    (V : Type) (ev : Evaluator V) (body : M V string) (expr : string) :
  (∀ s r s', body s = (r, s') → ticks s' = ticks s) →
  (∀ n t0 out st r st',
     while_loop ev n body expr true t0 out st = (r, st') → ticks st' = ticks st) ∧
  (∀ n (dofirst : bool) st o st1 r st',
     (if dofirst then body else ret "") st = (Ok o, st1) →
     WhileTag_run ev body n expr dofirst true st = (r, st') →
     ticks st' = S (ticks st)) ∧
  (∀ ev' n t0 t0' out st,
     py_eval ev = py_eval ev' → py_truth ev = py_truth ev' →
     while_loop ev n body expr true t0 out st =
     while_loop ev' n body expr true t0' out st).
Proof.
  intros Hbody. split; [|split].
  - by apply while_loop_slow_ticks.
  - intros n dofirst st o st1 r st' Hfirst Hrun.
    unfold WhileTag_run, bind in Hrun. rewrite Hfirst in Hrun.
    unfold time_now in Hrun.
    apply (while_loop_slow_ticks ev body expr Hbody) in Hrun. simpl in Hrun.
    rewrite Hrun. f_equal.
    destruct dofirst.
    + by apply Hbody in Hfirst.
    + by inversion Hfirst.
  - intros ev' n t0 t0' out st He Ht. by apply while_loop_slow_clock.
Qed.

Lemma X15_slow_while_never_reads_the_clock_witness :
  WhileTag_run (Toy_clock 1500) (ret "X") 4 "x" true true
    (State (<["x" := VObj (Toy.Int 1)]> ∅) 0 []) =
    (@Diverge string, State (<["x" := VObj (Toy.Int 1)]> ∅) 1 []) ∧
  ticks (snd (WhileTag_run (Toy_clock 1500) (ret "X") 4 "x" true true
                (State (<["x" := VObj (Toy.Int 1)]> ∅) 0 []))) = 1.
Proof.
  assert (WhileTag_run (Toy_clock 1500) (ret "X") 4 "x" true true
            (State (<["x" := VObj (Toy.Int 1)]> ∅) 0 []) =
          (@Diverge string, State (<["x" := VObj (Toy.Int 1)]> ∅) 1 [])) as Hrun
    by (vm_compute; reflexivity).
  split; [exact Hrun|].
  destruct (X15_slow_while_never_reads_the_clock Toy.obj (Toy_clock 1500) (ret "X") "x")
    as (_ & Hone & _).
  - intros s r s' H. by inversion H.
  - rewrite Hrun. simpl.
    apply (Hone 4 true (State (<["x" := VObj (Toy.Int 1)]> ∅) 0 []) "X"
             (State (<["x" := VObj (Toy.Int 1)]> ∅) 0 [])
             (@Diverge string) (State (<["x" := VObj (Toy.Int 1)]> ∅) 1 [])).
    + reflexivity.
    + exact Hrun.
Defined.

(** X16 (plain text). A source that holds no opening delimiter and no
    escaped brace, and is not of length 1, is parsed to one text node
    that holds the whole source (to no node when it is empty), and runs
    to itself, with any evaluator and no change of the state; closing
    delimiters in it are text. *)
Theorem X16_plain_text_runs_to_itself (src : string) :
  plain_text src → String.length src ≠ 1 →
  parse src = Ok (Root (match src with "" => [] | _ => [TextNode src] end)) ∧
  lex src = Ok (match src with "" => [] | _ => [TextNode src] end) ∧
  ∀ V (ev : Evaluator V) fuel st,
    exec_tree ev (S fuel) (match src with "" => [] | _ => [TextNode src] end) st =
    (Ok src, st).
Proof.
  intros Hplain Hlen.
  destruct src as [|c [|c' src']]; [| done |].
  - repeat split; reflexivity.
  - set (src := String c (String c' src')) in *.
    destruct (lex_loop_plain src Hplain (String.length src) lex_init)
      as (st' & Hloop & Htok & Hnode); try done;
      try (subst src; simpl; lia).
    assert (lex src = Ok [TextNode src]) as Hlex.
    { unfold lex. rewrite Hloop. simpl obind.
      unfold lex_finish. rewrite Hnode, Htok. reflexivity. }
    split; [|split; [exact Hlex|reflexivity]].
    unfold parse. rewrite Hlex. reflexivity.
Qed.

Lemma X16_plain_text_runs_to_itself_witness :
  parse "a}} %}" = Ok (Root [TextNode "a}} %}"]) ∧
  lex "a}} %}" = Ok [TextNode "a}} %}"] ∧
  ∀ V (ev : Evaluator V) fuel st,
    exec_tree ev (S fuel) [TextNode "a}} %}"] st = (Ok "a}} %}", st).
Proof.
  apply (X16_plain_text_runs_to_itself "a}} %}").
  - intros i c c' Hc Hc'.
    do 6 (destruct i as [|i];
          [vm_compute in Hc, Hc';
           first [discriminate
                 | injection Hc as <-; injection Hc' as <-; split; reflexivity]|]).
    vm_compute in Hc. discriminate.
  - simpl. lia.
Defined.

(** X17 (filterlines). The lines of [filterlines(text)] are the lines
    of the text that are not blank, in their order; so no line of the
    result is blank, and filtering a second time changes nothing. *)
Theorem X17_filterlines_keeps_the_lines_not_blank (text : string) :
  splitlines (filterlines text) =
    filter (λ line, Py.strip line ≠ "") (splitlines text) ∧
  Forall (λ line, Py.strip line ≠ "") (splitlines (filterlines text)) ∧
  filterlines (filterlines text) = filterlines text.
Proof.
  split; [apply splitlines_filterlines|]. split; [|apply filterlines_idemp].
  rewrite splitlines_filterlines. apply Forall_forall. intros line Hin.
  by apply list_elem_of_filter in Hin as [Hne _].
Qed.

(** X18 (indent). With a positive width and a positive level, every
    line of [indent(text, level, width)] is a line of the text after
    [level * width] spaces, and a second indentation adds its level to
    the first. *)
Theorem X18_indent_levels_add (text : string) (a b width : Z) :
  (0 < width)%Z → (0 < a)%Z → (0 <= b)%Z →
  splitlines (indent text a width) =
    map (λ line, spaces width a +:+ line) (splitlines text) ∧
  indent (indent text a width) b width = indent text (a + b) width.
Proof.
  intros Hw Ha Hb. unfold indent. split.
  - apply splitlines_prepend; [by apply spaces_nonempty|apply spaces_no_line_end].
  - rewrite prepend_prepend;
      [|by apply spaces_nonempty|apply spaces_no_line_end].
    rewrite spaces_add by lia. done.
Qed.

Lemma X18_indent_levels_add_witness :
  splitlines (indent (String "a" (String newline (String newline "b"))) 1 4) =
    map (λ line, spaces 4 1 +:+ line)
        (splitlines (String "a" (String newline (String newline "b")))) ∧
  indent (indent (String "a" (String newline (String newline "b"))) 1 4) 2 4 =
  indent (String "a" (String newline (String newline "b"))) (1 + 2) 4.
Proof.
  apply (X18_indent_levels_add
           (String "a" (String newline (String newline "b"))) 1 2 4); lia.
Defined.

(** X19 (repr of a leaf). The text that [repr] gives for a text node is
    the line [Text:] and then the lines of the node's text that are not
    blank, each after four spaces; for a code node the same after the
    line [Code:]. Blank lines of the source are not shown. *)
Theorem X19_repr_of_leaves (src : string) (loc : nat * nat) :
  splitlines (repr (TextNode src)) =
    "Text:" :: map (λ line, "    " +:+ line)
                   (filter (λ line, Py.strip line ≠ "") (splitlines src)) ∧
  splitlines (repr (CodeNode src loc)) =
    "Code:" :: map (λ line, "    " +:+ line)
                   (filter (λ line, Py.strip line ≠ "") (splitlines src)).
Proof.
  assert (Hbody : splitlines (indent_filtered src 1 4) =
                  map (λ line, "    " +:+ line)
                      (filter (λ line, Py.strip line ≠ "") (splitlines src))).
  { unfold indent_filtered.
    rewrite splitlines_prepend; [|done|apply spaces_no_line_end].
    by rewrite splitlines_filterlines. }
  assert (Hhead : ∀ h, no_line_end h →
            splitlines (h +:+ String newline "" +:+ indent_filtered src 1 4) =
            h :: splitlines (indent_filtered src 1 4)).
  { intros h Hh. unfold splitlines at 1. rewrite !chars_app.
    change (Py.chars (String newline "")) with [newline]. simpl.
    rewrite splitlines_aux_line by done. simpl. by rewrite of_chars_chars. }
  split; simpl; rewrite Hhead, ?Hbody; try done.
  - unfold no_line_end. simpl. repeat (constructor; [done|]). constructor.
  - unfold no_line_end. simpl. repeat (constructor; [done|]). constructor.
Qed.

Lemma prefix_append p s : String.prefix p (p +:+ s) = true.
Proof.
  induction p as [|a p IH]; [by destruct s|].
  rewrite str_app_cons. simpl. by destruct (ascii_dec a a).
Qed.

(** X20 (the [slow] option of a while tag). The option is found by
    [endswith('slow')] on the expression, with no test that it is a
    word of its own: when the body of a while tag is [while ] and then
    an expression ending in the four letters [slow], the letters are
    taken off the expression, and the loop runs on what is left, as a
    slow loop. *)
Theorem X20_slow_is_a_suffix_test
    (e : string) (k : tag_kind) (loc : nat * nat) (ch : list node) :
  Py.strip e = e → e ≠ "" →
  Py.startswith (e +:+ "slow") "dofirst " = false →
  WhileTagM.init (TagNode k ("while " +:+ e +:+ "slow") loc ch) =
  Ok (TagNode (WhileTag e false true) ("while " +:+ e +:+ "slow") loc []).
Proof.
  intros Hs Hne Hdo.
  destruct (stripped_head e Hs Hne) as (c & t & Hc & Hsp).
  assert (Hstrip1 : Py.strip ("while " +:+ e +:+ "slow") = "while " +:+ e +:+ "slow").
  { unfold Py.strip. rewrite !chars_app.
    change (Py.chars "while ") with ("w"%char :: Py.chars "hile ").
    change (Py.chars "slow") with (Py.chars "slo" ++ ["w"%char]).
    rewrite <- app_comm_cons, !app_assoc.
    rewrite strip_chars_ends by done.
    rewrite <- !app_assoc, app_comm_cons.
    change ("w"%char :: Py.chars "hile ") with (Py.chars "while ").
    change (Py.chars "slo" ++ ["w"%char]) with (Py.chars "slow").
    by rewrite <- !chars_app, of_chars_chars. }
  assert (Hstrip2 : Py.strip (e +:+ "slow") = e +:+ "slow").
  { unfold Py.strip. rewrite !chars_app, Hc.
    change (Py.chars "slow") with (Py.chars "slo" ++ ["w"%char]).
    rewrite <- app_comm_cons, !app_assoc.
    rewrite strip_chars_ends by done.
    rewrite <- !app_assoc, app_comm_cons, <- Hc.
    change (Py.chars "slo" ++ ["w"%char]) with (Py.chars "slow").
    by rewrite <- !chars_app, of_chars_chars. }
  unfold WhileTagM.init. rewrite Hstrip1.
  assert (Hid : WhileTagM.identify ("while " +:+ e +:+ "slow") = true).
  { unfold WhileTagM.identify. rewrite Hstrip1. apply prefix_append. }
  rewrite Hid. cbn [negb].
  assert (Hdrop : Py.drop_prefix (String.length WhileTagM.tag_startswith)
                    ("while " +:+ e +:+ "slow") = e +:+ "slow").
  { unfold Py.drop_prefix. rewrite chars_app.
    change (String.length WhileTagM.tag_startswith)
      with (length (Py.chars "while ")).
    by rewrite drop_app_length, of_chars_chars. }
  rewrite Hdrop, Hstrip2.
  change WhileTagM.dofirst_startswith with "dofirst ". rewrite Hdo.
  assert (Hend : Py.endswith (e +:+ "slow") WhileTagM.slow_endswith = true).
  { unfold Py.endswith. rewrite chars_app, rev_app_distr, of_chars_app.
    apply prefix_append. }
  rewrite Hend.
  assert (Hsuf : Py.drop_suffix (String.length WhileTagM.slow_endswith)
                   (e +:+ "slow") = e).
  { unfold Py.drop_suffix. rewrite <- chars_length, chars_app, length_app.
    replace (length (Py.chars e) + length (Py.chars "slow") -
             String.length WhileTagM.slow_endswith)
      with (length (Py.chars e)) by (simpl; lia).
    by rewrite take_app_length, of_chars_chars. }
  rewrite Hsuf, Hs. done.
Qed.

Lemma X20_slow_is_a_suffix_test_witness :
  WhileTagM.init (TagNode RawTag ("while " +:+ "not is_" +:+ "slow") (1, 0) []) =
  Ok (TagNode (WhileTag "not is_" false true) ("while " +:+ "not is_" +:+ "slow") (1, 0) []).
Proof.
  apply (X20_slow_is_a_suffix_test "not is_" RawTag (1, 0) []).
  - vm_compute. reflexivity.
  - discriminate.
  - vm_compute. reflexivity.
Defined.

(** *** The bounds of the model *)

Section FuelFacts.

Context {V : Type} (ev : Evaluator V).

Lemma extends_refl {A} (m : M V A) : extends m m.
Proof. by intros st r st' H _. Qed.

Lemma extends_bind {A B} (m1 m2 : M V A) (k1 k2 : A → M V B) :
  extends m1 m2 → (∀ a, extends (k1 a) (k2 a)) →
  extends (bind m1 k1) (bind m2 k2).
Proof.
  intros Hm Hk st r st'. unfold bind.
  destruct (m1 st) as [[a|e|] st1] eqn:E; intros H Hr.
  - rewrite (Hm _ _ _ E) by done. by apply Hk.
  - rewrite (Hm _ _ _ E) by done. done.
  - by inversion H; subst.
Qed.

Lemma for_round_extends (body1 body2 : M V string) targets gen out :
  extends body1 body2 →
  extends (for_round ev body1 targets gen out) (for_round ev body2 targets gen out).
Proof.
  intros Hb. unfold for_round.
  apply extends_bind; [apply extends_refl|]. intros [item gen'].
  apply extends_bind; [apply extends_refl|]. intros vals.
  apply extends_bind; [apply extends_refl|]. intros _.
  apply extends_bind; [done|]. intros o. apply extends_refl.
Qed.

Lemma for_loop_extends (body1 body2 : M V string) targets :
  extends body1 body2 →
  ∀ n m, n ≤ m → ∀ gen out,
    extends (for_loop ev n body1 targets gen out) (for_loop ev m body2 targets gen out).
Proof.
  intros Hb. induction n as [|n IH]; intros m Hnm gen out st r st' H Hr.
  - by inversion H; subst.
  - destruct m as [|m]; [lia|]. simpl in *.
    destruct (for_round ev body1 targets gen out st) as [[[gen' out']|e|] st1] eqn:E.
    + rewrite (for_round_extends _ _ _ _ _ Hb _ _ _ E) by done.
      apply (IH m); [lia|done..].
    + rewrite (for_round_extends _ _ _ _ _ Hb _ _ _ E) by done. done.
    + by inversion H; subst.
Qed.

Lemma while_loop_extends (body1 body2 : M V string) expr slow t0 :
  extends body1 body2 →
  ∀ n m, n ≤ m → ∀ out,
    extends (while_loop ev n body1 expr slow t0 out) (while_loop ev m body2 expr slow t0 out).
Proof.
  intros Hb. induction n as [|n IH]; intros m Hnm out.
  - intros st r st' H Hr. by inversion H; subst.
  - destruct m as [|m]; [lia|]. simpl.
    apply extends_bind; [apply extends_refl|]. intros v.
    apply extends_bind; [apply extends_refl|]. intros [|]; [|apply extends_refl].
    apply extends_bind; [done|]. intros o.
    destruct (negb slow).
    + apply extends_bind; [apply extends_refl|]. intros now.
      destruct (2000 <? now - t0)%Z; [apply extends_refl|]. apply IH. lia.
    + apply IH. lia.
Qed.

Lemma tag_run_extends (ex1 ex2 : list node → M V string) n m :
  (∀ ch, extends (ex1 ch) (ex2 ch)) → n ≤ m →
  ∀ k ch, extends (tag_run ev ex1 n k ch) (tag_run ev ex2 m k ch).
Proof.
  intros Hex Hnm [|targets genexpr|expr dofirst slow| |] ch; simpl;
    try apply extends_refl.
  - unfold ForTag_run.
    apply extends_bind; [apply extends_refl|]. intros e.
    apply extends_bind; [apply extends_refl|]. intros gen.
    apply extends_bind; [by apply for_loop_extends|]. intros o.
    apply extends_refl.
  - unfold WhileTag_run.
    apply extends_bind; [destruct dofirst; [done|apply extends_refl]|]. intros o.
    apply extends_bind; [apply extends_refl|]. intros t0.
    by apply while_loop_extends.
Qed.

Lemma exec_nodes_extends (run1 run2 : tag_kind → list node → M V string) :
  (∀ k ch, extends (run1 k ch) (run2 k ch)) →
  ∀ nodes out, extends (exec_nodes ev run1 nodes out) (exec_nodes ev run2 nodes out).
Proof.
  intros Hrun. induction nodes as [|[src|src loc|k src loc ch] nodes IH]; intros out; simpl.
  - apply extends_refl.
  - apply IH.
  - apply extends_bind; [apply extends_refl|]. intros o. apply IH.
  - apply extends_bind; [apply Hrun|]. intros o. apply IH.
Qed.

Lemma exec_tree_extends n m :
  n ≤ m → ∀ ch, extends (exec_tree ev n ch) (exec_tree ev m ch).
Proof.
  revert m. induction n as [|n IH]; intros m Hnm ch.
  - intros st r st' H Hr. by inversion H; subst.
  - destruct m as [|m]; [lia|]. simpl.
    apply exec_nodes_extends. intros k ch'.
    apply tag_run_extends; [|lia]. intros ch''. apply IH. lia.
Qed.

End FuelFacts.

(** X21 (while, [dofirst]). With [dofirst] the children run once before
    the condition is tested for the first time: when the condition is
    then false, the tag gives what that one run gave, and the clock is
    read once, after it. *)
Theorem X21_dofirst_runs_children_before_the_test
    (V : Type) (ev : Evaluator V) (body : M V string) (n : nat) (expr : string)
    (slow : bool) (st st1 : state V) (o : string) (v : value V)
    (e1 e2 : gmap string (value V)) :
  one_line expr →
  body st = (Ok o, st1) →
  py_eval ev expr (env st1) = (Ok v, e1) →
  py_truth ev v e1 = (Ok false, e2) →
  WhileTag_run ev body (S n) expr true slow st =
    (Ok o, State e2 (S (ticks st1)) (stdout st1)).
Proof.
  intros Hline Hbody Heval Htruth. unfold WhileTag_run, bind. rewrite Hbody.
  unfold time_now. simpl. unfold bind.
  rewrite raw_eval_one_line by done. unfold lift_env. simpl.
  rewrite Heval. simpl. rewrite Htruth. done.
Qed.

Lemma X21_dofirst_runs_children_before_the_test_witness :
  WhileTag_run Toy.evaluator (ret "X") 1 "x" true false
    (State (<["x" := VObj (Toy.Int 0)]> ∅) 0 []) =
  (Ok "X", State (<["x" := VObj (Toy.Int 0)]> ∅) 1 []).
Proof.
  apply (X21_dofirst_runs_children_before_the_test Toy.obj Toy.evaluator
           (ret "X") 0 "x" false
           (State (<["x" := VObj (Toy.Int 0)]> ∅) 0 [])
           (State (<["x" := VObj (Toy.Int 0)]> ∅) 0 [])
           "X" (VObj (Toy.Int 0))
           (<["x" := VObj (Toy.Int 0)]> ∅) (<["x" := VObj (Toy.Int 0)]> ∅)).
  - reflexivity.
  - reflexivity.
  - vm_compute. reflexivity.
  - reflexivity.
Defined.

(** X22 (the bound of a run). The bound on the depth of the tree and on
    the rounds of a loop only cuts runs short: a run that ends within a
    bound, with a text or with an error, ends with the same result and
    in the same state within every larger bound. *)
Theorem X22_result_does_not_depend_on_the_bound
    (V : Type) (ev : Evaluator V) (fuel fuel' : nat) (nodes : list node)
    (st st' : state V) (r : outcome string) :
  exec_tree ev fuel nodes st = (r, st') → r ≠ Diverge → fuel ≤ fuel' →
  exec_tree ev fuel' nodes st = (r, st').
Proof.
  intros H Hr Hle. by apply (exec_tree_extends ev fuel fuel' Hle nodes st r st').
Qed.

Lemma X22_result_does_not_depend_on_the_bound_witness :
  exec_tree Toy.evaluator 9
    [TagNode (ForTag ["a"; "b"] "((a, b) for a, b in [(1, 2), (3, 4)])")
       "for a, b in [(1, 2), (3, 4)]" (1, 0) [CodeNode " a " (1, 32)]]
    (State (<["a" := VStr "old"]> ∅) 0 []) =
  (Ok "13", State (<["a" := VStr "old"]> ∅) 0 []).
Proof.
  apply (X22_result_does_not_depend_on_the_bound Toy.obj Toy.evaluator 4 9).
  - vm_compute. reflexivity.
  - discriminate.
  - lia.
Defined.
